(** * cf-r2: the R2 client singleton, the storage operations and the
      chunked multipart upload.

    The development embeds, as executable Rocq functions,
    - [config.ts]: [createR2Client], [initR2Client], [getR2Client];
    - [upload.ts], [download.ts], [file-management.ts], [bucket.ts] and
      [bucket-config.ts]: the operations of the library;
    - the [multipartUpload] of the command-line tool (default chunk size
      50 MiB) and the [multipartUpload] of the example script (default
      chunk size 5 MiB), which share one part loop: [Cli] and [Example]
      take a chunk size that is an integer and, for the command-line tool,
      a user who answers every prompt;
    - the upload of the command-line tool for every number as chunk size,
      the infinities and NaN included, and for every answer to its prompts
      ([Tool]), with the [uploadFile] and the [deleteFile] of the tool
      ([CliFiles]) and of the example script ([ExampleFiles]).

    A process is a state (the default client, the number of clients
    constructed, the log of what was sent and shown); a computation is a
    function of the state that returns a value or throws.  The remote
    store, the file system and the answers to the prompts are parameters.

    JavaScript numbers: byte counts and indices are integers ([Z]) and a
    quotient such as [totalSize / chunkSize] is a rational ([Q]), taken
    exactly.  In [Number] a result whose magnitude reaches 2^1024 - 2^970
    is an infinity, a division by zero gives an infinity or NaN, and a
    counter stops growing at 2^53.  The rounding of finite results is left
    out: a percentage shown is that of the exact quotient. *)

From Stdlib Require Import ZArith QArith Qround Lqa List String Ascii Bool
  Lia.
Import ListNotations.
Local Open Scope string_scope.
Local Open Scope list_scope.
Local Open Scope Z_scope.

(** ** Outcomes of a JavaScript computation *)

Inductive error : Type :=
| Error (message : string)        (* new Error(message) *)
| RangeError                      (* String.prototype.repeat, negative count *)
| ServiceError (name : string) (httpStatusCode : option Z).
                                  (* a rejection of client.send *)

(** [error.name] and [error.$metadata?.httpStatusCode]. *)
Definition errorName (e : error) : string :=
  match e with
  | Error _ => "Error"
  | RangeError => "RangeError"
  | ServiceError name _ => name
  end.

Definition errorStatusCode (e : error) : option Z :=
  match e with
  | ServiceError _ code => code
  | _ => None
  end.

Definition is404 (code : option Z) : bool :=
  match code with Some n => n =? 404 | None => false end.

Inductive outcome (A : Type) : Type :=
| Ok (a : A)
| Throw (e : error).
Arguments Ok {A} a.
Arguments Throw {A} e.

(** ** JavaScript number and string primitives used by the sources *)

Module JS.

(** [x / y] on numbers. *)
Definition div (x y : Q) : Q := (x / y)%Q.

(** [x < y] on numbers. *)
Definition ltb (x y : Q) : bool :=
  match (x ?= y)%Q with Lt => true | _ => false end.

(** [Math.floor]. *)
Definition floor (x : Q) : Z := Qfloor x.

(** [x.toFixed(0)] read back as an integer: the nearest integer, the
    larger one on a tie. *)
Definition toFixed0 (x : Q) : Z := Qfloor (x + (1 # 2))%Q.

(** [s.repeat(count)] for a one-character [s]: the length of the result;
    a negative count throws a RangeError.  The engine's limit on the length
    of a string is left out. *)
Definition repeat (count : Z) : outcome nat :=
  if count <? 0 then Throw RangeError else Ok (Z.to_nat count).

(** [v || d] for an optional number: 0 and undefined are falsy. *)
Definition or_number (v : option Z) (d : Z) : Z :=
  match v with
  | Some n => if n =? 0 then d else n
  | None => d
  end.

(** [v || d] for an optional string: the empty string and undefined are
    falsy. *)
Definition or_string (v : option string) (d : string) : string :=
  match v with
  | Some EmptyString => d
  | Some s => s
  | None => d
  end.

(** [s.lastIndexOf(c)] for a one-character [c]; -1 when absent. *)
Fixpoint lastIndexOf_from (s : string) (c : ascii) (pos : Z) (found : Z) : Z :=
  match s with
  | EmptyString => found
  | String a rest =>
      lastIndexOf_from rest c (pos + 1) (if Ascii.eqb a c then pos else found)
  end.

Definition lastIndexOf (s : string) (c : ascii) : Z :=
  lastIndexOf_from s c 0 (-1).

(** [s.substring(start)] for [0 <= start]. *)
Definition substring (s : string) (start : Z) : string :=
  String.substring (Z.to_nat start) (String.length s - Z.to_nat start)%nat s.

(** Index clamping of [TypedArray.prototype.slice]. *)
Definition relativeIndex (len k : Z) : Z :=
  if k <? 0 then Z.max (len + k) 0 else Z.min k len.

End JS.

(** ** Requests and responses of the S3 client *)

(** A [Buffer] cut out of the file's bytes: the bytes at offsets
    [chunk_start <= b < chunk_end]. *)
Record chunk : Type := { chunk_start : Z; chunk_end : Z }.

Definition byteLength (b : chunk) : Z := chunk_end b - chunk_start b.

(** [buf.slice(start, end)] on a buffer of [len] bytes. *)
Definition slice (len start end_ : Z) : chunk :=
  let from := JS.relativeIndex len start in
  let final := JS.relativeIndex len end_ in
  {| chunk_start := from; chunk_end := from + Z.max (final - from) 0 |}.

Record PartRecord : Type := { PartNumber : Z; ETag : option string }.

Definition Metadata : Type := list (string * string).

(** bucket-config.ts: the rules of a CORS and of a lifecycle
    configuration.  The wrappers copy them field by field into the
    command. *)
Record CORSRule : Type :=
  { allowedHeaders : option (list string);
    allowedMethods : list string;
    allowedOrigins : list string;
    exposeHeaders : option (list string);
    maxAgeSeconds : option Z }.

Record LifecycleFilter : Type :=
  { filterPrefix : option string; filterTag : option (string * string) }.

Record LifecycleExpiration : Type :=
  { expirationDays : option Z; expirationDate : option string }.

Record LifecycleTransition : Type :=
  { transitionDays : option Z;
    transitionDate : option string;
    storageClass : string }.

Record LifecycleRule : Type :=
  { ruleId : option string;
    ruleStatus : string;
    ruleFilter : option LifecycleFilter;
    ruleExpiration : option LifecycleExpiration;
    ruleTransitions : option (list LifecycleTransition) }.

Inductive command : Type :=
| PutObjectCommand (Bucket Key : string) (Body : chunk)
    (ContentType : option string) (Meta : option Metadata)
| CreateMultipartUploadCommand (Bucket Key : string)
    (ContentType : option string) (Meta : option Metadata)
| UploadPartCommand (Bucket Key UploadId : string) (PartNumber : Z)
    (Body : chunk)
| UploadPartCopyCommand (Bucket Key UploadId : string) (PartNumber : Z)
    (CopySource : string) (CopySourceRange : option string)
| CompleteMultipartUploadCommand (Bucket Key UploadId : string)
    (Parts : list PartRecord)
| AbortMultipartUploadCommand (Bucket Key UploadId : string)
| CopyObjectCommand (Bucket CopySource Key : string)
    (Meta : option Metadata) (ContentType : option string)
| GetObjectCommand (Bucket Key : string)
| HeadObjectCommand (Bucket Key : string)
| ListObjectsCommand (Bucket : string)
    (Prefix Delimiter Marker : option string) (MaxKeys : option Z)
| ListObjectsV2Command (Bucket : string)
    (Prefix Delimiter ContinuationToken : option string)
    (MaxKeys : option Z) (StartAfter : option string)
| DeleteObjectCommand (Bucket Key : string)
| DeleteObjectsCommand (Bucket : string) (Objects : list string)
    (Quiet : bool)
| ListMultipartUploadsCommand (Bucket : string)
    (Prefix KeyMarker UploadIdMarker : option string)
    (MaxUploads : option Z)
| ListPartsCommand (Bucket Key UploadId : string)
    (PartNumberMarker : option string) (MaxParts : option Z)
| ListBucketsCommand
| CreateBucketCommand (Bucket : string)
| DeleteBucketCommand (Bucket : string)
| HeadBucketCommand (Bucket : string)
| GetBucketCorsCommand (Bucket : string)
| PutBucketCorsCommand (Bucket : string) (CORSRules : list CORSRule)
| GetBucketLifecycleConfigurationCommand (Bucket : string)
| PutBucketLifecycleConfigurationCommand (Bucket : string)
    (Rules : list LifecycleRule)
| GetBucketLocationCommand (Bucket : string)
| GetBucketEncryptionCommand (Bucket : string)
| PutBucketEncryptionCommand (Bucket : string) (SSEAlgorithm : string).

(** The fields of a command output that the sources read. *)
Record response : Type :=
  { rUploadId : option string;
    rETag : option string;
    rVersionId : option string;
    rContents : option (list (option string));   (* the Key of each object *)
    rNextContinuationToken : option string;
    rUploads : option (list (option string * option string)) }.
                                                  (* Key and UploadId *)

(** ** The process state *)


(** An [S3Client] object; [instance] is the identity of the object, the
    number of clients constructed before it. *)
Record S3Client : Type :=
  { instance : nat;
    clientRegion : string;
    endpoint : string;
    credentials : string * string;
    forcePathStyle : bool }.

(** The progress bar drawn between the brackets: the number of filled and
    of unfilled cells. *)
Record bar : Type := { filled : nat; unfilled : nat }.

Inductive event : Type :=
| Send (client : S3Client) (cmd : command)   (* client.send(new XCommand(..)) *)
| LoadingStart (b : bar) (percent : Z)       (* loading.start(text) *)
| LoadingText (b : bar) (percent : Z)        (* loading.text = text *)
| LoadingSucceed
| LoadingFail
| StdoutWrite (b : bar)                      (* process.stdout.write(bar) *)
| StdoutClear
| ConsoleLog
| ConsoleError (e : error)
| Input.                                     (* await input({message}) *)

Record world : Type :=
  { defaultR2Client : option S3Client;   (* let defaultR2Client = null *)
    constructed : nat;                   (* S3Client objects built so far *)
    log : list event }.                  (* what the process did, in order *)

Definition with_log (w : world) (l : list event) : world :=
  {| defaultR2Client := defaultR2Client w;
     constructed := constructed w;
     log := l |}.

(** ** Computations: state, exceptions, and fuel for the loop.
    [None] only ever means that the fuel given to a loop ran out. *)

Definition M (A : Type) : Type := world -> option (outcome A * world).

Definition ret {A} (a : A) : M A := fun w => Some (Ok a, w).

Definition throw {A} (e : error) : M A := fun w => Some (Throw e, w).

Definition out_of_fuel {A} : M A := fun _ => None.

Definition bind {A B} (m : M A) (k : A -> M B) : M B :=
  fun w =>
    match m w with
    | None => None
    | Some (Throw e, w') => Some (Throw e, w')
    | Some (Ok a, w') => k a w'
    end.

Definition try_catch {A} (body : M A) (handler : error -> M A) : M A :=
  fun w =>
    match body w with
    | None => None
    | Some (Throw e, w') => handler e w'
    | Some (Ok a, w') => Some (Ok a, w')
    end.

Definition lift {A} (o : outcome A) : M A := fun w => Some (o, w).

Definition emit (e : event) : M unit :=
  fun w => Some (Ok tt, with_log w (log w ++ [e])).

Notation "x <- m ;; k" := (bind m (fun x => k))
  (at level 61, m at next level, right associativity).
Notation "m ;;; k" := (bind m (fun _ => k))
  (at level 61, right associativity).

(** ** config.ts *)





Definition not_initialized : string :=
  "R2 client not initialized. Call initR2Client() first.".

Definition getR2Client : M S3Client :=
  fun w =>
    match defaultR2Client w with
    | None => Some (Throw (Error not_initialized), w)
    | Some client => Some (Ok client, w)
    end.

(** ** upload.ts *)

Section Upload.

(** The remote store as seen through [client.send]: what it answers to a
    command.  Within one upload every command sent is different from the
    ones before it, so a function of the command describes any store
    there; what is proved of the client singleton does not depend on the
    answers. *)
Variable remote : command -> outcome response.

Definition send (client : S3Client) (cmd : command) : M response :=
  emit (Send client cmd) ;;; lift (remote cmd).

Record putOptions : Type :=
  { contentType : option string; metadata : option Metadata }.

Definition opt_contentType (o : option putOptions) : option string :=
  match o with Some o => contentType o | None => None end.

Definition opt_metadata (o : option putOptions) : option Metadata :=
  match o with Some o => metadata o | None => None end.

Definition putObject (bucketName key : string) (body : chunk)
    (options : option putOptions) : M response :=
  client <- getR2Client ;;
  let command :=
    PutObjectCommand bucketName key body
      (opt_contentType options) (opt_metadata options) in
  send client command.

Definition createMultipartUpload (bucketName key : string)
    (options : option putOptions) : M response :=
  client <- getR2Client ;;
  let command :=
    CreateMultipartUploadCommand bucketName key
      (opt_contentType options) (opt_metadata options) in
  send client command.

Definition uploadPart (bucketName key uploadId : string) (partNumber : Z)
    (body : chunk) : M response :=
  client <- getR2Client ;;
  let command := UploadPartCommand bucketName key uploadId partNumber body in
  send client command.


Definition completeMultipartUpload (bucketName key uploadId : string)
    (parts : list PartRecord) : M response :=
  client <- getR2Client ;;
  let command :=
    CompleteMultipartUploadCommand bucketName key uploadId parts in
  send client command.

Definition abortMultipartUpload (bucketName key uploadId : string)
    : M response :=
  client <- getR2Client ;;
  let command := AbortMultipartUploadCommand bucketName key uploadId in
  send client command.


End Upload.

(** ** download.ts, file-management.ts, bucket.ts, bucket-config.ts

    An [options?: {..}] argument is given as one optional argument per
    field: [options?.prefix] is undefined when [options] is. *)

Section Operations.

Variable remote : command -> outcome response.




Definition listObjectsV2 (bucketName : string)
    (prefix delimiter continuationToken : option string)
    (maxKeys : option Z) (startAfter : option string) : M response :=
  client <- getR2Client ;;
  let command :=
    ListObjectsV2Command bucketName prefix delimiter continuationToken
      maxKeys startAfter in
  send remote client command.

(** [do { .. } while (continuationToken)]: the first pass needs no fuel,
    each further pass takes one unit. *)
Fixpoint listAllObjects_from (fuel : nat) (bucketName : string)
    (prefix delimiter : option string) (allObjects : list (option string))
    (continuationToken : option string) : M (list (option string)) :=
  response <- listObjectsV2 bucketName prefix delimiter continuationToken
                None None ;;
  let allObjects :=
    match rContents response with
    | Some contents => allObjects ++ contents
    | None => allObjects
    end in
  let continuationToken := rNextContinuationToken response in
  match continuationToken with
  | None | Some EmptyString => ret allObjects
  | Some _ =>
      match fuel with
      | O => out_of_fuel
      | S fuel' =>
          listAllObjects_from fuel' bucketName prefix delimiter allObjects
            continuationToken
      end
  end.

Definition listAllObjects (fuel : nat) (bucketName : string)
    (prefix delimiter : option string) : M (list (option string)) :=
  listAllObjects_from fuel bucketName prefix delimiter [] None.

Definition deleteObject (bucketName key : string) : M response :=
  client <- getR2Client ;;
  let command := DeleteObjectCommand bucketName key in
  send remote client command.

Definition deleteObjects (bucketName : string) (keys : list string)
    : M response :=
  client <- getR2Client ;;
  let command := DeleteObjectsCommand bucketName keys false in
  send remote client command.

Definition listMultipartUploads (bucketName : string)
    (prefix keyMarker uploadIdMarker : option string)
    (maxUploads : option Z) : M response :=
  client <- getR2Client ;;
  let command :=
    ListMultipartUploadsCommand bucketName prefix keyMarker uploadIdMarker
      maxUploads in
  send remote client command.


(** [for (const upload of uploadsResponse.Uploads) { .. }]. *)
Fixpoint abortEach (bucketName : string)
    (uploads : list (option string * option string))
    (results : list (string * string)) : M (list (string * string)) :=
  match uploads with
  | [] => ret results
  | (Some (String a k), Some (String b u)) :: rest =>
      abortMultipartUpload remote bucketName (String a k) (String b u) ;;;
      abortEach bucketName rest (results ++ [(String a k, String b u)])
  | _ :: rest => abortEach bucketName rest results
  end.

Definition cleanupMultipartUploads (bucketName : string)
    : M (list (string * string)) :=
  uploadsResponse <- listMultipartUploads bucketName None None None None ;;
  match rUploads uploadsResponse with
  | Some uploads => abortEach bucketName uploads []
  | None => ret []
  end.



Definition deleteBucket (bucketName : string) : M response :=
  client <- getR2Client ;;
  let command := DeleteBucketCommand bucketName in
  send remote client command.

Definition headBucket (bucketName : string) : M bool :=
  client <- getR2Client ;;
  let command := HeadBucketCommand bucketName in
  try_catch
    (send remote client command ;;; ret true)
    (fun error =>
       if String.eqb (errorName error) "NoSuchBucket"
          || is404 (errorStatusCode error)
       then ret false
       else throw error).

(** [for (let i = 0; i < keys.length; i += batchSize) { .. }]. *)
Fixpoint deleteBatches (fuel : nat) (bucketName : string)
    (keys : list string) (i : nat) : M unit :=
  if (i <? List.length keys)%nat then
    match fuel with
    | O => out_of_fuel
    | S fuel' =>
        let batch := firstn 1000 (skipn i keys) in
        deleteObjects bucketName batch ;;;
        deleteBatches fuel' bucketName keys (i + 1000)%nat
    end
  else ret tt.

Definition definedKeys (contents : list (option string)) : list string :=
  flat_map (fun key => match key with Some k => [k] | None => [] end)
    contents.

Definition deleteBucketAndCleanup (fuel : nat) (bucketName : string)
    : M response :=
  objects <- listObjectsV2 bucketName None None None None None ;;
  match rContents objects with
  | Some (o :: contents) =>
      deleteBatches fuel bucketName (definedKeys (o :: contents)) 0
  | _ => ret tt
  end ;;;
  deleteBucket bucketName.









End Operations.

(** ** The multipart upload of the command-line tool and of the example
       script *)

Record uploadOptions : Type :=
  { chunkSize : option Z; customFileName : option string }.

(** [option?.chunkSize] and [option?.customFileName]. *)
Definition opt_chunkSize (option_ : option uploadOptions) : option Z :=
  match option_ with Some o => chunkSize o | None => None end.

Definition opt_customFileName (option_ : option uploadOptions)
    : option string :=
  match option_ with Some o => customFileName o | None => None end.

(** [getFileName]: what follows the last slash or backslash. *)
Definition getFileName (path : string) : string :=
  let lastIndex :=
    Z.max (JS.lastIndexOf path "/"%char) (JS.lastIndexOf path "\"%char) in
  JS.substring path (lastIndex + 1).

(** [partNumber / (totalSize / chunkSize)], the fraction both progress
    displays are computed from. *)
Definition fraction (partNumber totalSize chunkSize : Z) : Q :=
  JS.div (inject_Z partNumber)
         (JS.div (inject_Z totalSize) (inject_Z chunkSize)).

(** [Math.floor(partNumber / (totalSize / chunkSize) * 50)]. *)
Definition barCells (partNumber totalSize chunkSize : Z) : Z :=
  JS.floor (fraction partNumber totalSize chunkSize * inject_Z 50)%Q.

(** [(partNumber / (totalSize / chunkSize) * 100).toFixed(0)]. *)
Definition percentComplete (partNumber totalSize chunkSize : Z) : Z :=
  JS.toFixed0 (fraction partNumber totalSize chunkSize * inject_Z 100)%Q.

(** The bar of both displays: [c1.repeat(cells) + c2.repeat(50 - cells)]. *)
Definition drawBar (partNumber totalSize chunkSize : Z) : M bar :=
  hashes <- lift (JS.repeat (barCells partNumber totalSize chunkSize)) ;;
  rest <- lift (JS.repeat (50 - barCells partNumber totalSize chunkSize)) ;;
  ret {| filled := hashes; unfilled := rest |}.

Section PartLoop.

Variable remote : command -> outcome response.
Variables bucket fileName UploadId : string.
Variables totalSize chunkSize : Z.
(** The display refreshed after each part. *)
Variable progress : Z -> M unit.

(** [for (let i = 0; i < totalSize / chunkSize; i++) { .. }], entered at
    index [i] with the records pushed so far. *)
Fixpoint uploadParts (fuel : nat) (i : Z) (parts : list PartRecord)
    : M (list PartRecord) :=
  if JS.ltb (inject_Z i) (JS.div (inject_Z totalSize) (inject_Z chunkSize))
  then
    match fuel with
    | O => out_of_fuel
    | S fuel' =>
        let chunk :=
          slice totalSize (i * chunkSize)
            (if (i + 1) * chunkSize >? totalSize
             then totalSize else (i + 1) * chunkSize) in
        let partNumber := i + 1 in
        r <- uploadPart remote bucket fileName UploadId partNumber chunk ;;
        let parts :=
          parts ++ [ {| PartNumber := partNumber; ETag := rETag r |} ] in
        progress partNumber ;;;
        uploadParts fuel' (i + 1) parts
    end
  else ret parts.

End PartLoop.

Section Files.

(** The file system: the byte length of the file at a path, when it can
    be read. *)
Variable fileSize : string -> option N.

(** [new File([await Bun.file(filePath).bytes()], name)]: the size of
    the file; reading a file that is not there throws. *)
Definition readFile (filePath : string) : M Z :=
  match fileSize filePath with
  | Some n => ret (Z.of_N n)
  | None => throw (Error "ENOENT")
  end.

End Files.

Definition octetStream : option putOptions :=
  Some {| contentType := Some "application/octet-stream"; metadata := None |}.

(** The interactive command-line tool. *)
Module Cli.
Section Run.

Variable remote : command -> outcome response.
Variable fileSize : string -> option N.

Definition defaultChunkSize : Z := 50 * 1024 * 1024.

(** [const chunkSize = option?.chunkSize || 50 * 1024 * 1024]. *)
Definition effectiveChunkSize (option_ : option uploadOptions) : Z :=
  JS.or_number (opt_chunkSize option_) defaultChunkSize.

(** The right-hand side of [loading.text = ..]. *)
Definition progress (totalSize chunkSize partNumber : Z) : M unit :=
  b <- drawBar partNumber totalSize chunkSize ;;
  emit (LoadingText b (percentComplete partNumber totalSize chunkSize)).

Definition multipartUpload (fuel : nat) (bucket filePath : string)
    (option_ : option uploadOptions) : M unit :=
  size <- readFile fileSize filePath ;;
  let fileName :=
    JS.or_string (opt_customFileName option_) (getFileName filePath) in
  let totalSize := size in
  let chunkSize := effectiveChunkSize option_ in
  try_catch
    (created <- createMultipartUpload remote bucket fileName octetStream ;;
     match rUploadId created with
     | None | Some EmptyString => throw (Error "no upload id")
     | Some UploadId =>
         emit (LoadingStart {| filled := 0; unfilled := 50 |} 0) ;;;
         parts <- uploadParts remote bucket fileName UploadId
                    totalSize chunkSize (progress totalSize chunkSize)
                    fuel 0 [] ;;
         result <- completeMultipartUpload remote bucket fileName
                     UploadId parts ;;
         emit ConsoleLog ;;;
         emit LoadingSucceed ;;;
         emit Input
     end)
    (fun error => emit LoadingFail ;;; emit Input).

End Run.
End Cli.

(** The example script shipped with the library. *)
Module Example.
Section Run.

Variable remote : command -> outcome response.
Variable fileSize : string -> option N.

Definition defaultChunkSize : Z := 5 * 1024 * 1024.

(** [const chunkSize = option?.chunkSize || 5 * 1024 * 1024]. *)
Definition effectiveChunkSize (option_ : option uploadOptions) : Z :=
  JS.or_number (opt_chunkSize option_) defaultChunkSize.

(** The argument of [process.stdout.write]. *)
Definition progress (totalSize chunkSize partNumber : Z) : M unit :=
  b <- drawBar partNumber totalSize chunkSize ;;
  emit (StdoutWrite b).

Definition multipartUpload (fuel : nat) (bucket filePath : string)
    (option_ : option uploadOptions) : M unit :=
  size <- readFile fileSize filePath ;;
  let fileName :=
    JS.or_string (opt_customFileName option_) (getFileName filePath) in
  emit ConsoleLog ;;;
  let totalSize := size in
  let chunkSize := effectiveChunkSize option_ in
  try_catch
    (created <- createMultipartUpload remote bucket fileName octetStream ;;
     emit ConsoleLog ;;;
     match rUploadId created with
     | None | Some EmptyString => throw (Error "no upload id")
     | Some UploadId =>
         parts <- uploadParts remote bucket fileName UploadId
                    totalSize chunkSize (progress totalSize chunkSize)
                    fuel 0 [] ;;
         result <- completeMultipartUpload remote bucket fileName
                     UploadId parts ;;
         emit StdoutClear ;;;
         emit ConsoleLog
     end)
    (fun error => emit (ConsoleError error)).

End Run.
End Example.

(** ** Numbers, prompts, and the upload for every chunk size

    [Cli.multipartUpload] above is the upload of the command-line tool for
    a chunk size option that is an integer and a user who answers every
    prompt.  [Tool.multipartUpload] below is the same function for every
    number and every outcome of the prompts; the two agree where the first
    applies ([Tool_is_Cli]). *)

(** A JavaScript number: a finite value, an infinity or NaN.  Finite values
    are taken exactly, as rationals, and a result whose magnitude reaches
    2^1024 - 2^970 is an infinity, as it is for a double.  The rounding of
    finite results and the sign of zero are left out. *)
Module Number.

Inductive number : Type :=
| Finite (q : Q)
| PosInfinity
| NegInfinity
| NaN.

(** The least magnitude that rounds to an infinity. *)
Definition overflow : Q := inject_Z (2 ^ 1024 - 2 ^ 970).

Definition round (q : Q) : number :=
  if Qle_bool overflow q then PosInfinity
  else if Qle_bool q (- overflow) then NegInfinity
  else Finite q.

(** An integer of the program: a size, an index, a literal. *)
Definition ofZ (z : Z) : number := Finite (inject_Z z).


(** [x / y]. *)
Definition div (x y : number) : number :=
  match x, y with
  | Finite a, Finite b =>
      match (b ?= 0)%Q with
      | Eq =>
          match (a ?= 0)%Q with
          | Eq => NaN
          | Gt => PosInfinity
          | Lt => NegInfinity
          end
      | _ => round (JS.div a b)
      end
  | Finite _, PosInfinity | Finite _, NegInfinity => Finite 0
  | PosInfinity, Finite b =>
      match (b ?= 0)%Q with Lt => NegInfinity | _ => PosInfinity end
  | NegInfinity, Finite b =>
      match (b ?= 0)%Q with Lt => PosInfinity | _ => NegInfinity end
  | _, _ => NaN
  end.

(** [x * y]. *)
Definition mul (x y : number) : number :=
  match x, y with
  | Finite a, Finite b => round (a * b)
  | Finite a, PosInfinity | PosInfinity, Finite a =>
      match (a ?= 0)%Q with
      | Eq => NaN
      | Gt => PosInfinity
      | Lt => NegInfinity
      end
  | Finite a, NegInfinity | NegInfinity, Finite a =>
      match (a ?= 0)%Q with
      | Eq => NaN
      | Gt => NegInfinity
      | Lt => PosInfinity
      end
  | PosInfinity, PosInfinity | NegInfinity, NegInfinity => PosInfinity
  | PosInfinity, NegInfinity | NegInfinity, PosInfinity => NegInfinity
  | _, _ => NaN
  end.

(** [x - y]. *)
Definition sub (x y : number) : number :=
  match x, y with
  | Finite a, Finite b => round (a - b)
  | Finite _, PosInfinity => NegInfinity
  | Finite _, NegInfinity => PosInfinity
  | PosInfinity, Finite _ | PosInfinity, NegInfinity => PosInfinity
  | NegInfinity, Finite _ | NegInfinity, PosInfinity => NegInfinity
  | _, _ => NaN
  end.

(** [x < y] and [x > y]: false when either side is NaN. *)
Definition ltb (x y : number) : bool :=
  match x, y with
  | Finite a, Finite b => JS.ltb a b
  | Finite _, PosInfinity => true
  | NegInfinity, Finite _ | NegInfinity, PosInfinity => true
  | _, _ => false
  end.

Definition gtb (x y : number) : bool := ltb y x.

(** [Math.floor]. *)
Definition floor (x : number) : number :=
  match x with
  | Finite q => Finite (inject_Z (JS.floor q))
  | _ => x
  end.

(** The integer part of a finite value, towards zero. *)
Definition truncate (q : Q) : Z :=
  if Qle_bool 0 q then Qfloor q else Qceiling q.

(** [s.repeat(count)]: the count goes through ToIntegerOrInfinity (NaN is
    0); a negative or an infinite count throws a RangeError. *)
Definition repeat (count : number) : outcome nat :=
  match count with
  | Finite q => JS.repeat (truncate q)
  | NaN => JS.repeat 0
  | PosInfinity | NegInfinity => Throw RangeError
  end.

(** Index clamping of [TypedArray.prototype.slice]: the index goes through
    ToIntegerOrInfinity. *)
Definition relativeIndex (len : Z) (k : number) : Z :=
  match k with
  | Finite q => JS.relativeIndex len (truncate q)
  | NaN => JS.relativeIndex len 0
  | PosInfinity => len
  | NegInfinity => 0
  end.

(** [buf.slice(start, end)] on a buffer of [len] bytes. *)
Definition slice (len : Z) (start end_ : number) : chunk :=
  let from := relativeIndex len start in
  let final := relativeIndex len end_ in
  {| chunk_start := from; chunk_end := from + Z.max (final - from) 0 |}.

(** [x.toFixed(0)] read back as an integer: the nearest integer, the one
    away from zero on a tie.  NaN and the infinities print as words and are
    read back as 0; the upload only prints a percentage after its bar was
    drawn, and [repeat] draws no bar of infinitely many cells. *)
Definition toFixed0 (x : number) : Z :=
  match x with
  | Finite q => if Qle_bool 0 q then JS.toFixed0 q else - JS.toFixed0 (- q)
  | _ => 0
  end.

(** Truthiness: 0 and NaN are falsy. *)
Definition truthy (x : number) : bool :=
  match x with
  | Finite q => negb (Qeq_bool q 0)
  | NaN => false
  | PosInfinity | NegInfinity => true
  end.

(** [v || d] for an optional number. *)
Definition or_number (v : option number) (d : number) : number :=
  match v with
  | Some x => if truthy x then x else d
  | None => d
  end.

(** [i + 1] and [i++] for a counter [i] that started at 0: exact below
    2^53; at 2^53 the sum rounds back to 2^53. *)
Definition succ (i : Z) : Z := if i <? 2 ^ 53 then i + 1 else i.

(** [x <= 2^53]: the bounds a counter that started at 0 can reach. *)
Definition countable (x : number) : bool :=
  match x with
  | Finite q => Qle_bool q (inject_Z (2 ^ 53))
  | NegInfinity => true
  | PosInfinity | NaN => false
  end.

End Number.

(** The [Input] events of a log: the prompts shown so far. *)
Definition prompts (l : list event) : nat :=
  List.length
    (filter (fun e => match e with Input => true | _ => false end) l).

(** [await input({ message })]: the prompt is shown; it resolves when the
    user presses Enter and rejects, with an ExitPromptError, when the user
    presses Ctrl+C.  [ask n] is the outcome of the prompt shown after [n]
    earlier ones. *)
Definition input (ask : nat -> outcome unit) : M unit :=
  fun w => Some (ask (prompts (log w)), with_log w (log w ++ [Input])).

(** The user answers every prompt. *)
Definition pressEnter : nat -> outcome unit := fun _ => Ok tt.

(** The user leaves every prompt with Ctrl+C. *)
Definition exitPrompt : error := ServiceError "ExitPromptError" None.

Definition pressCtrlC : nat -> outcome unit := fun _ => Throw exitPrompt.

(** [option.chunkSize] and [option.customFileName] of the integer
    options. *)
Definition integerChunkSize (o : uploadOptions) : option Z := chunkSize o.

Definition integerFileName (o : uploadOptions) : option string :=
  customFileName o.

Module Tool.

(** [option?: { chunkSize?: number, customFileName?: string }]. *)
Record options : Type :=
  { chunkSize : option Number.number; customFileName : option string }.

Definition opt_chunkSize (option_ : option options)
    : option Number.number :=
  match option_ with Some o => chunkSize o | None => None end.

Definition opt_customFileName (option_ : option options) : option string :=
  match option_ with Some o => customFileName o | None => None end.

Definition defaultChunkSize : Number.number :=
  Number.ofZ (50 * 1024 * 1024).

(** [const chunkSize = option?.chunkSize || 50 * 1024 * 1024]. *)
Definition effectiveChunkSize (option_ : option options) : Number.number :=
  Number.or_number (opt_chunkSize option_) defaultChunkSize.

(** [totalSize / chunkSize], the bound of the loop. *)
Definition bound (totalSize : Z) (chunkSize : Number.number)
    : Number.number :=
  Number.div (Number.ofZ totalSize) chunkSize.

(** [partNumber / (totalSize / chunkSize)]. *)
Definition fraction (partNumber totalSize : Z) (chunkSize : Number.number)
    : Number.number :=
  Number.div (Number.ofZ partNumber)
    (Number.div (Number.ofZ totalSize) chunkSize).

(** [Math.floor(partNumber / (totalSize / chunkSize) * 50)]. *)
Definition barCells (partNumber totalSize : Z) (chunkSize : Number.number)
    : Number.number :=
  Number.floor
    (Number.mul (fraction partNumber totalSize chunkSize) (Number.ofZ 50)).

(** [(partNumber / (totalSize / chunkSize) * 100).toFixed(0)]. *)
Definition percentComplete (partNumber totalSize : Z)
    (chunkSize : Number.number) : Z :=
  Number.toFixed0
    (Number.mul (fraction partNumber totalSize chunkSize) (Number.ofZ 100)).

(** ["#".repeat(cells) + " ".repeat(50 - cells)]. *)
Definition drawBar (partNumber totalSize : Z) (chunkSize : Number.number)
    : M bar :=
  hashes <- lift (Number.repeat (barCells partNumber totalSize chunkSize)) ;;
  rest <- lift (Number.repeat
                  (Number.sub (Number.ofZ 50)
                     (barCells partNumber totalSize chunkSize))) ;;
  ret {| filled := hashes; unfilled := rest |}.

(** The right-hand side of [loading.text = ..]. *)
Definition progress (totalSize : Z) (chunkSize : Number.number)
    (partNumber : Z) : M unit :=
  b <- drawBar partNumber totalSize chunkSize ;;
  emit (LoadingText b (percentComplete partNumber totalSize chunkSize)).

(** The body cut in the pass of index [i]:
    [fileBuff.slice(i * chunkSize,
       (i + 1) * chunkSize > totalSize ? totalSize : (i + 1) * chunkSize)]. *)
Definition partBody (totalSize : Z) (chunkSize : Number.number) (i : Z)
    : chunk :=
  Number.slice totalSize (Number.mul (Number.ofZ i) chunkSize)
    (if Number.gtb (Number.mul (Number.ofZ (Number.succ i)) chunkSize)
          (Number.ofZ totalSize)
     then Number.ofZ totalSize
     else Number.mul (Number.ofZ (Number.succ i)) chunkSize).

Section Run.

Variable remote : command -> outcome response.
(** The outcome of each prompt. *)
Variable ask : nat -> outcome unit.
Variable fileSize : string -> option N.

(** [for (let i = 0; i < totalSize / chunkSize; i++) { .. }], entered at
    index [i] with the records pushed so far. *)
Fixpoint partLoop (bucket fileName UploadId : string) (totalSize : Z)
    (chunkSize : Number.number) (fuel : nat) (i : Z)
    (parts : list PartRecord) : M (list PartRecord) :=
  if Number.ltb (Number.ofZ i) (Number.div (Number.ofZ totalSize) chunkSize)
  then
    match fuel with
    | O => out_of_fuel
    | S fuel' =>
        let chunk := partBody totalSize chunkSize i in
        let partNumber := Number.succ i in
        r <- uploadPart remote bucket fileName UploadId partNumber chunk ;;
        let parts :=
          parts ++ [ {| PartNumber := partNumber; ETag := rETag r |} ] in
        progress totalSize chunkSize partNumber ;;;
        partLoop bucket fileName UploadId totalSize chunkSize fuel'
          (Number.succ i) parts
    end
  else ret parts.

(** The statements of the try block of [multipartUpload] before its last
    one, the prompt. *)
Definition attempt (fuel : nat) (bucket fileName : string) (totalSize : Z)
    (chunkSize : Number.number) : M unit :=
  created <- createMultipartUpload remote bucket fileName octetStream ;;
  match rUploadId created with
  | None | Some EmptyString => throw (Error "no upload id")
  | Some UploadId =>
      emit (LoadingStart {| filled := 0; unfilled := 50 |} 0) ;;;
      parts <- partLoop bucket fileName UploadId totalSize chunkSize
                 fuel 0 [] ;;
      result <- completeMultipartUpload remote bucket fileName
                  UploadId parts ;;
      emit ConsoleLog ;;;
      emit LoadingSucceed
  end.

Definition multipartUpload (fuel : nat) (bucket filePath : string)
    (option_ : option options) : M unit :=
  size <- readFile fileSize filePath ;;
  let fileName :=
    JS.or_string (opt_customFileName option_) (getFileName filePath) in
  let totalSize := size in
  let chunkSize := effectiveChunkSize option_ in
  try_catch
    (created <- createMultipartUpload remote bucket fileName octetStream ;;
     match rUploadId created with
     | None | Some EmptyString => throw (Error "no upload id")
     | Some UploadId =>
         emit (LoadingStart {| filled := 0; unfilled := 50 |} 0) ;;;
         parts <- partLoop bucket fileName UploadId totalSize chunkSize
                    fuel 0 [] ;;
         result <- completeMultipartUpload remote bucket fileName
                     UploadId parts ;;
         emit ConsoleLog ;;;
         emit LoadingSucceed ;;;
         input ask
     end)
    (fun error => emit LoadingFail ;;; input ask).

End Run.

(** The options of [Cli.multipartUpload] as options of this one. *)
Definition ofIntegers (option_ : option uploadOptions) : option options :=
  match option_ with
  | Some o =>
      Some {| chunkSize :=
                match integerChunkSize o with
                | Some n => Some (Number.ofZ n)
                | None => None
                end;
              customFileName := integerFileName o |}
  | None => None
  end.

(** [{ chunkSize: x }]. *)
Definition withChunkSize (x : Number.number) : option options :=
  Some {| chunkSize := Some x; customFileName := None |}.

End Tool.

(** ** Reading a log *)

(** The commands sent, in order. *)
Definition sent (l : list event) : list command :=
  flat_map (fun e => match e with Send _ c => [c] | _ => [] end) l.

(** The (part number, body) pairs of the [UploadPartCommand]s sent. *)
Definition uploadedParts (l : list event) : list (Z * chunk) :=
  flat_map (fun c => match c with
                     | UploadPartCommand _ _ _ n b => [(n, b)]
                     | _ => []
                     end) (sent l).

(** The part lists of the [CompleteMultipartUploadCommand]s sent. *)
Definition completions (l : list event) : list (list PartRecord) :=
  flat_map (fun c => match c with
                     | CompleteMultipartUploadCommand _ _ _ ps => [ps]
                     | _ => []
                     end) (sent l).

(** The [AbortMultipartUploadCommand]s sent. *)
Definition aborts (l : list event) : list command :=
  filter (fun c => match c with
                   | AbortMultipartUploadCommand _ _ _ => true
                   | _ => false
                   end) (sent l).

(** The percentages shown by [loading.text], in order. *)
Definition percentages (l : list event) : list Z :=
  flat_map (fun e => match e with LoadingText _ p => [p] | _ => [] end) l.

(** ** What a run is expected to log *)

(** The events of [w'] that came after those of [w]. *)
Definition added (w w' : world) : list event :=
  skipn (List.length (log w)) (log w').

(** The integers [a, a+1, .., a+k-1]. *)
Definition zrange (a : Z) (k : nat) : list Z :=
  map (fun n => a + Z.of_nat n) (seq 0 k).

(** The byte range of part [partNumber]. *)
Definition partRange (totalSize chunkSize partNumber : Z) : chunk :=
  {| chunk_start := (partNumber - 1) * chunkSize;
     chunk_end := Z.min (partNumber * chunkSize) totalSize |}.

(** The number of parts, [ceil(totalSize / chunkSize)]. *)
Definition partCount (totalSize chunkSize : Z) : Z :=
  Qceiling (inject_Z totalSize / inject_Z chunkSize).

Definition etagOf (o : outcome response) : option string :=
  match o with Ok r => rETag r | Throw _ => None end.

(** The bar drawn for a part when both [repeat] calls succeed. *)
Definition barOf (partNumber totalSize chunkSize : Z) : bar :=
  {| filled := Z.to_nat (barCells partNumber totalSize chunkSize);
     unfilled := Z.to_nat (50 - barCells partNumber totalSize chunkSize) |}.

Section Expected.

Variable remote : command -> outcome response.
Variables bucket fileName UploadId : string.
Variables t c : Z.
Variable client : S3Client.
(** What the display adds to the log after part [j]. *)
Variable shown : Z -> list event.

Definition partCommand (j : Z) : command :=
  UploadPartCommand bucket fileName UploadId j (partRange t c j).

Definition partRecord (j : Z) : PartRecord :=
  {| PartNumber := j; ETag := etagOf (remote (partCommand j)) |}.

Definition partEvents (j : Z) : list event :=
  Send client (partCommand j) :: shown j.

End Expected.

Definition createCommand (bucket fileName : string) : command :=
  CreateMultipartUploadCommand bucket fileName
    (Some "application/octet-stream") None.

Definition completeCommand (bucket fileName uid : string)
    (parts : list PartRecord) : command :=
  CompleteMultipartUploadCommand bucket fileName uid parts.

(** The name the file is uploaded under. *)
Definition uploadName (option_ : option uploadOptions) (filePath : string)
    : string :=
  JS.or_string (opt_customFileName option_) (getFileName filePath).

Module CliLog.

(** What [loading.text] shows after part [j]. *)
Definition shown (t c j : Z) : list event :=
  [LoadingText (barOf j t c) (percentComplete j t c)].

(** What the run logs before the loop. *)
Definition opening (client : S3Client) (bucket fileName : string)
    : list event :=
  [Send client (createCommand bucket fileName);
   LoadingStart {| filled := 0; unfilled := 50 |} 0].

(** What the run logs after the completion call. *)
Definition closing (answer : outcome response) : list event :=
  match answer with
  | Ok _ => [ConsoleLog; LoadingSucceed; Input]
  | Throw _ => [LoadingFail; Input]
  end.

End CliLog.

Module ExampleLog.

(** What [process.stdout.write] shows after part [j]. *)
Definition shown (t c j : Z) : list event := [StdoutWrite (barOf j t c)].

End ExampleLog.

(** The store accepts every part it is sent. *)
Definition acceptsParts (remote : command -> outcome response) : Prop :=
  forall bucket key uploadId partNumber body,
    exists r,
      remote (UploadPartCommand bucket key uploadId partNumber body) = Ok r.

(** Consecutive non-empty ranges from offset [lo] to offset [hi]: each
    range starts where the one before it ended. *)
Fixpoint tiles (lo hi : Z) (ranges : list chunk) : Prop :=
  match ranges with
  | [] => lo = hi
  | r :: rest =>
      chunk_start r = lo /\ lo < chunk_end r /\ tiles (chunk_end r) hi rest
  end.

Definition contains (b : Z) (r : chunk) : bool :=
  (chunk_start r <=? b) && (b <? chunk_end r).

(** The number of ranges that contain the byte at offset [b]. *)
Definition covering (b : Z) (ranges : list chunk) : nat :=
  List.length (filter (contains b) ranges).

Definition noChunk : chunk := {| chunk_start := 0; chunk_end := 0 |}.

(** The byte ranges of a file of [t] bytes cut with chunk size [c]: range
    number [k] (from 0) is [k*c, min((k+1)*c, t)); the ranges tile [0, t);
    every offset of the file lies in exactly one of them and no other
    offset in any; there are [ceil(t/c)] of them, one when [t = c]. *)
Definition rangesTile (t c : Z) (ranges : list chunk) : Prop :=
  (forall k, (k < List.length ranges)%nat ->
     nth k ranges noChunk
     = {| chunk_start := Z.of_nat k * c;
          chunk_end := Z.min ((Z.of_nat k + 1) * c) t |})
  /\ tiles 0 t ranges
  /\ (forall b, covering b ranges
                = if (0 <=? b) && (b <? t) then 1%nat else 0%nat)
  /\ Z.of_nat (List.length ranges) = Qceiling (inject_Z t / inject_Z c)
  /\ (t = c -> List.length ranges = 1%nat).

(** The body the loop cuts for part [n] with chunk size [c] out of a file
    of [t] bytes, whatever the sign of [c]. *)
Definition partBody (t c n : Z) : chunk :=
  slice t ((n - 1) * c) (if n * c >? t then t else n * c).

(** Part numbers that increase strictly from above [i], each with the body
    cut for it with the one chunk size [c]. *)
Fixpoint partsFrom (t c i : Z) (parts : list (Z * chunk)) : Prop :=
  match parts with
  | [] => True
  | (n, body) :: rest =>
      i < n /\ body = partBody t c n /\ partsFrom t c n rest
  end.

(** [m] only ever appends to the log, and what it appends satisfies [P]. *)
Definition logs {A} (P : list event -> Prop) (m : M A) : Prop :=
  forall w o w', m w = Some (o, w') ->
    exists evs, log w' = log w ++ evs /\ P evs.

(** Events that send nothing. *)
Definition silent (evs : list event) : Prop := sent evs = [].

(** What an upload may add to the log: no abort command, and parts with
    strictly increasing numbers, all cut with the chunk size [c]. *)
Definition uploadLog (t c i : Z) (evs : list event) : Prop :=
  aborts evs = [] /\ partsFrom t c i (uploadedParts evs).

(** A request wrapper sends its command at most once. *)
Definition sendsOnly (cmd : command) (evs : list event) : Prop :=
  evs = [] \/ exists client, evs = [Send client cmd].

(** Events that neither abort an upload nor upload a part. *)
Definition harmless (evs : list event) : Prop :=
  aborts evs = [] /\ uploadedParts evs = [].


(** The size of the file at a path, 0 when there is none. *)
Definition sizeAt (fileSize : string -> option N) (filePath : string) : Z :=
  match fileSize filePath with Some n => Z.of_N n | None => 0 end.

(** ** The storage operations as one type *)



Section Perform.

Variable remote : command -> outcome response.
Variable fuel : nat.



End Perform.




(** ** A concrete process, file system and store *)



Definition freshProcess : world :=
  {| defaultR2Client := None; constructed := 0; log := [] |}.

Definition demoClient : S3Client :=
  {| instance := 0;
     clientRegion := "auto";
     endpoint := "https://account.r2.cloudflarestorage.com";
     credentials := ("key-id", "secret");
     forcePathStyle := true |}.

(** The process after [initR2Client(demoConfig)]. *)
Definition readyProcess : world :=
  {| defaultR2Client := Some demoClient; constructed := 1; log := [] |}.

Definition demoResponse : response :=
  {| rUploadId := Some "upload-1";
     rETag := Some "etag";
     rVersionId := Some "v1";
     rContents := None;
     rNextContinuationToken := None;
     rUploads := None |}.

(** A store that accepts every command. *)
Definition acceptAll : command -> outcome response :=
  fun _ => Ok demoResponse.

(** A store that rejects part [k] and accepts every other command. *)
Definition rejectPart (k : Z) : command -> outcome response :=
  fun cmd =>
    match cmd with
    | UploadPartCommand _ _ _ n _ =>
        if n =? k then Throw (ServiceError "InternalError" (Some 500))
        else Ok demoResponse
    | _ => Ok demoResponse
    end.

(** A file system in which every path holds a file of [size] bytes. *)
Definition oneFile (size : N) : string -> option N := fun _ => Some size.

Definition withChunkSize (n : Z) : option uploadOptions :=
  Some {| chunkSize := Some n; customFileName := None |}.

(** ** File names *)

Definition isSeparator (a : ascii) : bool :=
  Ascii.eqb a "/"%char || Ascii.eqb a "\"%char.

(** No character of [s] is a slash or a backslash. *)
Fixpoint plainName (s : string) : Prop :=
  match s with
  | EmptyString => True
  | String a rest => isSeparator a = false /\ plainName rest
  end.

Definition zlength (s : string) : Z := Z.of_nat (String.length s).



(** ** Pages, uploads and batches *)

(** The request for the page after [token]. *)
Definition pageCommand (bucketName : string) (prefix delimiter : option string)
    (token : option string) : command :=
  ListObjectsV2Command bucketName prefix delimiter token None None.

(** A page with no token for a next one. *)
Definition lastPage (r : response) : Prop :=
  rNextContinuationToken r = None \/ rNextContinuationToken r = Some "".

Definition contentsOf (r : response) : list (option string) :=
  match rContents r with Some contents => contents | None => [] end.

(** The store answers the request after [token] with the first of
    [pages], the request after that page's token with the second, and so
    on; only the last page has no token. *)
Fixpoint paged (remote : command -> outcome response) (bucketName : string)
    (prefix delimiter : option string) (token : option string)
    (pages : list response) : Prop :=
  match pages with
  | [] => False
  | r :: rest =>
      remote (pageCommand bucketName prefix delimiter token) = Ok r
      /\ match rest with
         | [] => lastPage r
         | _ :: _ =>
             ~ lastPage r
             /\ paged remote bucketName prefix delimiter
                  (rNextContinuationToken r) rest
         end
  end.

(** The tokens the pages are asked with. *)
Fixpoint pageTokens (token : option string) (pages : list response)
    : list (option string) :=
  match pages with
  | [] => []
  | r :: rest => token :: pageTokens (rNextContinuationToken r) rest
  end.

(** The uploads that have a non-empty Key and a non-empty UploadId. *)
Definition abortable (uploads : list (option string * option string))
    : list (string * string) :=
  flat_map (fun upload =>
              match upload with
              | (Some (String a k), Some (String b u)) =>
                  [(String a k, String b u)]
              | _ => []
              end) uploads.

Definition abortCommand (bucketName : string) (upload : string * string)
    : command :=
  AbortMultipartUploadCommand bucketName (fst upload) (snd upload).

Definition listUploadsCommand (bucketName : string) : command :=
  ListMultipartUploadsCommand bucketName None None None None.

(** The key lists of the [DeleteObjectsCommand]s for [keys], from index
    [i] on, at most [count] of them. *)
Fixpoint batchesFrom (count : nat) (keys : list string) (i : nat)
    : list (list string) :=
  match count with
  | O => []
  | S count' =>
      if (i <? List.length keys)%nat
      then firstn 1000 (skipn i keys)
           :: batchesFrom count' keys (i + 1000)%nat
      else []
  end.

Definition batches (keys : list string) : list (list string) :=
  batchesFrom (List.length keys) keys 0.

Definition listAllCommand (bucketName : string) : command :=
  ListObjectsV2Command bucketName None None None None None.


(** Two pages of a listing: the first with token "page-2". *)
Definition firstPage : response :=
  {| rUploadId := None; rETag := None; rVersionId := None;
     rContents := Some [Some "a.txt"; Some "b.txt"];
     rNextContinuationToken := Some "page-2";
     rUploads := None |}.

Definition secondPage : response :=
  {| rUploadId := None; rETag := None; rVersionId := None;
     rContents := Some [Some "c.txt"];
     rNextContinuationToken := None;
     rUploads := None |}.

Definition twoPages : command -> outcome response :=
  fun cmd =>
    match cmd with
    | ListObjectsV2Command _ _ _ None _ _ => Ok firstPage
    | ListObjectsV2Command _ _ _ (Some _) _ _ => Ok secondPage
    | _ => Ok demoResponse
    end.

(** A listing of three uploads in progress, the second without a Key. *)
Definition threeUploads : response :=
  {| rUploadId := None; rETag := None; rVersionId := None;
     rContents := None;
     rNextContinuationToken := None;
     rUploads := Some [(Some "a.bin", Some "upload-a");
                       (None, Some "upload-x");
                       (Some "b.bin", Some "upload-b")] |}.

(** A store that lists [threeUploads] and rejects the aborts of the upload
    ids in [rejected]. *)
Definition uploadStore (rejected : list string) : command -> outcome response :=
  fun cmd =>
    match cmd with
    | ListMultipartUploadsCommand _ _ _ _ _ => Ok threeUploads
    | AbortMultipartUploadCommand _ _ u =>
        if existsb (String.eqb u) rejected
        then Throw (ServiceError "NoSuchUpload" (Some 404))
        else Ok demoResponse
    | _ => Ok demoResponse
    end.


(** A store whose every answer carries a token for a next page. *)
Definition endlessPage : response :=
  {| rUploadId := None; rETag := None; rVersionId := None;
     rContents := Some [Some "a.txt"];
     rNextContinuationToken := Some "next";
     rUploads := None |}.

Definition endlessStore : command -> outcome response :=
  fun _ => Ok endlessPage.

(** A store that lists three objects, the second without a Key. *)
Definition threeObjects : response :=
  {| rUploadId := None; rETag := None; rVersionId := None;
     rContents := Some [Some "a.txt"; None; Some "b.txt"];
     rNextContinuationToken := None;
     rUploads := None |}.

Definition objectStore : command -> outcome response :=
  fun cmd =>
    match cmd with
    | ListObjectsV2Command _ _ _ _ _ _ => Ok threeObjects
    | _ => Ok demoResponse
    end.

(** [m] only ever appends to the log, and its outcome and what it appends
    satisfy [P]. *)
Definition yields {A} (P : outcome A -> list event -> Prop) (m : M A)
    : Prop :=
  forall w o w', m w = Some (o, w') ->
    exists evs, log w' = log w ++ evs /\ P o evs.

(** The store accepts [cmd]. *)
Definition accepted (remote : command -> outcome response) (cmd : command)
    : Prop :=
  exists r, remote cmd = Ok r.

(** What a request wrapper does: it throws before sending, or it sends its
    command once and its outcome is the store's answer. *)
Definition requested (remote : command -> outcome response) (cmd : command)
    (o : outcome response) (evs : list event) : Prop :=
  (evs = [] /\ exists e, o = Throw e)
  \/ (exists client, evs = [Send client cmd]) /\ o = remote cmd.

(** Before the bucket itself is deleted: no DeleteBucket request was sent,
    and if nothing was thrown every request sent was accepted. *)
Definition cleaning (remote : command -> outcome response)
    (bucketName : string) {A} (o : outcome A) (evs : list event) : Prop :=
  ~ In (DeleteBucketCommand bucketName) (sent evs)
  /\ ((exists a, o = Ok a) -> Forall (accepted remote) (sent evs)).

(** The DeleteBucket request is in [evs] only after accepted requests. *)
Definition deletesSafely (remote : command -> outcome response)
    (bucketName : string) (evs : list event) : Prop :=
  In (DeleteBucketCommand bucketName) (sent evs) ->
  forall cmd,
    In cmd (sent evs) ->
    cmd = DeleteBucketCommand bucketName \/ accepted remote cmd.


Section Shapes.

Variable remote : command -> outcome response.
Variables bucket fileName uid : string.
Variables t c : Z.

(** The request for part [j], whatever the sign of the chunk size. *)
Definition partRequest (j : Z) : command :=
  UploadPartCommand bucket fileName uid j (partBody t c j).

(** The record pushed for part [j]: its number and the ETag of the
    store's answer. *)
Definition pushedRecord (j : Z) : PartRecord :=
  {| PartNumber := j; ETag := etagOf (remote (partRequest j)) |}.

(** What the part loop entered at index [i] with [parts] does: it sends
    the requests for parts i+1, .., i+k in order, and when it returns, the
    store accepted all of them and the list returned is [parts] followed by
    their records. *)
Definition loopShape (i : Z) (parts : list PartRecord)
    (o : outcome (list PartRecord)) (evs : list event) : Prop :=
  exists k,
    sent evs = map partRequest (zrange (i + 1) k)
    /\ forall parts', o = Ok parts' ->
         parts' = parts ++ map pushedRecord (zrange (i + 1) k)
         /\ Forall (fun j => accepted remote (partRequest j))
              (zrange (i + 1) k).

End Shapes.

(** What a whole upload sends: nothing; or the create request alone; or the
    create request, accepted with a non-empty upload id, then the requests
    for parts 1, .., k in order under that upload id, then nothing more or
    the completion request with the records of these k parts, all of them
    accepted. *)
Definition uploadShape (remote : command -> outcome response)
    (bucket fileName : string) (t c : Z) (cmds : list command) : Prop :=
  cmds = []
  \/ cmds = [createCommand bucket fileName]
  \/ exists created uid k tail,
       remote (createCommand bucket fileName) = Ok created
       /\ rUploadId created = Some uid
       /\ uid <> ""
       /\ cmds = createCommand bucket fileName
                 :: map (partRequest bucket fileName uid t c) (zrange 1 k)
                 ++ tail
       /\ (tail = []
           \/ tail = [completeCommand bucket fileName uid
                        (map (pushedRecord remote bucket fileName uid t c)
                           (zrange 1 k))]
              /\ Forall (fun j =>
                           accepted remote
                             (partRequest bucket fileName uid t c j))
                   (zrange 1 k)).

(** What is sent after a create request answered with [created]. *)
Definition afterCreate (remote : command -> outcome response)
    (bucket fileName : string) (t c : Z) (created : response)
    (cmds : list command) : Prop :=
  cmds = []
  \/ exists uid k tail,
       rUploadId created = Some uid
       /\ uid <> ""
       /\ cmds = map (partRequest bucket fileName uid t c) (zrange 1 k)
                 ++ tail
       /\ (tail = []
           \/ tail = [completeCommand bucket fileName uid
                        (map (pushedRecord remote bucket fileName uid t c)
                           (zrange 1 k))]
              /\ Forall (fun j =>
                           accepted remote
                             (partRequest bucket fileName uid t c j))
                   (zrange 1 k)).


(** ** What an upload shows *)

(** The verdicts of the spinner, [loading.succeed] and [loading.fail], in
    order. *)
Definition verdicts (l : list event) : list event :=
  filter (fun e => match e with
                   | LoadingSucceed | LoadingFail => true
                   | _ => false
                   end) l.

Definition isCompletion (cmd : command) : bool :=
  match cmd with
  | CompleteMultipartUploadCommand _ _ _ _ => true
  | _ => false
  end.

(** No verdict is shown and no completion request was accepted. *)
Definition unsettled (remote : command -> outcome response)
    (evs : list event) : Prop :=
  verdicts evs = []
  /\ Forall (fun cmd => isCompletion cmd = true -> ~ accepted remote cmd)
       (sent evs).

(** The one verdict shown is a success, and a completion request was sent
    and accepted. *)
Definition succeeded (remote : command -> outcome response)
    (evs : list event) : Prop :=
  verdicts evs = [LoadingSucceed]
  /\ Exists (fun cmd => isCompletion cmd = true /\ accepted remote cmd)
       (sent evs).

(** The one verdict shown is a failure, and no completion request was
    accepted. *)
Definition failed (remote : command -> outcome response)
    (evs : list event) : Prop :=
  verdicts evs = [LoadingFail]
  /\ Forall (fun cmd => isCompletion cmd = true -> ~ accepted remote cmd)
       (sent evs).

(** The bars displayed by [loading.start], [loading.text] and
    [process.stdout.write], in order. *)
Definition shownBars (l : list event) : list bar :=
  flat_map (fun e => match e with
                     | LoadingStart b _ | LoadingText b _ | StdoutWrite b =>
                         [b]
                     | _ => []
                     end) l.

(** A bar of 50 cells. *)
Definition fullWidth (b : bar) : Prop := (filled b + unfilled b = 50)%nat.

Definition fullWidthBars (evs : list event) : Prop :=
  Forall fullWidth (shownBars evs).

(** ** The single-request upload and the delete of the command-line tool
       and of the example script *)

(** [file.bytes()]: the whole file. *)
Definition wholeFile (size : Z) : chunk :=
  {| chunk_start := 0; chunk_end := size |}.

(** [{ contentType: file.type }] for a [File] built without a type:
    [file.type] is the empty string. *)
Definition untyped : option putOptions :=
  Some {| contentType := Some ""; metadata := None |}.

Module CliFiles.
Section Run.

Variable remote : command -> outcome response.
(** The outcome of each prompt. *)
Variable ask : nat -> outcome unit.
Variable fileSize : string -> option N.
(** [loading.start(text)] with a text that has no bar. *)
Variable spinnerStart : M unit.

(** The options [uploadFile] hands to [multipartUpload]. *)
Definition delegated (fileName : string) : option uploadOptions :=
  Some {| chunkSize := Some (50 * 1024 * 1024);
          customFileName := Some fileName |}.

(** Of its option only [customFileName] is read. *)
Definition uploadFile (fuel : nat) (bucket filePath : string)
    (option_ : option uploadOptions) : M unit :=
  try_catch
    (size <- readFile fileSize filePath ;;
     let fileName :=
       JS.or_string (opt_customFileName option_) (getFileName filePath) in
     if size >? 300 * 1024 * 1024 then
       emit ConsoleLog ;;;
       Tool.multipartUpload remote ask fileSize fuel bucket filePath
         (Tool.ofIntegers
            (delegated
               (JS.or_string (opt_customFileName option_)
                  (getFileName filePath))))
     else
       spinnerStart ;;;
       let content := wholeFile size in
       result <- putObject remote bucket fileName content untyped ;;
       emit LoadingSucceed ;;;
       input ask)
    (fun error => emit LoadingFail ;;; input ask).

Definition deleteFile (bucket fileName : string) : M unit :=
  try_catch
    (result <- deleteObject remote bucket fileName ;;
     emit ConsoleLog ;;;
     input ask)
    (fun error => emit (ConsoleError error) ;;; input ask).

End Run.
End CliFiles.

Module ExampleFiles.
Section Run.

Variable remote : command -> outcome response.
Variable fileSize : string -> option N.

Definition uploadFile (bucket filePath : string)
    (option_ : option uploadOptions) : M unit :=
  try_catch
    (size <- readFile fileSize filePath ;;
     let fileName :=
       JS.or_string (opt_customFileName option_) (getFileName filePath) in
     emit ConsoleLog ;;;
     if size >? 300 * 1024 * 1024 then
       emit ConsoleLog
     else
       let content := wholeFile size in
       result <- putObject remote bucket fileName content untyped ;;
       emit ConsoleLog)
    (fun error => emit (ConsoleError error)).

Definition deleteFile (bucket fileName : string) : M unit :=
  emit ConsoleLog ;;;
  try_catch
    (result <- deleteObject remote bucket fileName ;;
     emit ConsoleLog)
    (fun error => emit (ConsoleError error)).

End Run.
End ExampleFiles.

(** The PutObject request of a single-request upload. *)
Definition putCommand (bucket fileName : string) (size : Z) : command :=
  PutObjectCommand bucket fileName (wholeFile size) (Some "") None.

(** What the upload of a file of [size] bytes sends, in both tools, when
    it does not go by parts: nothing, or the one PutObject request. *)
Definition putShape (bucket fileName : string) (size : Z)
    (cmds : list command) : Prop :=
  cmds = [] \/ cmds = [putCommand bucket fileName size].

(** The greatest size above 300 MiB at which seven parts of 50 MiB
    overflow the bar: 51 * size <= 50 * 7 * 50 MiB. *)
Definition lastStalledSize : Z := 359805490.

(** What [uploadFile] of the command-line tool sends. *)
Definition cliUploadSends (remote : command -> outcome response)
    (fileSize : string -> option N) (bucket filePath : string)
    (option_ : option uploadOptions) (cmds : list command) : Prop :=
  match fileSize filePath with
  | None => cmds = []
  | Some n =>
      if Z.of_N n >? 300 * 1024 * 1024
      then uploadShape remote bucket (uploadName option_ filePath)
             (Z.of_N n) (50 * 1024 * 1024) cmds
      else putShape bucket (uploadName option_ filePath) (Z.of_N n) cmds
  end.

(** What [uploadFile] of the example script sends. *)
Definition exampleUploadSends (fileSize : string -> option N)
    (bucket filePath : string) (option_ : option uploadOptions)
    (cmds : list command) : Prop :=
  match fileSize filePath with
  | None => cmds = []
  | Some n =>
      if Z.of_N n >? 300 * 1024 * 1024
      then cmds = []
      else putShape bucket (uploadName option_ filePath) (Z.of_N n) cmds
  end.

(** The error a delete runs into, if any: the missing client, or the
    store's rejection. *)
Definition deleteFailure (remote : command -> outcome response)
    (bucket fileName : string) (w : world) : option error :=
  match defaultR2Client w with
  | None => Some (Error not_initialized)
  | Some _ =>
      match remote (DeleteObjectCommand bucket fileName) with
      | Ok _ => None
      | Throw e => Some e
      end
  end.

(** The errors printed by [console.error], in order. *)
Definition printedErrors (l : list event) : list error :=
  flat_map (fun e => match e with ConsoleError err => [err] | _ => [] end) l.


(** ** What the upload logs for every chunk size *)

Section Passes.

Variable remote : command -> outcome response.
Variables bucket fileName uid : string.
Variable t : Z.
Variable c : Number.number.

(** The request sent in the pass of index [i]. *)
Definition passRequest (i : Z) : command :=
  UploadPartCommand bucket fileName uid (Number.succ i)
    (Tool.partBody t c i).

(** [i < totalSize / chunkSize]: the pass of index [i] is entered. *)
Definition entered (i : Z) : bool :=
  Number.ltb (Number.ofZ i) (Tool.bound t c).

(** What the part loop entered at index [i] logs, and whether it threw.
    A pass sends its request; when the store accepts it and the bar is
    drawn, the text is refreshed and the next pass follows; a pass that
    stops after its request, or before it, throws. *)
Inductive passes : Z -> bool -> list event -> Prop :=
| passes_exit i : entered i = false -> passes i false []
| passes_unsent i : entered i = true -> passes i true []
| passes_stopped i client :
    entered i = true -> passes i true [Send client (passRequest i)]
| passes_next i client b p threw evs :
    entered i = true ->
    accepted remote (passRequest i) ->
    passes (Number.succ i) threw evs ->
    passes i threw (Send client (passRequest i) :: LoadingText b p :: evs).

End Passes.

(** What the try block logs before its prompt, and whether it threw:
    nothing; or the create request alone; or the create request, accepted
    with a non-empty upload id, the first text, the passes of the loop, and
    then, when the loop returned, the completion request, followed by the
    two lines of the success when the store accepted it. *)
Definition attemptLog (remote : command -> outcome response)
    (bucket fileName : string) (t : Z) (c : Number.number) (threw : bool)
    (evs : list event) : Prop :=
  (threw = true /\ evs = [])
  \/ (threw = true
      /\ exists client, evs = [Send client (createCommand bucket fileName)])
  \/ exists client created uid loopThrew loopEvs tail,
       remote (createCommand bucket fileName) = Ok created
       /\ rUploadId created = Some uid
       /\ uid <> ""
       /\ passes remote bucket fileName uid t c 0 loopThrew loopEvs
       /\ evs = Send client (createCommand bucket fileName)
                :: LoadingStart {| filled := 0; unfilled := 50 |} 0
                :: loopEvs ++ tail
       /\ ((threw = true /\ tail = [])
           \/ (loopThrew = false
               /\ exists client' parts,
                    tail = [Send client'
                              (completeCommand bucket fileName uid parts)]
                    /\ threw = true
                    /\ ~ accepted remote
                           (completeCommand bucket fileName uid parts))
           \/ (loopThrew = false
               /\ exists client' parts,
                    tail = [Send client'
                              (completeCommand bucket fileName uid parts);
                            ConsoleLog; LoadingSucceed]
                    /\ threw = false
                    /\ accepted remote
                         (completeCommand bucket fileName uid parts))).

(** An outcome is a throw. *)
Definition thrown {A} (o : outcome A) : bool :=
  match o with Ok _ => false | Throw _ => true end.

(** No request of [evs] was rejected by the store. *)
Definition unrejected (remote : command -> outcome response)
    (evs : list event) : Prop :=
  Forall (fun e => match e with
                   | Send _ cmd => accepted remote cmd
                   | _ => True
                   end) evs.

(** The events of the part loop: the request of a part, or a refreshed
    text. *)
Definition loopEvent (e : event) : Prop :=
  match e with
  | Send _ (UploadPartCommand _ _ _ _ _) | LoadingText _ _ => True
  | _ => False
  end.

(** ** Arithmetic of the loop bound and of the progress display *)

Lemma ltb_div_pos (i t c : Z) :
  0 < c ->
  JS.ltb (inject_Z i) (JS.div (inject_Z t) (inject_Z c)) = (i * c <? t).
Proof.
  intros Hc. destruct c as [|p|p]; try lia.
  unfold JS.ltb, JS.div, Qdiv, Qinv, Qcompare, inject_Z; simpl.
  rewrite Z.mul_1_r, Z.mul_1_r.
  unfold Z.ltb. reflexivity.
Qed.

Lemma ltb_div_neg (i t c : Z) :
  c < 0 -> 0 <= t -> 0 <= i ->
  JS.ltb (inject_Z i) (JS.div (inject_Z t) (inject_Z c)) = false.
Proof.
  intros Hc Ht Hi. destruct c as [|p|p]; try lia.
  unfold JS.ltb, JS.div, Qdiv, Qinv, Qcompare, inject_Z; simpl.
  destruct (Z.compare_spec (i * Z.pos p) (t * -1 * 1)); try reflexivity; nia.
Qed.

Lemma fraction_scaled (k pn t c : Z) :
  0 < t -> 0 < c ->
  (fraction pn t c * inject_Z k == (pn * c * k) # (Z.to_pos t))%Q.
Proof.
  intros Ht Hc.
  destruct t as [|tp|tp]; try lia. destruct c as [|cp|cp]; try lia.
  unfold fraction, JS.div, Qdiv, Qinv, Qmult, Qeq, inject_Z; simpl.
  rewrite !Pos.mul_1_r. reflexivity.
Qed.

Lemma barCells_eq (pn t c : Z) :
  0 < t -> 0 < c -> barCells pn t c = (pn * c * 50) / t.
Proof.
  intros Ht Hc. unfold barCells, JS.floor.
  rewrite (Qfloor_comp _ _ (fraction_scaled 50 pn t c Ht Hc)).
  unfold Qfloor. rewrite Z2Pos.id by lia. reflexivity.
Qed.

Lemma percentComplete_eq (pn t c : Z) :
  0 < t -> 0 < c ->
  percentComplete pn t c = (2 * (pn * c * 100) + t) / (2 * t).
Proof.
  intros Ht Hc. unfold percentComplete, JS.toFixed0.
  assert (E : (fraction pn t c * inject_Z 100 + (1 # 2)
               == (2 * (pn * c * 100) + t) # (Z.to_pos (2 * t)))%Q).
  { rewrite (fraction_scaled 100 pn t c Ht Hc).
    destruct t as [|tp|tp]; try lia.
    change (Z.to_pos (2 * Z.pos tp)) with (tp~0)%positive.
    unfold Qplus, Qeq. cbn [Qnum Qden Z.to_pos]. rewrite Pos2Z.inj_mul. lia. }
  rewrite (Qfloor_comp _ _ E). unfold Qfloor. rewrite Z2Pos.id by lia.
  reflexivity.
Qed.
Lemma percentComplete_monotone (j j' t c : Z) :
  0 < t -> 0 < c -> j <= j' ->
  percentComplete j t c <= percentComplete j' t c.
Proof.
  intros Ht Hc Hj. rewrite !percentComplete_eq by assumption.
  apply Z.div_le_mono; nia.
Qed.

(** ** Lists of part numbers, part counts and slices *)

Lemma zrange_length a k : List.length (zrange a k) = k.
Proof. unfold zrange. rewrite length_map, length_seq. reflexivity. Qed.

Lemma zrange_S a k : zrange a (S k) = a :: zrange (a + 1) k.
Proof.
  unfold zrange. rewrite <- cons_seq. cbn [map].
  rewrite Z.add_0_r. f_equal.
  rewrite <- seq_shift, map_map.
  apply map_ext. intros n. lia.
Qed.

Lemma zrange_snoc a k : zrange a (S k) = zrange a k ++ [a + Z.of_nat k].
Proof.
  unfold zrange. rewrite seq_S, map_app. reflexivity.
Qed.

Lemma zrange_nth a k n d :
  (n < k)%nat -> nth n (zrange a k) d = a + Z.of_nat n.
Proof.
  intros H. unfold zrange.
  rewrite (nth_indep _ d (a + Z.of_nat 0)) by (rewrite length_map, length_seq; lia).
  rewrite (map_nth (fun n => a + Z.of_nat n)), seq_nth by lia.
  reflexivity.
Qed.

Lemma partCount_eq (t c : Z) : 0 < c -> partCount t c = (t + c - 1) / c.
Proof.
  intros Hc. unfold partCount, Qceiling.
  destruct c as [|p|p]; try lia.
  unfold Qdiv, Qinv, Qmult, Qopp, Qfloor, inject_Z; cbn [Qnum Qden].
  rewrite Z.mul_1_r, Pos.mul_1_l.
  assert (H := Z.div_mod (t + Z.pos p - 1) (Z.pos p) ltac:(lia)).
  assert (H1 := Z.mod_pos_bound (t + Z.pos p - 1) (Z.pos p) ltac:(lia)).
  assert (H2 := Z.div_mod (- t) (Z.pos p) ltac:(lia)).
  assert (H3 := Z.mod_pos_bound (- t) (Z.pos p) ltac:(lia)).
  nia.
Qed.

Lemma partCount_bounds (t c : Z) :
  0 < c -> (partCount t c - 1) * c < t <= partCount t c * c.
Proof.
  intros Hc. rewrite partCount_eq by assumption.
  assert (H := Z.div_mod (t + c - 1) c ltac:(lia)).
  assert (H1 := Z.mod_pos_bound (t + c - 1) c ltac:(lia)).
  nia.
Qed.

Lemma partCount_unique (t c n : Z) :
  0 < c -> (n - 1) * c < t <= n * c -> partCount t c = n.
Proof.
  intros Hc H. assert (B := partCount_bounds t c Hc). nia.
Qed.

Lemma slice_part (t c i : Z) :
  0 < c -> 0 <= i -> i * c < t ->
  slice t (i * c) (if (i + 1) * c >? t then t else (i + 1) * c)
  = partRange t c (i + 1).
Proof.
  intros Hc Hi Hlt. unfold slice, partRange, JS.relativeIndex.
  replace (i + 1 - 1) with i by lia.
  destruct (Z.ltb_spec (i * c) 0); [nia|].
  destruct (Z.gtb_spec ((i + 1) * c) t).
  - destruct (Z.ltb_spec t 0); [nia|]. f_equal; lia.
  - destruct (Z.ltb_spec ((i + 1) * c) 0); [nia|]. f_equal; lia.
Qed.

Lemma with_log_same (w : world) : with_log w (log w) = w.
Proof. destruct w; reflexivity. Qed.

(** ** One iteration of the part loop *)

Section LoopFacts.

Variable remote : command -> outcome response.
Variables bucket fileName UploadId : string.
Variables t c : Z.
Variable progress : Z -> M unit.
Variable client : S3Client.

Abbreviation cmdOf := (partCommand bucket fileName UploadId t c).
Abbreviation recordOf :=
  (partRecord remote bucket fileName UploadId t c).

Abbreviation loop :=
  (uploadParts remote bucket fileName UploadId t c progress).

Lemma uploadParts_exit fuel i parts w :
  0 < c -> t <= i * c -> loop fuel i parts w = Some (Ok parts, w).
Proof.
  intros Hc H. destruct fuel; cbn [uploadParts];
    rewrite ltb_div_pos by assumption;
    destruct (Z.ltb_spec (i * c) t); try lia; reflexivity.
Qed.

Lemma uploadParts_accept fuel i j parts w r :
  j = i + 1 ->
  0 < c -> 0 <= i -> i * c < t ->
  defaultR2Client w = Some client ->
  remote (cmdOf j) = Ok r ->
  loop (S fuel) i parts w
  = (progress j ;;; loop fuel j (parts ++ [recordOf j]))
      (with_log w (log w ++ [Send client (cmdOf j)])).
Proof.
  intros -> Hc Hi Hlt Hw Hr. cbn [uploadParts].
  rewrite ltb_div_pos by assumption.
  destruct (Z.ltb_spec (i * c) t); try lia.
  rewrite slice_part by assumption.
  unfold partRecord. fold (cmdOf (i + 1)). rewrite Hr.
  unfold bind at 1, uploadPart, bind at 1, getR2Client. rewrite Hw.
  unfold send, bind at 1, emit, lift. fold (cmdOf (i + 1)).
  rewrite Hr. reflexivity.
Qed.

Lemma uploadParts_reject fuel i j parts w e :
  j = i + 1 ->
  0 < c -> 0 <= i -> i * c < t ->
  defaultR2Client w = Some client ->
  remote (cmdOf j) = Throw e ->
  loop (S fuel) i parts w
  = Some (Throw e, with_log w (log w ++ [Send client (cmdOf j)])).
Proof.
  intros -> Hc Hi Hlt Hw Hr. cbn [uploadParts].
  rewrite ltb_div_pos by assumption.
  destruct (Z.ltb_spec (i * c) t); try lia.
  rewrite slice_part by assumption.
  unfold bind at 1, uploadPart, bind at 1, getR2Client. rewrite Hw.
  unfold send, bind at 1, emit, lift. fold (cmdOf (i + 1)).
  rewrite Hr. reflexivity.
Qed.

(** What the display adds to the log after part [j]. *)
Variable shown : Z -> list event.

Abbreviation eventsOf :=
  (partEvents bucket fileName UploadId t c client shown).

Hypothesis c_pos : 0 < c.
Hypothesis progress_inner :
  forall j w, 0 < j -> j * c < t ->
    progress j w = Some (Ok tt, with_log w (log w ++ shown j)).

(** [k] accepted parts, none of them the last one, take [k] units of
    fuel and leave the loop at index [i + k]. *)
Lemma uploadParts_advance (k : nat) : forall fuel i parts w,
  0 <= i -> (i + Z.of_nat k) * c < t ->
  defaultR2Client w = Some client ->
  (forall j, i < j <= i + Z.of_nat k ->
     exists r, remote (cmdOf j) = Ok r) ->
  loop (k + fuel) i parts w
  = loop fuel (i + Z.of_nat k)
      (parts ++ map recordOf (zrange (i + 1) k))
      (with_log w (log w ++ flat_map eventsOf (zrange (i + 1) k))).
Proof.
  induction k as [|k IH]; intros fuel i parts w Hi Hlt Hw Hacc.
  - cbn. rewrite !app_nil_r, with_log_same, Z.add_0_r. reflexivity.
  - destruct (Hacc (i + 1)) as [r Hr]; [lia|].
    cbn [Nat.add].
    rewrite (uploadParts_accept _ i (i + 1) _ _ r) by (assumption || nia).
    unfold bind at 1. rewrite progress_inner by nia.
    rewrite IH; cbn [defaultR2Client with_log log];
      [| lia | nia | assumption | intros j Hj; apply Hacc; lia ].
    rewrite zrange_S. cbn [map flat_map partEvents].
    replace (i + 1 + Z.of_nat k) with (i + Z.of_nat (S k)) by lia.
    unfold with_log; cbn [defaultR2Client constructed log].
    rewrite <- !app_assoc. reflexivity.
Qed.

(** A run of the loop from index 0 in which the store accepts every
    part and the display of the last part succeeds. *)
Lemma uploadParts_complete fuel w :
  0 < t ->
  defaultR2Client w = Some client ->
  (forall j, 1 <= j <= partCount t c ->
     exists r, remote (cmdOf j) = Ok r) ->
  (forall w', progress (partCount t c) w'
              = Some (Ok tt, with_log w' (log w' ++ shown (partCount t c)))) ->
  (Z.to_nat (partCount t c) <= fuel)%nat ->
  loop fuel 0 [] w
  = Some (Ok (map recordOf (zrange 1 (Z.to_nat (partCount t c)))),
          with_log w
            (log w ++ flat_map eventsOf
                        (zrange 1 (Z.to_nat (partCount t c))))).
Proof.
  intros Ht Hw Hacc Hlast Hfuel.
  assert (B := partCount_bounds t c c_pos).
  set (n := partCount t c) in *.
  assert (Hn : 1 <= n) by nia.
  replace fuel with (Z.to_nat (n - 1) + S (fuel - Z.to_nat n))%nat by lia.
  rewrite uploadParts_advance;
    [| lia | rewrite Z2Nat.id by lia; lia | assumption
     | intros j Hj; apply Hacc; lia ].
  rewrite Z2Nat.id by lia. cbn [app Z.add].
  destruct (Hacc n) as [r Hr]; [lia|].
  replace (Z.to_nat n) with (S (Z.to_nat (n - 1))) by lia.
  rewrite zrange_snoc, map_app, flat_map_app.
  replace (1 + Z.of_nat (Z.to_nat (n - 1))) with n by lia.
  cbn [map flat_map]. rewrite app_nil_r.
  rewrite (uploadParts_accept _ (n - 1) n _ _ r);
    cbn [defaultR2Client with_log log]; try assumption; try lia.
  unfold bind at 1. rewrite Hlast.
  rewrite uploadParts_exit by lia.
  unfold with_log, partEvents; cbn [defaultR2Client constructed log].
  rewrite <- !app_assoc. reflexivity.
Qed.

(** The same run when the display of the last part throws. *)
Lemma uploadParts_display_throws fuel w e :
  0 < t ->
  defaultR2Client w = Some client ->
  (forall j, 1 <= j <= partCount t c ->
     exists r, remote (cmdOf j) = Ok r) ->
  (forall w', progress (partCount t c) w' = Some (Throw e, w')) ->
  (Z.to_nat (partCount t c) <= fuel)%nat ->
  loop fuel 0 [] w
  = Some (Throw e,
          with_log w
            (log w ++ flat_map eventsOf
                        (zrange 1 (Z.to_nat (partCount t c - 1)))
                   ++ [Send client (cmdOf (partCount t c))])).
Proof.
  intros Ht Hw Hacc Hlast Hfuel.
  assert (B := partCount_bounds t c c_pos).
  set (n := partCount t c) in *.
  assert (Hn : 1 <= n) by nia.
  replace fuel with (Z.to_nat (n - 1) + S (fuel - Z.to_nat n))%nat by lia.
  rewrite uploadParts_advance;
    [| lia | rewrite Z2Nat.id by lia; lia | assumption
     | intros j Hj; apply Hacc; lia ].
  rewrite Z2Nat.id by lia. cbn [app Z.add].
  destruct (Hacc n) as [r Hr]; [lia|].
  rewrite (uploadParts_accept _ (n - 1) n _ _ r);
    cbn [defaultR2Client with_log log]; try assumption; try lia.
  unfold bind at 1. rewrite Hlast.
  unfold with_log; cbn [defaultR2Client constructed log].
  rewrite <- !app_assoc. reflexivity.
Qed.

(** A run in which the store rejects part [k] after accepting the parts
    before it. *)
Lemma uploadParts_rejected fuel w k e :
  1 <= k <= partCount t c ->
  defaultR2Client w = Some client ->
  (forall j, 1 <= j < k -> exists r, remote (cmdOf j) = Ok r) ->
  remote (cmdOf k) = Throw e ->
  (Z.to_nat k <= fuel)%nat ->
  loop fuel 0 [] w
  = Some (Throw e,
          with_log w
            (log w ++ flat_map eventsOf (zrange 1 (Z.to_nat (k - 1)))
                   ++ [Send client (cmdOf k)])).
Proof.
  intros Hk Hw Hacc Hrej Hfuel.
  assert (B := partCount_bounds t c c_pos).
  replace fuel with (Z.to_nat (k - 1) + S (fuel - Z.to_nat k))%nat by lia.
  rewrite uploadParts_advance;
    [| lia | rewrite Z2Nat.id by lia; nia | assumption
     | intros j Hj; apply Hacc; lia ].
  rewrite Z2Nat.id by lia. cbn [app Z.add].
  rewrite (uploadParts_reject _ (k - 1) k _ _ e);
    cbn [defaultR2Client with_log log]; try assumption; try nia.
  unfold with_log; cbn [defaultR2Client constructed log].
  rewrite <- !app_assoc. reflexivity.
Qed.

End LoopFacts.

(** ** The progress display *)

Lemma drawBar_fits pn t c w :
  0 <= barCells pn t c <= 50 ->
  drawBar pn t c w = Some (Ok (barOf pn t c), w).
Proof.
  intros H. unfold drawBar, bind, lift, JS.repeat, ret, barOf.
  destruct (Z.ltb_spec (barCells pn t c) 0); [lia|].
  destruct (Z.ltb_spec (50 - barCells pn t c) 0); [lia|].
  reflexivity.
Qed.

Lemma drawBar_overflows pn t c w :
  50 < barCells pn t c ->
  drawBar pn t c w = Some (Throw RangeError, w).
Proof.
  intros H. unfold drawBar, bind, lift, JS.repeat, ret.
  destruct (Z.ltb_spec (barCells pn t c) 0); [lia|].
  destruct (Z.ltb_spec (50 - barCells pn t c) 0); [|lia].
  reflexivity.
Qed.

Lemma barCells_inner pn t c :
  0 < c -> 0 < pn -> pn * c < t -> 0 <= barCells pn t c < 50.
Proof.
  intros Hc Hp Hlt. rewrite barCells_eq by lia. split.
  - apply Z.div_pos; nia.
  - apply Z.div_lt_upper_bound; nia.
Qed.

Lemma barCells_last pn t c :
  0 < c -> 0 < t -> t <= pn * c -> 50 <= barCells pn t c.
Proof.
  intros Hc Ht Hle. rewrite barCells_eq by lia.
  apply Z.div_le_lower_bound; nia.
Qed.

Lemma barCells_exact pn t c :
  0 < c -> 0 < t -> t = pn * c -> barCells pn t c = 50.
Proof.
  intros Hc Ht E. rewrite barCells_eq by lia. subst t.
  replace (pn * c * 50) with (50 * (pn * c)) by lia.
  apply Z.div_mul. lia.
Qed.

(** The bar of the last part has more than 50 cells exactly when
    [51 * totalSize <= 50 * partCount * chunkSize]. *)
Lemma barCells_overflow_iff pn t c :
  0 < c -> 0 < t -> (50 < barCells pn t c <-> 51 * t <= 50 * (pn * c)).
Proof.
  intros Hc Ht. rewrite barCells_eq by lia. split; intros H.
  - assert (D := Z.div_mod (pn * c * 50) t ltac:(lia)).
    assert (D1 := Z.mod_pos_bound (pn * c * 50) t ltac:(lia)). nia.
  - assert (51 <= pn * c * 50 / t) by (apply Z.div_le_lower_bound; lia).
    lia.
Qed.

(** ** Both displays *)

Lemma Cli_progress_fits t c j w :
  0 <= barCells j t c <= 50 ->
  Cli.progress t c j w
  = Some (Ok tt, with_log w (log w ++ CliLog.shown t c j)).
Proof.
  intros H. unfold Cli.progress, bind. rewrite drawBar_fits by assumption.
  reflexivity.
Qed.

Lemma Cli_progress_overflows t c j w :
  50 < barCells j t c -> Cli.progress t c j w = Some (Throw RangeError, w).
Proof.
  intros H. unfold Cli.progress, bind.
  rewrite drawBar_overflows by assumption. reflexivity.
Qed.

Lemma Example_progress_fits t c j w :
  0 <= barCells j t c <= 50 ->
  Example.progress t c j w
  = Some (Ok tt, with_log w (log w ++ ExampleLog.shown t c j)).
Proof.
  intros H. unfold Example.progress, bind.
  rewrite drawBar_fits by assumption. reflexivity.
Qed.

Lemma Example_progress_overflows t c j w :
  50 < barCells j t c ->
  Example.progress t c j w = Some (Throw RangeError, w).
Proof.
  intros H. unfold Example.progress, bind.
  rewrite drawBar_overflows by assumption. reflexivity.
Qed.

Module CliFacts.
Section Runs.

Variable remote : command -> outcome response.
Variable fileSize : string -> option N.
Variables bucket filePath : string.
Variable option_ : option uploadOptions.
Variable client : S3Client.
Variable size : N.
Variable created : response.
Variable uid : string.

Abbreviation fileName := (uploadName option_ filePath).
Abbreviation createCmd := (createCommand bucket fileName).
Abbreviation completeCmd := (completeCommand bucket fileName uid).
Abbreviation t := (Z.of_N size).
Abbreviation c := (Cli.effectiveChunkSize option_).
Abbreviation shown := (CliLog.shown t c).
Abbreviation opening := (CliLog.opening client bucket fileName).
Abbreviation closing := CliLog.closing.

Abbreviation loop :=
  (uploadParts remote bucket fileName uid t c (Cli.progress t c)).
Abbreviation events := (partEvents bucket fileName uid t c client shown).
Abbreviation record := (partRecord remote bucket fileName uid t c).
Abbreviation cmd := (partCommand bucket fileName uid t c).

Hypothesis file_present : fileSize filePath = Some size.
Hypothesis create_accepted : remote createCmd = Ok created.
Hypothesis upload_id : rUploadId created = Some uid.
Hypothesis upload_id_truthy : uid <> "".

Abbreviation run fuel :=
  (Cli.multipartUpload remote fileSize fuel bucket filePath option_).

(** The run up to the loop. *)
Lemma run_enters fuel w :
  defaultR2Client w = Some client ->
  run fuel w
  = try_catch
      (parts <- loop fuel 0 [] ;;
       result <- completeMultipartUpload remote bucket fileName uid parts ;;
       emit ConsoleLog ;;; emit LoadingSucceed ;;; emit Input)
      (fun error => emit LoadingFail ;;; emit Input)
      (with_log w (log w ++ opening)).
Proof.
  intros Hw. unfold Cli.multipartUpload, readFile. rewrite file_present.
  unfold bind at 1, ret. fold fileName.
  unfold try_catch, bind at 1, createMultipartUpload, bind at 1, getR2Client.
  rewrite Hw. unfold send, bind at 1, emit, lift.
  cbn [octetStream opt_contentType opt_metadata contentType metadata].
  fold (createCommand bucket fileName). rewrite create_accepted, upload_id.
  destruct uid as [|a s]; [contradiction|].
  unfold bind at 1. cbn [with_log log defaultR2Client constructed].
  unfold CliLog.opening, with_log; cbn [with_log log defaultR2Client constructed].
  rewrite <- app_assoc. reflexivity.
Qed.

(** The run after a loop that returned its part list. *)
Lemma run_completes fuel w w' parts :
  defaultR2Client w = Some client ->
  defaultR2Client w' = Some client ->
  loop fuel 0 [] (with_log w (log w ++ opening)) = Some (Ok parts, w') ->
  run fuel w
  = Some (Ok tt,
          with_log w'
            (log w' ++ Send client (completeCmd parts)
                    :: closing (remote (completeCmd parts)))).
Proof.
  intros Hw Hw' Hloop. rewrite run_enters by assumption.
  unfold try_catch, bind at 1. rewrite Hloop.
  unfold bind at 1, completeMultipartUpload, bind at 1, getR2Client.
  rewrite Hw'. unfold send, bind at 1, emit, lift.
  fold (completeCommand bucket fileName uid parts).
  destruct (remote (completeCmd parts)) as [r|e];
    unfold bind, CliLog.closing, with_log;
    cbn [with_log log defaultR2Client constructed];
    rewrite <- !app_assoc; reflexivity.
Qed.

(** The run after a loop that threw. *)
Lemma run_catches fuel w w' e :
  defaultR2Client w = Some client ->
  loop fuel 0 [] (with_log w (log w ++ opening)) = Some (Throw e, w') ->
  run fuel w = Some (Ok tt, with_log w' (log w' ++ [LoadingFail; Input])).
Proof.
  intros Hw Hloop. rewrite run_enters by assumption.
  unfold try_catch, bind at 1. rewrite Hloop.
  unfold bind, emit, with_log;
    cbn [with_log log defaultR2Client constructed].
  rewrite <- !app_assoc. reflexivity.
Qed.

(** Every part is accepted and the bar of the last part fits: the
    upload is completed with the records of parts 1..n. *)
Lemma run_success fuel w :
  defaultR2Client w = Some client ->
  0 < c -> 0 < t ->
  (forall j, 1 <= j <= partCount t c -> exists r, remote (cmd j) = Ok r) ->
  barCells (partCount t c) t c <= 50 ->
  (Z.to_nat (partCount t c) <= fuel)%nat ->
  run fuel w
  = Some (Ok tt,
          with_log w
            (log w ++ opening
               ++ flat_map events (zrange 1 (Z.to_nat (partCount t c)))
               ++ Send client
                    (completeCmd
                       (map record (zrange 1 (Z.to_nat (partCount t c)))))
               :: closing
                    (remote
                       (completeCmd
                          (map record
                             (zrange 1 (Z.to_nat (partCount t c)))))))).
Proof.
  intros Hw Hc Ht Hacc Hbar Hfuel.
  assert (B := partCount_bounds t c Hc).
  assert (L := barCells_last (partCount t c) t c Hc Ht ltac:(lia)).
  erewrite run_completes; [| assumption | |].
  3:{ apply (uploadParts_complete remote bucket fileName uid t c
               (Cli.progress t c) client shown Hc);
        try (cbn [defaultR2Client with_log]; assumption).
      - intros j w' Hj Hlt. apply Cli_progress_fits.
        pose proof (barCells_inner j t c Hc Hj Hlt). lia.
      - intros w'. apply Cli_progress_fits. lia. }
  - unfold with_log; cbn [with_log log defaultR2Client constructed].
    rewrite <- !app_assoc. reflexivity.
  - assumption.
Qed.

(** Every part is accepted and the bar of the last part has more than
    50 cells: [repeat] throws, the completion call is skipped. *)
Lemma run_bar_overflow fuel w :
  defaultR2Client w = Some client ->
  0 < c -> 0 < t ->
  (forall j, 1 <= j <= partCount t c -> exists r, remote (cmd j) = Ok r) ->
  50 < barCells (partCount t c) t c ->
  (Z.to_nat (partCount t c) <= fuel)%nat ->
  run fuel w
  = Some (Ok tt,
          with_log w
            (log w ++ opening
               ++ flat_map events (zrange 1 (Z.to_nat (partCount t c - 1)))
               ++ [Send client (cmd (partCount t c)); LoadingFail; Input])).
Proof.
  intros Hw Hc Ht Hacc Hbar Hfuel.
  erewrite run_catches; [| assumption |].
  2:{ apply (uploadParts_display_throws remote bucket fileName uid t c
               (Cli.progress t c) client shown Hc);
        try (cbn [defaultR2Client with_log]; assumption).
      - intros j w' Hj Hlt. apply Cli_progress_fits.
        pose proof (barCells_inner j t c Hc Hj Hlt). lia.
      - intros w'. apply Cli_progress_overflows. assumption. }
  unfold with_log; cbn [with_log log defaultR2Client constructed].
  rewrite <- !app_assoc. reflexivity.
Qed.

End Runs.
End CliFacts.
(** ** Projections of a log *)

Lemma added_app w evs : added w (with_log w (log w ++ evs)) = evs.
Proof.
  unfold added. cbn [log with_log].
  induction (log w) as [|e l IH]; [reflexivity | exact IH].
Qed.

Lemma sent_app l1 l2 : sent (l1 ++ l2) = sent l1 ++ sent l2.
Proof. apply flat_map_app. Qed.

Lemma uploadedParts_app l1 l2 :
  uploadedParts (l1 ++ l2) = uploadedParts l1 ++ uploadedParts l2.
Proof. unfold uploadedParts. rewrite sent_app. apply flat_map_app. Qed.

Lemma completions_app l1 l2 :
  completions (l1 ++ l2) = completions l1 ++ completions l2.
Proof. unfold completions. rewrite sent_app. apply flat_map_app. Qed.

Lemma aborts_app l1 l2 : aborts (l1 ++ l2) = aborts l1 ++ aborts l2.
Proof. unfold aborts. rewrite sent_app. apply filter_app. Qed.

Lemma percentages_app l1 l2 :
  percentages (l1 ++ l2) = percentages l1 ++ percentages l2.
Proof. apply flat_map_app. Qed.

Section PartLogs.

Variables bucket fileName uid : string.
Variables t c : Z.
Variable client : S3Client.
Variable shown : Z -> list event.
Hypothesis shown_silent : forall j, sent (shown j) = [].

Abbreviation eventsOf := (partEvents bucket fileName uid t c client shown).

Lemma uploadedParts_partEvents l :
  uploadedParts (flat_map eventsOf l)
  = map (fun j => (j, partRange t c j)) l.
Proof.
  induction l as [|j l IH]; [reflexivity|].
  cbn [flat_map map]. rewrite uploadedParts_app, IH.
  unfold partEvents at 1, uploadedParts at 1.
  change (sent (Send client (partCommand bucket fileName uid t c j)
                :: shown j))
    with (partCommand bucket fileName uid t c j :: sent (shown j)).
  rewrite shown_silent. reflexivity.
Qed.

Lemma completions_partEvents l : completions (flat_map eventsOf l) = [].
Proof.
  induction l as [|j l IH]; [reflexivity|].
  cbn [flat_map]. rewrite completions_app, IH.
  unfold partEvents, completions.
  change (sent (Send client (partCommand bucket fileName uid t c j)
                :: shown j))
    with (partCommand bucket fileName uid t c j :: sent (shown j)).
  rewrite shown_silent. reflexivity.
Qed.

End PartLogs.

Lemma percentages_partEvents bucket fileName uid t c client l :
  percentages (flat_map (partEvents bucket fileName uid t c client
                           (CliLog.shown t c)) l)
  = map (fun j => percentComplete j t c) l.
Proof.
  induction l as [|j l IH]; [reflexivity|].
  cbn [flat_map map]. rewrite percentages_app, IH. reflexivity.
Qed.

(** ** Ranges that tile the file *)

Lemma tiles_le lo hi l : tiles lo hi l -> lo <= hi.
Proof.
  revert lo. induction l as [|r l IH]; cbn [tiles]; intros lo H.
  - lia.
  - destruct H as (_ & H1 & H2). apply IH in H2. lia.
Qed.

(** Tiling ranges cover every byte between the two ends exactly once and
    nothing else. *)
Lemma tiles_covering lo hi l :
  tiles lo hi l ->
  forall b, covering b l = if (lo <=? b) && (b <? hi) then 1%nat else 0%nat.
Proof.
  revert lo. induction l as [|r l IH]; cbn [tiles]; intros lo H b.
  - subst hi. unfold covering; cbn.
    destruct (Z.leb_spec lo b), (Z.ltb_spec b lo); cbn; try reflexivity; lia.
  - destruct H as (Hs & Hne & Hrest).
    assert (Hle := tiles_le _ _ _ Hrest).
    specialize (IH _ Hrest b). unfold covering in *. cbn [filter].
    unfold contains at 1. rewrite Hs.
    destruct (Z.leb_spec lo b), (Z.ltb_spec b (chunk_end r)),
      (Z.leb_spec (chunk_end r) b), (Z.ltb_spec b hi);
      cbn [andb List.length] in *; try lia.
  Qed.

Lemma partRanges_tile t c : forall (k : nat) (a : Z),
  0 < c -> 1 <= a -> (a - 1) * c <= t ->
  ((0 < k)%nat -> (a - 1 + Z.of_nat k - 1) * c < t) ->
  tiles ((a - 1) * c) (Z.min ((a - 1 + Z.of_nat k) * c) t)
    (map (partRange t c) (zrange a k)).
Proof.
  induction k as [|k IH]; intros a Hc Ha Hlo Hlast.
  - cbn. rewrite Z.add_0_r. lia.
  - rewrite zrange_S. cbn [map tiles partRange chunk_start chunk_end].
    assert (Hk : (a - 1 + Z.of_nat (S k) - 1) * c < t) by (apply Hlast; lia).
    split; [reflexivity|]. split; [nia|].
    destruct k as [|k].
    + cbn. f_equal. lia.
    + replace (Z.min (a * c) t) with ((a + 1 - 1) * c) by nia.
      replace (a - 1 + Z.of_nat (S (S k))) with (a + 1 - 1 + Z.of_nat (S k))
        by lia.
      apply IH; try lia; try nia.
Qed.

Lemma partRanges_whole t c :
  0 < c -> 0 < t ->
  tiles 0 t (map (partRange t c) (zrange 1 (Z.to_nat (partCount t c)))).
Proof.
  intros Hc Ht. assert (B := partCount_bounds t c Hc).
  assert (Hn : 1 <= partCount t c) by nia.
  pose proof (partRanges_tile t c (Z.to_nat (partCount t c)) 1 Hc) as H.
  rewrite Z2Nat.id in H by lia.
  replace ((1 - 1) * c) with 0 in H by lia.
  replace (Z.min ((1 - 1 + partCount t c) * c) t) with t in H by nia.
  apply H; try lia; try nia.
Qed.

(** ** The parts uploaded when the store accepts every part *)

Section AllAccepted.

Variable remote : command -> outcome response.
Variables bucket fileName uid : string.
Variables t c : Z.
Variable progress : Z -> M unit.
Variable client : S3Client.
Variable shown : Z -> list event.

Hypothesis c_pos : 0 < c.
Hypothesis t_pos : 0 < t.
Hypothesis shown_silent : forall j, sent (shown j) = [].
Hypothesis display_fits :
  forall j w, 0 <= barCells j t c <= 50 ->
    progress j w = Some (Ok tt, with_log w (log w ++ shown j)).
Hypothesis display_overflows :
  forall j w, 50 < barCells j t c ->
    progress j w = Some (Throw RangeError, w).

Lemma uploadParts_all_accepted fuel w :
  defaultR2Client w = Some client ->
  acceptsParts remote ->
  (Z.to_nat (partCount t c) <= fuel)%nat ->
  exists out w',
    uploadParts remote bucket fileName uid t c progress fuel 0 [] w
    = Some (out, w')
    /\ uploadedParts (added w w')
       = map (fun j => (j, partRange t c j))
           (zrange 1 (Z.to_nat (partCount t c))).
Proof.
  intros Hw Hacc Hfuel.
  assert (B := partCount_bounds t c c_pos).
  assert (Hn : 1 <= partCount t c) by nia.
  assert (Hinner : forall j w0, 0 < j -> j * c < t ->
            progress j w0 = Some (Ok tt, with_log w0 (log w0 ++ shown j))).
  { intros j w0 Hj Hlt. apply display_fits.
    pose proof (barCells_inner j t c c_pos Hj Hlt). lia. }
  assert (Hparts : forall j, 1 <= j <= partCount t c ->
            exists r, remote (partCommand bucket fileName uid t c j) = Ok r).
  { intros j _. apply Hacc. }
  destruct (Z_le_gt_dec (barCells (partCount t c) t c) 50) as [Hfit|Hover].
  - eexists; eexists; split.
    + apply (uploadParts_complete remote bucket fileName uid t c progress
               client shown c_pos Hinner); try assumption.
      intros w'. apply display_fits.
      pose proof (barCells_last (partCount t c) t c c_pos t_pos). lia.
    + rewrite added_app.
      apply uploadedParts_partEvents. assumption.
  - eexists; eexists; split.
    + apply (uploadParts_display_throws remote bucket fileName uid t c
               progress client shown c_pos Hinner); try assumption.
      intros w'. apply display_overflows. lia.
    + rewrite added_app, uploadedParts_app.
      rewrite uploadedParts_partEvents by assumption.
      replace (Z.to_nat (partCount t c))
        with (S (Z.to_nat (partCount t c - 1))) by lia.
      rewrite zrange_snoc, map_app. cbn [map].
      replace (1 + Z.of_nat (Z.to_nat (partCount t c - 1)))
        with (partCount t c) by lia.
      reflexivity.
Qed.

End AllAccepted.

(** ** The byte ranges of the parts *)

(** C1.  For every totalSize > 0 and chunkSize > 0, when the store accepts
    every part, the loop of the command-line tool and the loop of the
    example script return, and the byte ranges of the parts they upload
    are: range number k (from 0) is [k*chunkSize, min((k+1)*chunkSize,
    totalSize)); the ranges are non-empty, each starts where the one before
    it ended, the first starts at 0 and the last ends at totalSize; every
    byte offset of the file lies in exactly one range and no other offset
    lies in any; there are ceil(totalSize/chunkSize) ranges, and exactly
    one when totalSize = chunkSize. *)
Theorem C1_part_ranges_tile_the_file :
  forall remote bucket fileName uid t c display client fuel w,
    display = Cli.progress t c \/ display = Example.progress t c ->
    0 < t -> 0 < c ->
    defaultR2Client w = Some client ->
    acceptsParts remote ->
    (Z.to_nat (partCount t c) <= fuel)%nat ->
    exists out w',
      uploadParts remote bucket fileName uid t c display fuel 0 [] w
      = Some (out, w')
      /\ rangesTile t c (map snd (uploadedParts (added w w'))).
Proof.
  intros remote bucket fileName uid t c display client fuel w
    Hdisplay Ht Hc Hw Hacc Hfuel.
  assert (B := partCount_bounds t c Hc).
  assert (Hn : 1 <= partCount t c) by nia.
  assert (Hrun : exists out w',
            uploadParts remote bucket fileName uid t c display fuel 0 [] w
            = Some (out, w')
            /\ uploadedParts (added w w')
               = map (fun j => (j, partRange t c j))
                   (zrange 1 (Z.to_nat (partCount t c)))).
  { destruct Hdisplay as [-> | ->].
    - apply (uploadParts_all_accepted remote bucket fileName uid t c
               (Cli.progress t c) client (CliLog.shown t c));
        try assumption; try reflexivity.
      + intros j w0. apply Cli_progress_fits.
      + intros j w0. apply Cli_progress_overflows.
    - apply (uploadParts_all_accepted remote bucket fileName uid t c
               (Example.progress t c) client (ExampleLog.shown t c));
        try assumption; try reflexivity.
      + intros j w0. apply Example_progress_fits.
      + intros j w0. apply Example_progress_overflows. }
  destruct Hrun as (out & w' & Hrun & Hparts).
  exists out, w'. split; [exact Hrun|]. unfold rangesTile.
  rewrite Hparts, map_map. cbn [snd].
  change (map (fun j => partRange t c j)) with (map (partRange t c)).
  rewrite length_map, zrange_length.
  repeat split.
  - intros k Hk.
    rewrite (nth_indep _ noChunk (partRange t c 0))
      by (rewrite length_map, zrange_length; exact Hk).
    rewrite map_nth, zrange_nth by exact Hk.
    unfold partRange. f_equal; f_equal; lia.
  - apply partRanges_whole; assumption.
  - apply tiles_covering, partRanges_whole; assumption.
  - fold (partCount t c). lia.
  - intros E. rewrite (partCount_unique t c 1) by lia. reflexivity.
Qed.

Lemma C1_witness :
  exists out w',
    uploadParts acceptAll "bucket" "big.bin" "upload-1" 125000000 50000000
      (Cli.progress 125000000 50000000) 3 0 [] readyProcess
    = Some (out, w')
    /\ rangesTile 125000000 50000000 (map snd (uploadedParts (added readyProcess w'))).
Proof.
  apply (C1_part_ranges_tile_the_file acceptAll "bucket" "big.bin"
           "upload-1" 125000000 50000000 (Cli.progress 125000000 50000000)
           demoClient 3 readyProcess).
  - left; reflexivity.
  - lia.
  - lia.
  - reflexivity.
  - intros b k u n body. exists demoResponse. reflexivity.
  - vm_compute. lia.
Defined.

(** ** A session of the command-line tool's upload *)

Lemma effectiveChunkSize_nonzero option_ : Cli.effectiveChunkSize option_ <> 0.
Proof.
  unfold Cli.effectiveChunkSize, JS.or_number.
  destruct (opt_chunkSize option_) as [n|]; [|discriminate].
  destruct (Z.eqb_spec n 0); [discriminate | assumption].
Qed.

(** An empty file: the loop condition fails at index 0. *)
Lemma uploadParts_empty_file remote bucket fileName uid c progress fuel
    parts w :
  c <> 0 ->
  uploadParts remote bucket fileName uid 0 c progress fuel 0 parts w
  = Some (Ok parts, w).
Proof.
  intros Hc.
  assert (E : JS.ltb (inject_Z 0) (JS.div (inject_Z 0) (inject_Z c)) = false).
  { destruct (Z_lt_ge_dec 0 c).
    - rewrite ltb_div_pos by assumption. reflexivity.
    - apply ltb_div_neg; lia. }
  destruct fuel; cbn [uploadParts]; rewrite E; reflexivity.
Qed.

Lemma lastPart_length t c :
  0 < c -> 0 < t ->
  byteLength (partRange t c (partCount t c))
  = if t mod c =? 0 then c else t mod c.
Proof.
  intros Hc Ht. assert (B := partCount_bounds t c Hc).
  unfold byteLength, partRange; cbn [chunk_start chunk_end].
  rewrite Z.min_r by lia.
  assert (D := Z.div_mod t c ltac:(lia)).
  assert (M := Z.mod_pos_bound t c Hc).
  destruct (Z.eqb_spec (t mod c) 0) as [E|E].
  - assert (partCount t c - 1 < t / c) by nia.
    assert (t / c <= partCount t c) by nia.
    nia.
  - assert (partCount t c - 1 <= t / c) by nia.
    assert (t / c < partCount t c) by nia.
    nia.
Qed.

Section Session.

Variable remote : command -> outcome response.
Variable fileSize : string -> option N.
Variables bucket filePath : string.
Variable option_ : option uploadOptions.
Variable client : S3Client.
Variable size : N.
Variable created : response.
Variable uid : string.
Variable w : world.

Abbreviation fileName := (uploadName option_ filePath).
Abbreviation t := (Z.of_N size).
Abbreviation c := (Cli.effectiveChunkSize option_).
Abbreviation cmd := (partCommand bucket fileName uid t c).
Abbreviation run fuel :=
  (Cli.multipartUpload remote fileSize fuel bucket filePath option_).

Hypothesis initialized : defaultR2Client w = Some client.
Hypothesis file_present : fileSize filePath = Some size.
Hypothesis create_accepted :
  remote (createCommand bucket fileName) = Ok created.
Hypothesis upload_id : rUploadId created = Some uid.
Hypothesis upload_id_truthy : uid <> "".

Lemma run_all_accepted fuel :
  0 < c -> 0 < t ->
  acceptsParts remote ->
  (Z.to_nat (partCount t c) <= fuel)%nat ->
  exists w',
    run fuel w = Some (Ok tt, w')
    /\ uploadedParts (added w w')
       = map (fun j => (j, partRange t c j))
           (zrange 1 (Z.to_nat (partCount t c))).
Proof.
  intros Hc Ht Hacc Hfuel.
  assert (B := partCount_bounds t c Hc).
  assert (Hparts : forall j, 1 <= j <= partCount t c ->
            exists r, remote (cmd j) = Ok r) by (intros j _; apply Hacc).
  destruct (Z_le_gt_dec (barCells (partCount t c) t c) 50) as [Hfit|Hover].
  - eexists. split.
    + apply (CliFacts.run_success remote fileSize bucket filePath option_
               client size created uid); assumption.
    + rewrite added_app, !uploadedParts_app.
      rewrite uploadedParts_partEvents by reflexivity.
      change (uploadedParts (CliLog.opening client bucket fileName))
        with (@nil (Z * chunk)).
      match goal with
      | |- _ ++ _ ++ uploadedParts (_ :: CliLog.closing ?o) = _ =>
          replace (uploadedParts
                     (Send client
                        (completeCommand bucket fileName uid
                           (map (partRecord remote bucket fileName uid t c)
                              (zrange 1 (Z.to_nat (partCount t c)))))
                      :: CliLog.closing o))
            with (@nil (Z * chunk)) by (destruct o; reflexivity)
      end.
      rewrite app_nil_r. reflexivity.
  - eexists. split.
    + apply (CliFacts.run_bar_overflow remote fileSize bucket filePath
               option_ client size created uid); try assumption. lia.
    + rewrite added_app, !uploadedParts_app.
      rewrite uploadedParts_partEvents by reflexivity.
      change (uploadedParts (CliLog.opening client bucket fileName))
        with (@nil (Z * chunk)).
      cbn [app].
      replace (Z.to_nat (partCount t c))
        with (S (Z.to_nat (partCount t c - 1))) by lia.
      rewrite zrange_snoc, map_app. cbn [map].
      replace (1 + Z.of_nat (Z.to_nat (partCount t c - 1)))
        with (partCount t c) by lia.
      reflexivity.
Qed.

(** When the bar of the last part fits, the completion command is sent
    once, with the records of parts 1..n in ascending order. *)
Lemma completed_when_bar_fits fuel :
  0 < c -> 0 < t ->
  acceptsParts remote ->
  barCells (partCount t c) t c <= 50 ->
  (Z.to_nat (partCount t c) <= fuel)%nat ->
  exists w',
    run fuel w = Some (Ok tt, w')
    /\ completions (added w w')
       = [map (partRecord remote bucket fileName uid t c)
            (zrange 1 (Z.to_nat (partCount t c)))]
    /\ map PartNumber
         (map (partRecord remote bucket fileName uid t c)
            (zrange 1 (Z.to_nat (partCount t c))))
       = zrange 1 (Z.to_nat (partCount t c)).
Proof.
  intros Hc Ht Hacc Hfit Hfuel.
  eexists. split; [| split].
  - apply (CliFacts.run_success remote fileSize bucket filePath option_
             client size created uid); try assumption.
    intros j _. apply Hacc.
  - rewrite added_app, !completions_app.
    rewrite completions_partEvents by reflexivity.
    change (completions (CliLog.opening client bucket fileName))
      with (@nil (list PartRecord)).
    cbn [app].
    match goal with
    | |- completions (_ :: CliLog.closing ?o) = _ => destruct o; reflexivity
    end.
  - rewrite map_map. cbn [PartNumber partRecord]. apply map_id.
Qed.

(** When the bar of the last part has more than 50 cells, every part is
    uploaded and no completion command is sent. *)
Lemma not_completed_when_bar_overflows fuel :
  0 < c -> 0 < t ->
  acceptsParts remote ->
  50 < barCells (partCount t c) t c ->
  (Z.to_nat (partCount t c) <= fuel)%nat ->
  exists w',
    run fuel w = Some (Ok tt, w')
    /\ completions (added w w') = []
    /\ percentages (added w w')
       = map (fun j => percentComplete j t c)
           (zrange 1 (Z.to_nat (partCount t c - 1))).
Proof.
  intros Hc Ht Hacc Hover Hfuel.
  eexists. split; [| split].
  - apply (CliFacts.run_bar_overflow remote fileSize bucket filePath option_
             client size created uid); try assumption.
    intros j _. apply Hacc.
  - rewrite added_app, !completions_app.
    rewrite completions_partEvents by reflexivity. reflexivity.
  - rewrite added_app, !percentages_app, percentages_partEvents.
    cbn [app percentages flat_map CliLog.opening]. apply app_nil_r.
Qed.

(** When chunkSize divides totalSize, the display is refreshed once per
    part and the last percentage is 100. *)
Lemma percentages_when_chunks_divide fuel :
  0 < c -> 0 < t ->
  acceptsParts remote ->
  t mod c = 0 ->
  (Z.to_nat (partCount t c) <= fuel)%nat ->
  exists w',
    run fuel w = Some (Ok tt, w')
    /\ percentages (added w w')
       = map (fun j => percentComplete j t c)
           (zrange 1 (Z.to_nat (partCount t c)))
    /\ percentComplete (partCount t c) t c = 100.
Proof.
  intros Hc Ht Hacc Hdiv Hfuel.
  assert (B := partCount_bounds t c Hc).
  assert (D := Z.div_mod t c ltac:(lia)).
  assert (Hq1 : partCount t c - 1 < t / c) by nia.
  assert (Hq2 : t / c <= partCount t c) by nia.
  assert (E : t = partCount t c * c) by nia.
  eexists. split; [| split].
  - apply (CliFacts.run_success remote fileSize bucket filePath option_
             client size created uid); try assumption.
    + intros j _. apply Hacc.
    + rewrite (barCells_exact (partCount t c) t c Hc Ht E). lia.
  - rewrite added_app, !percentages_app, percentages_partEvents.
    match goal with
    | |- _ ++ _ ++ percentages (_ :: CliLog.closing ?o) = _ =>
        replace (percentages
                   (Send client
                      (completeCommand bucket fileName uid
                         (map (partRecord remote bucket fileName uid t c)
                            (zrange 1 (Z.to_nat (partCount t c)))))
                    :: CliLog.closing o))
          with (@nil Z) by (destruct o; reflexivity)
    end.
    cbn [app percentages flat_map CliLog.opening]. apply app_nil_r.
  - rewrite percentComplete_eq by assumption.
    rewrite <- E.
    replace (2 * (t * 100) + t) with (100 * (2 * t) + t) by lia.
    rewrite Z.div_add_l by lia.
    rewrite Z.div_small by lia. reflexivity.
Qed.

(** C2.  For every totalSize > 0 and chunkSize > 0, when the store accepts
    every part, the upload returns and the last part it uploaded holds
    totalSize mod chunkSize bytes when that remainder is not zero and
    chunkSize bytes otherwise; for totalSize = 125_000_000 and chunkSize =
    50_000_000 the parts uploaded are numbered 1, 2, 3 and hold
    50_000_000, 50_000_000 and 25_000_000 bytes. *)
Theorem C2_last_part_length :
  forall fuel,
    0 < t -> 0 < c ->
    acceptsParts remote ->
    (Z.to_nat (partCount t c) <= fuel)%nat ->
    exists w',
      run fuel w = Some (Ok tt, w')
      /\ byteLength (last (map snd (uploadedParts (added w w'))) noChunk)
         = (if t mod c =? 0 then c else t mod c)
      /\ (t = 125000000 -> c = 50000000 ->
          map (fun p => (fst p, byteLength (snd p)))
            (uploadedParts (added w w'))
          = [(1, 50000000); (2, 50000000); (3, 25000000)]).
Proof.
  intros fuel Ht Hc Hacc Hfuel.
  destruct (run_all_accepted fuel Hc Ht Hacc Hfuel) as (w' & Hrun & Hparts).
  exists w'. split; [exact Hrun|]. rewrite Hparts. split.
  - assert (B := partCount_bounds t c Hc).
    rewrite map_map. cbn [snd].
    replace (Z.to_nat (partCount t c))
      with (S (Z.to_nat (partCount t c - 1))) by lia.
    change (map (fun j => partRange t c j)) with (map (partRange t c)).
    rewrite zrange_snoc, map_app. cbn [map]. rewrite last_last.
    replace (1 + Z.of_nat (Z.to_nat (partCount t c - 1)))
      with (partCount t c) by lia.
    apply lastPart_length; assumption.
  - intros Et Ec. rewrite Et, Ec. reflexivity.
Qed.

(** C6, as the code has it.  When totalSize is 0 the loop runs no
    iteration: no part is uploaded and the completion command is sent with
    an empty part list. *)
Theorem C6_empty_file_uploads_no_part :
  forall fuel,
    size = 0%N ->
    exists w',
      run fuel w = Some (Ok tt, w')
      /\ uploadedParts (added w w') = []
      /\ completions (added w w') = [[]].
Proof.
  intros fuel Hsize.
  set (w1 := with_log w (log w ++ CliLog.opening client bucket fileName)).
  assert (Hloop : uploadParts remote bucket fileName uid t c
                    (Cli.progress t c) fuel 0 [] w1 = Some (Ok [], w1)).
  { rewrite Hsize. apply uploadParts_empty_file.
    apply effectiveChunkSize_nonzero. }
  rewrite (CliFacts.run_completes remote fileSize bucket filePath option_
             client size created uid file_present create_accepted upload_id
             upload_id_truthy fuel w w1 [] initialized initialized Hloop).
  eexists. split; [reflexivity|].
  unfold w1, with_log; cbn [log defaultR2Client constructed].
  rewrite <- app_assoc.
  match goal with
  | |- context [log w ++ ?l] =>
      change (added w _) with (added w (with_log w (log w ++ l)))
  end.
  rewrite added_app.
  destruct (remote (completeCommand bucket fileName uid [])); split;
    reflexivity.
Qed.

End Session.

Lemma C2_witness :
  exists w',
    Cli.multipartUpload acceptAll (oneFile 125000000) 3 "bucket"
      "/data/big.bin" (withChunkSize 50000000) readyProcess
    = Some (Ok tt, w')
    /\ byteLength
         (last (map snd (uploadedParts (added readyProcess w'))) noChunk)
       = 25000000
    /\ map (fun p => (fst p, byteLength (snd p)))
         (uploadedParts (added readyProcess w'))
       = [(1, 50000000); (2, 50000000); (3, 25000000)].
Proof.
  destruct (C2_last_part_length acceptAll (oneFile 125000000) "bucket"
              "/data/big.bin" (withChunkSize 50000000) demoClient
              125000000%N demoResponse "upload-1" readyProcess)
    with (fuel := 3%nat) as (w' & Hrun & Hlast & Hparts).
  - reflexivity.
  - reflexivity.
  - reflexivity.
  - reflexivity.
  - discriminate.
  - reflexivity.
  - reflexivity.
  - intros b k u n body. exists demoResponse. reflexivity.
  - vm_compute. lia.
  - exists w'. split; [exact Hrun|]. split; [exact Hlast|].
    apply Hparts; reflexivity.
Defined.

(** C3, at totalSize = 125_000_000 and chunkSize = 50_000_000 with a store
    that accepts everything: parts 1, 2, 3 are uploaded, the bar of part 3
    has 60 cells, [" ".repeat(50 - 60)] throws, and the run ends in
    loading.fail without a completion command. *)
Theorem C3_completion_skipped_at_125MB :
  exists w',
    Cli.multipartUpload acceptAll (oneFile 125000000) 3 "bucket"
      "/data/big.bin" (withChunkSize 50000000) readyProcess
    = Some (Ok tt, w')
    /\ map fst (uploadedParts (log w')) = [1; 2; 3]
    /\ barCells 3 125000000 50000000 = 60
    /\ JS.repeat (50 - barCells 3 125000000 50000000) = Throw RangeError
    /\ completions (log w') = []
    /\ exists before, log w' = before ++ [LoadingFail; Input].
Proof.
  eexists. split; [vm_compute; reflexivity|].
  repeat split; try reflexivity.
  cbn [log]. eexists.
  match goal with
  | |- ?l = _ => change l with (firstn 7 l ++ [LoadingFail; Input])
  end.
  reflexivity.
Qed.

(** The same from the command-line tool's own call, with a chunk size of
    50 MiB, on a file of 300 MiB + 1 byte: seven parts go up, the bar of
    part 7 has 58 cells, and no completion command is sent. *)
Lemma completion_skipped_above_300MiB :
  exists w',
    Cli.multipartUpload acceptAll (oneFile 314572801) 7 "bucket"
      "/data/big.bin" (withChunkSize (50 * 1024 * 1024)) readyProcess
    = Some (Ok tt, w')
    /\ map fst (uploadedParts (log w')) = [1; 2; 3; 4; 5; 6; 7]
    /\ barCells 7 314572801 (50 * 1024 * 1024) = 58
    /\ completions (log w') = [].
Proof.
  eexists. split; [vm_compute; reflexivity|].
  repeat split; reflexivity.
Qed.

(** C5, at totalSize = 125_000_000 and chunkSize = 50_000_000 with a store
    that accepts everything: three parts are uploaded but the display is
    refreshed twice only, with 40% and 80%; for the last part the
    percentage computed is 120 and the display is not refreshed. *)
Theorem C5_progress_at_125MB :
  exists w',
    Cli.multipartUpload acceptAll (oneFile 125000000) 3 "bucket"
      "/data/big.bin" (withChunkSize 50000000) readyProcess
    = Some (Ok tt, w')
    /\ map fst (uploadedParts (log w')) = [1; 2; 3]
    /\ percentages (log w') = [40; 80]
    /\ percentComplete 3 125000000 50000000 = 120.
Proof.
  eexists. split; [vm_compute; reflexivity|].
  repeat split; reflexivity.
Qed.

Lemma C6_witness :
  exists w',
    Cli.multipartUpload acceptAll (oneFile 0) 1 "bucket" "/data/empty.bin"
      None readyProcess
    = Some (Ok tt, w')
    /\ uploadedParts (added readyProcess w') = []
    /\ completions (added readyProcess w') = [[]].
Proof.
  apply (C6_empty_file_uploads_no_part acceptAll (oneFile 0) "bucket"
           "/data/empty.bin" None demoClient 0%N demoResponse "upload-1"
           readyProcess).
  - reflexivity.
  - reflexivity.
  - reflexivity.
  - reflexivity.
  - discriminate.
  - reflexivity.
Defined.

(** C6 fails as stated: for an empty file no part is uploaded, not one
    empty part, and the completion command carries no part. *)
Lemma C6_counterexample :
  exists w',
    Cli.multipartUpload acceptAll (oneFile 0) 1 "bucket" "/data/empty.bin"
      None readyProcess
    = Some (Ok tt, w')
    /\ uploadedParts (log w') = []
    /\ uploadedParts (log w')
       <> [(1, {| chunk_start := 0; chunk_end := 0 |})]
    /\ completions (log w') = [[]].
Proof.
  eexists. split; [vm_compute; reflexivity|].
  repeat split; try reflexivity. discriminate.
Qed.

(** ** What any run may log *)

Lemma logs_ret {A} (P : list event -> Prop) (a : A) : P [] -> logs P (ret a).
Proof.
  intros H w o w' E. inversion E; subst. exists []. rewrite app_nil_r. auto.
Qed.

Lemma logs_throw {A} (P : list event -> Prop) e :
  P [] -> logs P (@throw A e).
Proof.
  intros H w o w' E. inversion E; subst. exists []. rewrite app_nil_r. auto.
Qed.

Lemma logs_out_of_fuel {A} (P : list event -> Prop) : logs P (@out_of_fuel A).
Proof. intros w o w' E. discriminate E. Qed.

Lemma logs_emit (P : list event -> Prop) e : P [e] -> logs P (emit e).
Proof. intros H w o w' E. inversion E; subst. exists [e]. auto. Qed.

Lemma logs_bind {A B} (P Q R : list event -> Prop) (m : M A) (k : A -> M B) :
  logs P m -> (forall a, logs Q (k a)) ->
  (forall e1, P e1 -> R e1) ->
  (forall e1 e2, P e1 -> Q e2 -> R (e1 ++ e2)) ->
  logs R (bind m k).
Proof.
  intros Hm Hk Hthrow Hboth w o w' E. unfold bind in E.
  destruct (m w) as [[[a|e] w1]|] eqn:Em; try discriminate.
  - destruct (Hm _ _ _ Em) as (e1 & L1 & P1).
    destruct (Hk a _ _ _ E) as (e2 & L2 & Q2).
    exists (e1 ++ e2). rewrite L2, L1, app_assoc. auto.
  - inversion E; subst. destruct (Hm _ _ _ Em) as (e1 & L1 & P1).
    exists e1. auto.
Qed.

Lemma logs_try_catch {A} (P Q R : list event -> Prop) (body : M A)
    (handler : error -> M A) :
  logs P body -> (forall e, logs Q (handler e)) ->
  (forall e1, P e1 -> R e1) ->
  (forall e1 e2, P e1 -> Q e2 -> R (e1 ++ e2)) ->
  logs R (try_catch body handler).
Proof.
  intros Hm Hk Hok Hboth w o w' E. unfold try_catch in E.
  destruct (body w) as [[[a|e] w1]|] eqn:Em; try discriminate.
  - inversion E; subst. destruct (Hm _ _ _ Em) as (e1 & L1 & P1).
    exists e1. auto.
  - destruct (Hm _ _ _ Em) as (e1 & L1 & P1).
    destruct (Hk e _ _ _ E) as (e2 & L2 & Q2).
    exists (e1 ++ e2). rewrite L2, L1, app_assoc. auto.
Qed.

Lemma logs_wrapper remote cmd :
  logs (sendsOnly cmd) (client <- getR2Client ;; send remote client cmd).
Proof.
  intros w o w' E. unfold bind, getR2Client in E.
  destruct (defaultR2Client w) as [client|].
  - unfold send, bind, emit, lift in E. cbn in E.
    destruct (remote cmd); inversion E; subst; cbn [log with_log];
      exists [Send client cmd]; (split; [reflexivity | right; eauto]).
  - inversion E; subst. exists []. rewrite app_nil_r. split; [auto | left; auto].
Qed.

Lemma silent_app e1 e2 : silent e1 -> silent e2 -> silent (e1 ++ e2).
Proof. unfold silent. intros H1 H2. rewrite sent_app, H1, H2. reflexivity. Qed.

Lemma logs_drawBar pn t c : logs silent (drawBar pn t c).
Proof.
  intros w o w' E. unfold drawBar, bind, lift, ret in E.
  exists []. rewrite app_nil_r.
  destruct (JS.repeat (barCells pn t c));
    [destruct (JS.repeat (50 - barCells pn t c))|];
    inversion E; subst; split; reflexivity.
Qed.

Lemma logs_Cli_progress t c pn : logs silent (Cli.progress t c pn).
Proof.
  unfold Cli.progress.
  apply (logs_bind silent silent silent); auto using silent_app.
  - apply logs_drawBar.
  - intros b. apply logs_emit. reflexivity.
Qed.

Lemma logs_Example_progress t c pn : logs silent (Example.progress t c pn).
Proof.
  unfold Example.progress.
  apply (logs_bind silent silent silent); auto using silent_app.
  - apply logs_drawBar.
  - intros b. apply logs_emit. reflexivity.
Qed.

Lemma partsFrom_weaken t c i i' l :
  i' <= i -> partsFrom t c i l -> partsFrom t c i' l.
Proof.
  destruct l as [|[n body] rest]; cbn; [auto|].
  intros Hle (H1 & H2 & H3). repeat split; auto. lia.
Qed.

Lemma uploadLog_nil t c i : uploadLog t c i [].
Proof. split; reflexivity. Qed.

Lemma uploadLog_silent t c i evs : silent evs -> uploadLog t c i evs.
Proof.
  unfold silent, uploadLog, aborts, uploadedParts. intros ->.
  split; reflexivity.
Qed.

Lemma uploadLog_silent_l t c i e1 e2 :
  silent e1 -> uploadLog t c i e2 -> uploadLog t c i (e1 ++ e2).
Proof.
  unfold silent, uploadLog. intros H1 (H2 & H3).
  rewrite aborts_app, uploadedParts_app.
  unfold aborts at 1, uploadedParts at 1. rewrite H1. cbn [app flat_map filter].
  auto.
Qed.

Section AnyRun.

Variable remote : command -> outcome response.
Variables bucket fileName uid : string.
Variables t c : Z.
Variable progress : Z -> M unit.
Hypothesis progress_silent : forall j, logs silent (progress j).

Lemma logs_uploadParts fuel : forall i parts,
  logs (uploadLog t c i)
    (uploadParts remote bucket fileName uid t c progress fuel i parts).
Proof.
  induction fuel as [|fuel IH]; intros i parts; cbn [uploadParts];
    destruct (JS.ltb (inject_Z i) (JS.div (inject_Z t) (inject_Z c)));
    try (apply logs_ret, uploadLog_nil); try apply logs_out_of_fuel.
  eapply (logs_bind (sendsOnly _) (uploadLog t c (i + 1))).
  - apply logs_wrapper.
  - intros r.
    eapply (logs_bind silent (uploadLog t c (i + 1))).
    + apply progress_silent.
    + intros _. apply IH.
    + intros e1 H. apply uploadLog_silent, H.
    + intros e1 e2. apply uploadLog_silent_l.
  - intros e1 [-> | (client & ->)]; [apply uploadLog_nil|].
    split; [reflexivity|]. cbn. repeat split. lia.
    unfold partBody. replace (i + 1 - 1) with i by lia. reflexivity.
  - intros e1 e2 [-> | (client & ->)] (Ha & Hp).
    + split; [exact Ha|]. apply (partsFrom_weaken t c (i + 1)); [lia|].
      exact Hp.
    + split.
      * rewrite aborts_app, Ha. reflexivity.
      * rewrite uploadedParts_app. cbn. repeat split; [lia | | exact Hp].
        unfold partBody. replace (i + 1 - 1) with i by lia. reflexivity.
Qed.

End AnyRun.

Lemma harmless_app e1 e2 : harmless e1 -> harmless e2 -> harmless (e1 ++ e2).
Proof.
  intros (A1 & U1) (A2 & U2). split.
  - rewrite aborts_app, A1, A2. reflexivity.
  - rewrite uploadedParts_app, U1, U2. reflexivity.
Qed.

Lemma harmless_create bucket fileName evs :
  sendsOnly (createCommand bucket fileName) evs -> harmless evs.
Proof. intros [-> | (client & ->)]; split; reflexivity. Qed.

Lemma harmless_complete bucket fileName uid parts evs :
  sendsOnly (completeCommand bucket fileName uid parts) evs -> harmless evs.
Proof. intros [-> | (client & ->)]; split; reflexivity. Qed.

Lemma uploadLog_harmless t c i evs : harmless evs -> uploadLog t c i evs.
Proof. intros (A & U). split; [exact A|]. rewrite U. exact I. Qed.

Lemma uploadLog_harmless_l t c i e1 e2 :
  harmless e1 -> uploadLog t c i e2 -> uploadLog t c i (e1 ++ e2).
Proof.
  intros (A1 & U1) (A2 & U2). split.
  - rewrite aborts_app, A1, A2. reflexivity.
  - rewrite uploadedParts_app, U1. exact U2.
Qed.

Lemma uploadLog_harmless_r t c i e1 e2 :
  uploadLog t c i e1 -> harmless e2 -> uploadLog t c i (e1 ++ e2).
Proof.
  intros (A1 & U1) (A2 & U2). split.
  - rewrite aborts_app, A1, A2. reflexivity.
  - rewrite uploadedParts_app, U2, app_nil_r. exact U1.
Qed.

Lemma logs_bind_ret {A B} (P : list event -> Prop) (a : A) (k : A -> M B) :
  logs P (k a) -> logs P (bind (ret a) k).
Proof. intros H w o w' E. apply (H w o w'). exact E. Qed.

Lemma logs_emits (e1 e2 : event) :
  harmless [e1] -> harmless [e2] -> logs harmless (emit e1 ;;; emit e2).
Proof.
  intros H1 H2.
  apply (logs_bind harmless harmless harmless); auto using harmless_app.
  - apply logs_emit, H1.
  - intros _. apply logs_emit, H2.
Qed.

Lemma logs_Cli_multipartUpload remote fileSize fuel bucket filePath option_ :
  logs (uploadLog (sizeAt fileSize filePath) (Cli.effectiveChunkSize option_) 0)
    (Cli.multipartUpload remote fileSize fuel bucket filePath option_).
Proof.
  unfold Cli.multipartUpload, readFile, sizeAt.
  destruct (fileSize filePath) as [n|];
    [| intros w o w' E; inversion E; subst; exists [];
       rewrite app_nil_r; split; [reflexivity | apply uploadLog_nil] ].
  apply logs_bind_ret.
  set (t := Z.of_N n). set (c := Cli.effectiveChunkSize option_).
  apply (logs_try_catch (uploadLog t c 0) harmless); auto.
  2:{ intros e. apply logs_emits; split; reflexivity. }
  2:{ intros e1 e2. apply uploadLog_harmless_r. }
  apply (logs_bind (sendsOnly (createCommand bucket (uploadName option_ filePath)))
           (uploadLog t c 0)).
  - apply logs_wrapper.
  - intros created.
    destruct (rUploadId created) as [[|a s]|];
      try (apply logs_throw, uploadLog_nil).
    apply (logs_bind harmless (uploadLog t c 0)).
    + apply logs_emit. split; reflexivity.
    + intros _.
      apply (logs_bind (uploadLog t c 0) harmless).
      * apply logs_uploadParts. apply logs_Cli_progress.
      * intros parts.
        apply (logs_bind (sendsOnly (completeCommand bucket
                            (uploadName option_ filePath) (String a s) parts))
                 harmless harmless).
        -- apply logs_wrapper.
        -- intros _.
           apply (logs_bind harmless harmless harmless);
             auto using harmless_app.
           ++ apply logs_emit. split; reflexivity.
           ++ intros _. apply logs_emits; split; reflexivity.
        -- apply harmless_complete.
        -- intros e1 e2 H1 H2. apply harmless_app; [|exact H2].
           eapply harmless_complete, H1.
      * auto.
      * intros e1 e2. apply uploadLog_harmless_r.
    + intros e1. apply uploadLog_harmless.
    + intros e1 e2. apply uploadLog_harmless_l.
  - intros e1 H. eapply uploadLog_harmless, harmless_create, H.
  - intros e1 e2 H. apply uploadLog_harmless_l. eapply harmless_create, H.
Qed.

Lemma logs_Example_multipartUpload remote fileSize fuel bucket filePath
    option_ :
  logs (uploadLog (sizeAt fileSize filePath)
          (Example.effectiveChunkSize option_) 0)
    (Example.multipartUpload remote fileSize fuel bucket filePath option_).
Proof.
  unfold Example.multipartUpload, readFile, sizeAt.
  destruct (fileSize filePath) as [n|];
    [| intros w o w' E; inversion E; subst; exists [];
       rewrite app_nil_r; split; [reflexivity | apply uploadLog_nil] ].
  apply logs_bind_ret.
  set (t := Z.of_N n). set (c := Example.effectiveChunkSize option_).
  apply (logs_bind harmless (uploadLog t c 0)).
  { apply logs_emit. split; reflexivity. }
  2:{ intros e1. apply uploadLog_harmless. }
  2:{ intros e1 e2. apply uploadLog_harmless_l. }
  intros _.
  apply (logs_try_catch (uploadLog t c 0) harmless); auto.
  2:{ intros e. apply logs_emit. split; reflexivity. }
  2:{ intros e1 e2. apply uploadLog_harmless_r. }
  apply (logs_bind (sendsOnly (createCommand bucket (uploadName option_ filePath)))
           (uploadLog t c 0)).
  - apply logs_wrapper.
  - intros created.
    apply (logs_bind harmless (uploadLog t c 0)).
    + apply logs_emit. split; reflexivity.
    + intros _.
      destruct (rUploadId created) as [[|a s]|];
        try (apply logs_throw, uploadLog_nil).
      apply (logs_bind (uploadLog t c 0) harmless).
      * apply logs_uploadParts. apply logs_Example_progress.
      * intros parts.
        apply (logs_bind (sendsOnly (completeCommand bucket
                            (uploadName option_ filePath) (String a s) parts))
                 harmless harmless).
        -- apply logs_wrapper.
        -- intros _. apply logs_emits; split; reflexivity.
        -- apply harmless_complete.
        -- intros e1 e2 H1 H2. apply harmless_app; [|exact H2].
           eapply harmless_complete, H1.
      * auto.
      * intros e1 e2. apply uploadLog_harmless_r.
    + intros e1. apply uploadLog_harmless.
    + intros e1 e2. apply uploadLog_harmless_l.
  - intros e1 H. eapply uploadLog_harmless, harmless_create, H.
  - intros e1 e2 H. apply uploadLog_harmless_l. eapply harmless_create, H.
Qed.

Lemma added_of_app w w' evs : log w' = log w ++ evs -> added w w' = evs.
Proof.
  intros E. unfold added. rewrite E. clear E.
  induction (log w) as [|e l IH]; [reflexivity | exact IH].
Qed.

Lemma partsFrom_bodies t c i l :
  partsFrom t c i l -> Forall (fun p => snd p = partBody t c (fst p)) l.
Proof.
  revert i. induction l as [|[n body] rest IH]; intros i; cbn [partsFrom].
  - constructor.
  - intros (H1 & H2 & H3). constructor; [exact H2 | eapply IH, H3].
Qed.

(** C8 fails as stated for the example script: without a chunkSize option
    its chunk size is 5 MiB, and a file of 6 MiB goes up as the two parts
    [0, 5 MiB) and [5 MiB, 6 MiB). *)
Lemma C8_counterexample :
  Example.effectiveChunkSize None = 5 * 1024 * 1024
  /\ Example.effectiveChunkSize None <> 50 * 1024 * 1024
  /\ exists w',
       Example.multipartUpload acceptAll (oneFile 6291456) 2 "bucket"
         "/data/six.bin" None readyProcess
       = Some (Ok tt, w')
       /\ uploadedParts (log w')
          = [(1, {| chunk_start := 0; chunk_end := 5242880 |});
             (2, {| chunk_start := 5242880; chunk_end := 6291456 |})].
Proof.
  split; [reflexivity|]. split; [discriminate|].
  eexists. split; [vm_compute; reflexivity | reflexivity].
Qed.

(** C8, as the code has it.  When no chunkSize option is supplied, the
    command-line tool cuts the file with a chunk size of 50 MiB and the
    example script with a chunk size of 5 MiB; in both, every part of the
    session is cut with that one chunk size. *)
Theorem C8_default_chunk_sizes :
  forall remote fileSize fuel bucket filePath option_ w out w' out2 w2,
    opt_chunkSize option_ = None ->
    Cli.multipartUpload remote fileSize fuel bucket filePath option_ w
    = Some (out, w') ->
    Example.multipartUpload remote fileSize fuel bucket filePath option_ w
    = Some (out2, w2) ->
    Cli.effectiveChunkSize option_ = 50 * 1024 * 1024
    /\ Example.effectiveChunkSize option_ = 5 * 1024 * 1024
    /\ Forall (fun p => snd p = partBody (sizeAt fileSize filePath)
                                  (50 * 1024 * 1024) (fst p))
         (uploadedParts (added w w'))
    /\ Forall (fun p => snd p = partBody (sizeAt fileSize filePath)
                                  (5 * 1024 * 1024) (fst p))
         (uploadedParts (added w w2)).
Proof.
  intros remote fileSize fuel bucket filePath option_ w out w' out2 w2
    Hopt Hcli Hex.
  assert (Ec : Cli.effectiveChunkSize option_ = 50 * 1024 * 1024)
    by (unfold Cli.effectiveChunkSize; rewrite Hopt; reflexivity).
  assert (Ee : Example.effectiveChunkSize option_ = 5 * 1024 * 1024)
    by (unfold Example.effectiveChunkSize; rewrite Hopt; reflexivity).
  split; [exact Ec|]. split; [exact Ee|]. split.
  - destruct (logs_Cli_multipartUpload _ _ _ _ _ _ _ _ _ Hcli)
      as (evs & Hlog & _ & Hparts).
    rewrite (added_of_app _ _ _ Hlog). rewrite Ec in Hparts.
    eapply partsFrom_bodies, Hparts.
  - destruct (logs_Example_multipartUpload _ _ _ _ _ _ _ _ _ Hex)
      as (evs & Hlog & _ & Hparts).
    rewrite (added_of_app _ _ _ Hlog). rewrite Ee in Hparts.
    eapply partsFrom_bodies, Hparts.
Qed.

Lemma C8_witness :
  exists out w' out2 w2,
    Cli.multipartUpload acceptAll (oneFile 104857600) 20 "bucket"
      "/data/hundred.bin" None readyProcess
    = Some (out, w')
    /\ Example.multipartUpload acceptAll (oneFile 104857600) 20 "bucket"
         "/data/hundred.bin" None readyProcess
       = Some (out2, w2)
    /\ Cli.effectiveChunkSize None = 50 * 1024 * 1024
    /\ Example.effectiveChunkSize None = 5 * 1024 * 1024
    /\ Forall (fun p => snd p = partBody 104857600 (50 * 1024 * 1024) (fst p))
         (uploadedParts (added readyProcess w'))
    /\ Forall (fun p => snd p = partBody 104857600 (5 * 1024 * 1024) (fst p))
         (uploadedParts (added readyProcess w2)).
Proof.
  destruct (Cli.multipartUpload acceptAll (oneFile 104857600) 20 "bucket"
              "/data/hundred.bin" None readyProcess)
    as [[out w']|] eqn:E1; [| vm_compute in E1; discriminate E1].
  destruct (Example.multipartUpload acceptAll (oneFile 104857600) 20
              "bucket" "/data/hundred.bin" None readyProcess)
    as [[out2 w2]|] eqn:E2; [| vm_compute in E2; discriminate E2].
  exists out, w', out2, w2.
  split; [reflexivity|]. split; [reflexivity|].
  exact (C8_default_chunk_sizes acceptAll (oneFile 104857600) 20 "bucket"
           "/data/hundred.bin" None readyProcess out w' out2 w2
           eq_refl E1 E2).
Defined.

(** ** Termination of the loop *)










(** ** The client singleton *)

Lemma request_run remote client cmd w :
  defaultR2Client w = Some client ->
  (cl <- getR2Client ;; send remote cl cmd) w
  = Some (remote cmd, with_log w (log w ++ [Send client cmd])).
Proof.
  intros Hw. unfold bind at 1, getR2Client. rewrite Hw.
  unfold send, bind, emit, lift. reflexivity.
Qed.

























(** * Further properties *)

(** ** getFileName *)

Lemma lastIndexOf_from_app s1 s2 c pos found :
  JS.lastIndexOf_from (s1 ++ s2)%string c pos found
  = JS.lastIndexOf_from s2 c (pos + zlength s1)
      (JS.lastIndexOf_from s1 c pos found).
Proof.
  revert pos found. induction s1 as [|a s1 IH]; intros pos found.
  - cbn. unfold zlength; cbn. rewrite Z.add_0_r. reflexivity.
  - cbn [append JS.lastIndexOf_from]. rewrite IH. f_equal.
    unfold zlength; cbn [String.length]. lia.
Qed.

Lemma lastIndexOf_from_absent s c pos found :
  (forall a, isSeparator a = false -> Ascii.eqb a c = false) ->
  plainName s -> JS.lastIndexOf_from s c pos found = found.
Proof.
  intros Hc. revert pos found.
  induction s as [|a s IH]; intros pos found; cbn; [reflexivity|].
  intros (Ha & Hs). rewrite (Hc a Ha). apply IH, Hs.
Qed.

Lemma lastIndexOf_from_bound s c pos found :
  found < pos ->
  JS.lastIndexOf_from s c pos found < pos + zlength s
  /\ found <= JS.lastIndexOf_from s c pos found.
Proof.
  revert pos found. induction s as [|a s IH]; intros pos found H.
  - cbn. unfold zlength; cbn. lia.
  - cbn [JS.lastIndexOf_from]. unfold zlength; cbn [String.length].
    destruct (Ascii.eqb a c).
    + destruct (IH (pos + 1) pos ltac:(lia)). unfold zlength in *. lia.
    + destruct (IH (pos + 1) found ltac:(lia)). unfold zlength in *. lia.
Qed.

Lemma slash_not_plain a : isSeparator a = false -> Ascii.eqb a "/" = false.
Proof. unfold isSeparator. intros H. apply orb_false_iff in H. tauto. Qed.

Lemma backslash_not_plain a :
  isSeparator a = false -> Ascii.eqb a "\" = false.
Proof. unfold isSeparator. intros H. apply orb_false_iff in H. tauto. Qed.

Lemma substring_skip dir rest :
  String.substring (String.length dir) (String.length rest)
    (dir ++ rest)%string = rest.
Proof.
  induction dir as [|a dir IH]; cbn.
  - destruct rest as [|b rest]; cbn; [reflexivity|].
    f_equal. clear. induction rest as [|c rest IH]; cbn; [reflexivity|].
    f_equal. exact IH.
  - exact IH.
Qed.

Lemma length_append s1 s2 :
  String.length (s1 ++ s2)%string
  = (String.length s1 + String.length s2)%nat.
Proof. induction s1; cbn; auto. Qed.

(** The last separator of [dir ++ sep ++ name] is the one before [name]. *)
Lemma lastIndex_of_path dir sep name :
  isSeparator sep = true -> plainName name ->
  Z.max (JS.lastIndexOf (dir ++ String sep name) "/")
        (JS.lastIndexOf (dir ++ String sep name) "\")
  = zlength dir.
Proof.
  intros Hsep Hname. unfold JS.lastIndexOf.
  rewrite !lastIndexOf_from_app. cbn [JS.lastIndexOf_from].
  rewrite !(lastIndexOf_from_absent name)
    by (assumption || apply slash_not_plain || apply backslash_not_plain).
  destruct (lastIndexOf_from_bound dir "/" 0 (-1) ltac:(lia)) as [B1 B1'].
  destruct (lastIndexOf_from_bound dir "\" 0 (-1) ltac:(lia)) as [B2 B2'].
  unfold isSeparator in Hsep. apply orb_true_iff in Hsep.
  destruct Hsep as [E|E]; rewrite E.
  - destruct (Ascii.eqb sep "\"); lia.
  - destruct (Ascii.eqb sep "/"); lia.
Qed.

Lemma append_snoc dir sep name :
  (dir ++ String sep name)%string = ((dir ++ String sep "") ++ name)%string.
Proof.
  induction dir as [|a dir IH]; cbn; [reflexivity|]. f_equal. exact IH.
Qed.

Lemma getFileName_of_path dir sep name :
  isSeparator sep = true -> plainName name ->
  getFileName (dir ++ String sep name) = name.
Proof.
  intros Hsep Hname. unfold getFileName, JS.substring.
  rewrite lastIndex_of_path by assumption.
  unfold zlength.
  replace (Z.to_nat (Z.of_nat (String.length dir) + 1))
    with (String.length (dir ++ String sep EmptyString)%string)
    by (rewrite length_append; cbn; lia).
  replace (String.length (dir ++ String sep name)
           - String.length (dir ++ String sep ""))%nat
    with (String.length name)
    by (rewrite !length_append; cbn; lia).
  rewrite (append_snoc dir sep name).
  apply substring_skip.
Qed.

Lemma getFileName_plain name : plainName name -> getFileName name = name.
Proof.
  intros Hname. unfold getFileName, JS.substring, JS.lastIndexOf.
  rewrite !(lastIndexOf_from_absent name)
    by (assumption || apply slash_not_plain || apply backslash_not_plain).
  cbn [Z.max Z.add Z.to_nat Z.compare]. rewrite Nat.sub_0_r.
  exact (substring_skip EmptyString name).
Qed.

(** Every path is a plain name, or a directory part, a separator and a
    plain name. *)
Lemma path_split path :
  plainName path
  \/ exists dir sep name,
       path = (dir ++ String sep name)%string
       /\ isSeparator sep = true /\ plainName name.
Proof.
  induction path as [|a path IH].
  - left. exact I.
  - destruct IH as [Hplain | (dir & sep & name & -> & Hsep & Hname)].
    + destruct (isSeparator a) eqn:Ea.
      * right. exists EmptyString, a, path. auto.
      * left. split; assumption.
    + right. exists (String a dir), sep, name. auto.
Qed.


(** X1.  getFileName returns the last component of a path: the result has
    no slash and no backslash, and the path is the result itself or a
    directory part, one separator and the result. *)
Theorem X1_getFileName_last_component :
  forall path,
    plainName (getFileName path)
    /\ (getFileName path = path
        \/ exists dir sep,
             isSeparator sep = true
             /\ path = (dir ++ String sep (getFileName path))%string).
Proof.
  intros path.
  destruct (path_split path)
    as [Hplain | (dir & sep & name & -> & Hsep & Hname)].
  - rewrite (getFileName_plain path Hplain). auto.
  - rewrite (getFileName_of_path dir sep name Hsep Hname).
    split; [exact Hname|]. right. exists dir, sep. auto.
Qed.

(** X2.  Joining a directory and a file name with a slash or a backslash
    and taking getFileName gives the file name back, when the file name has
    no separator in it. *)
Theorem X2_getFileName_of_joined_path :
  forall dir sep name,
    isSeparator sep = true -> plainName name ->
    getFileName (dir ++ String sep name) = name.
Proof. exact getFileName_of_path. Qed.

Lemma X2_witness :
  getFileName ("C:\data/sub" ++ String "\" "big.bin") = "big.bin".
Proof.
  apply (X2_getFileName_of_joined_path "C:\data/sub" "\"%char "big.bin").
  - reflexivity.
  - cbn. repeat split.
Defined.

(** ** config.ts: a second initialisation *)



(** ** The operations that send several requests *)

(** X4.  headBucket sends one HeadBucketCommand and answers true when the
    store accepts it, false when the store rejects it as NoSuchBucket or
    with status 404, and throws the store's error on every other
    rejection. *)
Theorem X4_headBucket_answers :
  forall remote client bucketName w,
    defaultR2Client w = Some client ->
    exists o,
      headBucket remote bucketName w
      = Some (o, with_log w
                   (log w ++ [Send client (HeadBucketCommand bucketName)]))
      /\ (forall r, remote (HeadBucketCommand bucketName) = Ok r ->
          o = Ok true)
      /\ (forall code,
            remote (HeadBucketCommand bucketName)
            = Throw (ServiceError "NoSuchBucket" code) ->
            o = Ok false)
      /\ (forall name,
            remote (HeadBucketCommand bucketName)
            = Throw (ServiceError name (Some 404)) ->
            o = Ok false)
      /\ (forall e,
            remote (HeadBucketCommand bucketName) = Throw e ->
            errorName e <> "NoSuchBucket" ->
            errorStatusCode e <> Some 404 ->
            o = Throw e).
Proof.
  intros remote client bucketName w Hw.
  unfold headBucket, bind at 1, getR2Client. rewrite Hw.
  unfold try_catch, bind at 1, send, bind at 1, emit, lift.
  destruct (remote (HeadBucketCommand bucketName)) as [r|e] eqn:E.
  - eexists. split; [reflexivity|].
    repeat split; intros; congruence.
  - destruct (String.eqb (errorName e) "NoSuchBucket"
              || is404 (errorStatusCode e)) eqn:Ec.
    + eexists. split; [reflexivity|].
      repeat split; intros; try congruence.
      exfalso. apply orb_true_iff in Ec. destruct Ec as [Ec|Ec].
      * apply String.eqb_eq in Ec. congruence.
      * inversion H; subst. unfold is404 in Ec.
        destruct (errorStatusCode e0) as [n|]; [|discriminate].
        apply Z.eqb_eq in Ec. congruence.
    + eexists. split; [reflexivity|].
      apply orb_false_iff in Ec. destruct Ec as [En Es].
      repeat split; intros; try congruence.
      * inversion H; subst. cbn in En. discriminate.
      * inversion H; subst. cbn in Es. discriminate.
Qed.

Lemma X4_witness :
  exists o,
    headBucket
      (fun _ => Throw (ServiceError "AccessDenied" (Some 403)))
      "bucket" readyProcess
    = Some (o, with_log readyProcess
                 (log readyProcess
                  ++ [Send demoClient (HeadBucketCommand "bucket")]))
    /\ o = Throw (ServiceError "AccessDenied" (Some 403)).
Proof.
  destruct (X4_headBucket_answers
              (fun _ => Throw (ServiceError "AccessDenied" (Some 403)))
              demoClient "bucket" readyProcess eq_refl)
    as (o & Hrun & _ & _ & _ & Hother).
  exists o. split; [exact Hrun|].
  apply Hother.
  - reflexivity.
  - cbn. discriminate.
  - cbn. discriminate.
Defined.

Section Pages.

Variable remote : command -> outcome response.
Variable client : S3Client.
Variable bucketName : string.
Variables prefix delimiter : option string.

Lemma listAllObjects_pages pages :
  forall fuel token allObjects w,
    defaultR2Client w = Some client ->
    paged remote bucketName prefix delimiter token pages ->
    (List.length pages <= S fuel)%nat ->
    listAllObjects_from remote fuel bucketName prefix delimiter allObjects
      token w
    = Some (Ok (allObjects ++ flat_map contentsOf pages),
            with_log w
              (log w
               ++ map (fun tk =>
                         Send client
                           (pageCommand bucketName prefix delimiter tk))
                    (pageTokens token pages))).
Proof.
  induction pages as [|r rest IH]; intros fuel token allObjects w Hw Hp Hf;
    [destruct Hp|].
  destruct Hp as (Hr & Hrest).
  assert (Hstep :
    listAllObjects_from remote fuel bucketName prefix delimiter allObjects
      token w
    = (let all := allObjects ++ contentsOf r in
       match rNextContinuationToken r with
       | None | Some EmptyString => ret all
       | Some _ =>
           match fuel with
           | O => out_of_fuel
           | S fuel' =>
               listAllObjects_from remote fuel' bucketName prefix delimiter
                 all (rNextContinuationToken r)
           end
       end)
        (with_log w
           (log w ++ [Send client
                        (pageCommand bucketName prefix delimiter token)]))).
  { destruct fuel; cbn [listAllObjects_from]; unfold bind at 1;
      unfold listObjectsV2; rewrite (request_run remote client _ w Hw);
      fold (pageCommand bucketName prefix delimiter token); rewrite Hr;
      unfold contentsOf; destruct (rContents r);
      rewrite ?app_nil_r; reflexivity. }
  rewrite Hstep. clear Hstep. cbn zeta.
  destruct rest as [|r2 rest].
  - cbn [flat_map pageTokens map]. rewrite app_nil_r.
    destruct Hrest as [E|E]; rewrite E; reflexivity.
  - destruct Hrest as (Hnl & Hp).
    destruct (rNextContinuationToken r) as [[|a s]|] eqn:Et;
      try (exfalso; apply Hnl; unfold lastPage; rewrite Et; auto; fail).
    destruct fuel as [|fuel]; [cbn in Hf; lia|].
    rewrite (IH fuel (Some (String a s)) _ _); cbn [defaultR2Client with_log];
      [| assumption | assumption | cbn in Hf |- *; lia ].
    cbn [flat_map pageTokens map log with_log]. rewrite Et.
    unfold with_log; cbn [defaultR2Client constructed log].
    rewrite <- !app_assoc. reflexivity.
Qed.

(** X5.  When the store answers the unmarked request and then each
    request for the next token with a chain of pages, of which only the last
    has no (or an empty) NextContinuationToken, listAllObjects returns the
    contents of all pages in order and has sent one request per page: the
    first without a token, each next one with the token of the page before
    it. *)
Theorem X5_listAllObjects_joins_pages :
  forall pages fuel w,
    defaultR2Client w = Some client ->
    paged remote bucketName prefix delimiter None pages ->
    (List.length pages <= S fuel)%nat ->
    listAllObjects remote fuel bucketName prefix delimiter w
    = Some (Ok (flat_map contentsOf pages),
            with_log w
              (log w
               ++ map (fun tk =>
                         Send client
                           (pageCommand bucketName prefix delimiter tk))
                    (pageTokens None pages))).
Proof.
  intros pages fuel w Hw Hp Hf. unfold listAllObjects.
  rewrite (listAllObjects_pages pages fuel None [] w Hw Hp Hf).
  reflexivity.
Qed.

Lemma abortEach_all uploads :
  forall results w,
    defaultR2Client w = Some client ->
    (forall upload, In upload (abortable uploads) ->
       exists r, remote (abortCommand bucketName upload) = Ok r) ->
    abortEach remote bucketName uploads results w
    = Some (Ok (results ++ abortable uploads),
            with_log w
              (log w
               ++ map (fun u => Send client (abortCommand bucketName u))
                    (abortable uploads))).
Proof.
  induction uploads as [|[key uid] rest IH]; intros results w Hw Hacc.
  - cbn. rewrite !app_nil_r, with_log_same. reflexivity.
  - assert (Hrest : forall upload, In upload (abortable rest) ->
              exists r, remote (abortCommand bucketName upload) = Ok r).
    { intros u Hu. apply Hacc. unfold abortable. cbn [flat_map].
      apply in_or_app. right. exact Hu. }
    destruct key as [[|a k]|]; try (cbn; apply IH; assumption);
      destruct uid as [[|b u]|]; try (cbn; apply IH; assumption).
    destruct (Hacc (String a k, String b u)) as [r Hr]; [cbn; auto|].
    cbn [abortEach]. unfold bind at 1, abortMultipartUpload.
    rewrite (request_run remote client _ w Hw).
    change (AbortMultipartUploadCommand bucketName (String a k) (String b u))
      with (abortCommand bucketName (String a k, String b u)).
    rewrite Hr.
    rewrite IH; cbn [defaultR2Client with_log log]; [| assumption | assumption].
    unfold abortable; cbn [flat_map app map].
    unfold with_log; cbn [defaultR2Client constructed log].
    rewrite <- !app_assoc. reflexivity.
Qed.

(** X6.  When the store lists the uploads in progress and accepts every
    abort, cleanupMultipartUploads sends one list request, then one abort
    for each listed upload that has a non-empty Key and a non-empty
    UploadId, in the listed order, skips the others, and returns the aborted
    (Key, UploadId) pairs. *)
Theorem X6_cleanup_aborts_listed_uploads :
  forall listed uploads w,
    defaultR2Client w = Some client ->
    remote (listUploadsCommand bucketName) = Ok listed ->
    rUploads listed = Some uploads ->
    (forall upload, In upload (abortable uploads) ->
       exists r, remote (abortCommand bucketName upload) = Ok r) ->
    cleanupMultipartUploads remote bucketName w
    = Some (Ok (abortable uploads),
            with_log w
              (log w
               ++ Send client (listUploadsCommand bucketName)
                  :: map (fun u => Send client (abortCommand bucketName u))
                       (abortable uploads))).
Proof.
  intros listed uploads w Hw Hl Hu Hacc.
  unfold cleanupMultipartUploads, bind at 1, listMultipartUploads.
  rewrite (request_run remote client _ w Hw).
  fold (listUploadsCommand bucketName). rewrite Hl, Hu.
  rewrite abortEach_all; cbn [defaultR2Client with_log log];
    [| assumption | assumption].
  unfold with_log; cbn [defaultR2Client constructed log app].
  rewrite <- !app_assoc. reflexivity.
Qed.

(** X7.  When the store rejects the abort of one listed upload after
    accepting the aborts before it, cleanupMultipartUploads throws that
    error at once: the uploads listed after it are not aborted and the
    pairs already aborted are not returned. *)
Theorem X7_cleanup_stops_at_first_rejection :
  forall listed before key uid after e w,
    defaultR2Client w = Some client ->
    remote (listUploadsCommand bucketName) = Ok listed ->
    rUploads listed = Some (before ++ (Some key, Some uid) :: after) ->
    key <> "" -> uid <> "" ->
    (forall upload, In upload (abortable before) ->
       exists r, remote (abortCommand bucketName upload) = Ok r) ->
    remote (abortCommand bucketName (key, uid)) = Throw e ->
    cleanupMultipartUploads remote bucketName w
    = Some (Throw e,
            with_log w
              (log w
               ++ Send client (listUploadsCommand bucketName)
                  :: map (fun u => Send client (abortCommand bucketName u))
                       (abortable before)
                  ++ [Send client (abortCommand bucketName (key, uid))])).
Proof.
  intros listed before key uid after e w Hw Hl Hu Hk Hi Hacc Hrej.
  unfold cleanupMultipartUploads, bind at 1, listMultipartUploads.
  rewrite (request_run remote client _ w Hw).
  fold (listUploadsCommand bucketName). rewrite Hl, Hu.
  set (w1 := with_log w
               (log w ++ [Send client (listUploadsCommand bucketName)])).
  assert (Hw1 : defaultR2Client w1 = Some client) by exact Hw.
  assert (G : forall results w0,
             defaultR2Client w0 = Some client ->
             abortEach remote bucketName
               (before ++ (Some key, Some uid) :: after) results w0
             = Some (Throw e,
                     with_log w0
                       (log w0
                        ++ map (fun u => Send client (abortCommand bucketName u))
                             (abortable before)
                        ++ [Send client (abortCommand bucketName (key, uid))]))).
  { clear Hu Hl w1 Hw1 Hw w.
    induction before as [|[k0 u0] before IH]; intros results w0 Hw0.
    - destruct key as [|a k]; [contradiction|].
      destruct uid as [|b u]; [contradiction|].
      cbn [app abortEach abortable flat_map map].
      unfold bind at 1, abortMultipartUpload.
      rewrite (request_run remote client _ w0 Hw0).
      change (AbortMultipartUploadCommand bucketName (String a k)
                (String b u))
        with (abortCommand bucketName (String a k, String b u)).
      rewrite Hrej. reflexivity.
    - assert (Hrest : forall upload, In upload (abortable before) ->
                exists r, remote (abortCommand bucketName upload) = Ok r).
      { intros u Hin. apply Hacc. unfold abortable. cbn [flat_map].
        apply in_or_app. right. exact Hin. }
      destruct k0 as [[|a k]|];
        try (cbn [app abortEach abortable flat_map map];
             apply (IH Hrest); assumption);
        destruct u0 as [[|b u]|];
        try (cbn [app abortEach abortable flat_map map];
             apply (IH Hrest); assumption).
      destruct (Hacc (String a k, String b u)) as [r Hr]; [cbn; auto|].
      cbn [app abortEach]. unfold bind at 1, abortMultipartUpload.
      rewrite (request_run remote client _ w0 Hw0).
      change (AbortMultipartUploadCommand bucketName (String a k)
                (String b u))
        with (abortCommand bucketName (String a k, String b u)).
      rewrite Hr.
      rewrite (IH Hrest); cbn [defaultR2Client with_log log];
        [| assumption].
      unfold abortable; cbn [flat_map app map].
      unfold with_log; cbn [defaultR2Client constructed log].
      rewrite <- !app_assoc. reflexivity. }
  rewrite (G [] w1 Hw1).
  unfold w1, with_log; cbn [defaultR2Client constructed log].
  rewrite <- !app_assoc. reflexivity.
Qed.

End Pages.


Lemma X5_witness :
  listAllObjects twoPages 1 "bucket" None None readyProcess
  = Some (Ok [Some "a.txt"; Some "b.txt"; Some "c.txt"],
          with_log readyProcess
            [Send demoClient (pageCommand "bucket" None None None);
             Send demoClient (pageCommand "bucket" None None (Some "page-2"))]).
Proof.
  apply (X5_listAllObjects_joins_pages twoPages demoClient "bucket" None None
           [firstPage; secondPage] 1 readyProcess).
  - reflexivity.
  - cbn. split; [reflexivity|]. split.
    + intros [H|H]; discriminate H.
    + split; [reflexivity | left; reflexivity].
  - cbn. lia.
Defined.

Lemma X6_witness :
  cleanupMultipartUploads (uploadStore []) "bucket" readyProcess
  = Some (Ok [("a.bin", "upload-a"); ("b.bin", "upload-b")],
          with_log readyProcess
            [Send demoClient (listUploadsCommand "bucket");
             Send demoClient (abortCommand "bucket" ("a.bin", "upload-a"));
             Send demoClient (abortCommand "bucket" ("b.bin", "upload-b"))]).
Proof.
  apply (X6_cleanup_aborts_listed_uploads (uploadStore []) demoClient
           "bucket" threeUploads
           [(Some "a.bin", Some "upload-a"); (None, Some "upload-x");
            (Some "b.bin", Some "upload-b")] readyProcess).
  - reflexivity.
  - reflexivity.
  - reflexivity.
  - intros upload _. exists demoResponse. reflexivity.
Defined.

Lemma X7_witness :
  cleanupMultipartUploads (uploadStore ["upload-a"]) "bucket" readyProcess
  = Some (Throw (ServiceError "NoSuchUpload" (Some 404)),
          with_log readyProcess
            [Send demoClient (listUploadsCommand "bucket");
             Send demoClient (abortCommand "bucket" ("a.bin", "upload-a"))]).
Proof.
  apply (X7_cleanup_stops_at_first_rejection (uploadStore ["upload-a"])
           demoClient "bucket" threeUploads [] "a.bin" "upload-a"
           [(None, Some "upload-x"); (Some "b.bin", Some "upload-b")]
           (ServiceError "NoSuchUpload" (Some 404)) readyProcess).
  - reflexivity.
  - reflexivity.
  - reflexivity.
  - discriminate.
  - discriminate.
  - intros upload [].
  - reflexivity.
Defined.

(** ** deleteBucketAndCleanup *)

Lemma skipn_add {A} (l : list A) i :
  skipn (i + 1000) l = skipn 1000 (skipn i l).
Proof. rewrite skipn_skipn. f_equal. lia. Qed.

Lemma batchesFrom_concat keys : forall count i,
  (List.length keys - i <= count)%nat ->
  List.concat (batchesFrom count keys i) = skipn i keys.
Proof.
  induction count as [|count IH]; intros i H; cbn [batchesFrom].
  - cbn. symmetry. apply skipn_all2. lia.
  - destruct (Nat.ltb_spec i (List.length keys)).
    + cbn [List.concat]. rewrite IH by lia.
      rewrite skipn_add. apply firstn_skipn.
    + cbn. symmetry. apply skipn_all2. lia.
Qed.

Lemma batchesFrom_sizes keys : forall count i,
  Forall (fun batch => (1 <= List.length batch <= 1000)%nat)
    (batchesFrom count keys i).
Proof.
  induction count as [|count IH]; intros i; cbn [batchesFrom].
  - constructor.
  - destruct (Nat.ltb_spec i (List.length keys)); [|constructor].
    constructor; [|apply IH].
    rewrite length_firstn, length_skipn. lia.
Qed.

Lemma batchesFrom_more keys : forall count count' i,
  (List.length keys - i <= count)%nat -> (count <= count')%nat ->
  batchesFrom count' keys i = batchesFrom count keys i.
Proof.
  induction count as [|count IH]; intros count' i H Hc.
  - destruct count'; cbn [batchesFrom]; [reflexivity|].
    destruct (Nat.ltb_spec i (List.length keys)); [lia | reflexivity].
  - destruct count' as [|count']; [lia|]. cbn [batchesFrom].
    destruct (Nat.ltb_spec i (List.length keys)); [|reflexivity].
    f_equal. apply IH; lia.
Qed.

Section Batches.

Variable remote : command -> outcome response.
Variable client : S3Client.
Variable bucketName : string.

Lemma deleteBatches_all keys : forall fuel i w,
  defaultR2Client w = Some client ->
  (forall batch, exists r,
     remote (DeleteObjectsCommand bucketName batch false) = Ok r) ->
  (List.length keys - i <= fuel)%nat ->
  deleteBatches remote fuel bucketName keys i w
  = Some (Ok tt,
          with_log w
            (log w
             ++ map (fun batch =>
                       Send client
                         (DeleteObjectsCommand bucketName batch false))
                  (batchesFrom fuel keys i))).
Proof.
  induction fuel as [|fuel IH]; intros i w Hw Hacc Hf;
    cbn [deleteBatches batchesFrom];
    destruct (Nat.ltb_spec i (List.length keys)); try lia;
    try (cbn [map]; rewrite app_nil_r, with_log_same; reflexivity).
  destruct (Hacc (firstn 1000 (skipn i keys))) as [r Hr].
  unfold bind at 1, deleteObjects.
  rewrite (request_run remote client _ w Hw), Hr.
  rewrite IH; cbn [defaultR2Client with_log log];
    [| assumption | assumption | lia].
  cbn [map]. unfold with_log; cbn [defaultR2Client constructed log].
  rewrite <- !app_assoc. reflexivity.
Qed.

(** X8.  When the store lists the objects and accepts every batch delete,
    deleteBucketAndCleanup sends the list request, then DeleteObjects
    requests whose key lists hold between 1 and 1000 keys each and together
    are the listed keys in order, then the DeleteBucket request, whose
    answer it returns. *)
Theorem X8_deleteBucketAndCleanup_batches :
  forall listed fuel w,
    defaultR2Client w = Some client ->
    remote (listAllCommand bucketName) = Ok listed ->
    (forall batch, exists r,
       remote (DeleteObjectsCommand bucketName batch false) = Ok r) ->
    (List.length (contentsOf listed) <= fuel)%nat ->
    let keys := definedKeys (contentsOf listed) in
    deleteBucketAndCleanup remote fuel bucketName w
    = Some (remote (DeleteBucketCommand bucketName),
            with_log w
              (log w
               ++ Send client (listAllCommand bucketName)
                  :: map (fun batch =>
                            Send client
                              (DeleteObjectsCommand bucketName batch false))
                       (batches keys)
                  ++ [Send client (DeleteBucketCommand bucketName)]))
    /\ List.concat (batches keys) = keys
    /\ Forall (fun batch => (1 <= List.length batch <= 1000)%nat)
         (batches keys).
Proof.
  intros listed fuel w Hw Hl Hacc Hf keys.
  assert (Hlen : (List.length keys <= List.length (contentsOf listed))%nat).
  { unfold keys, definedKeys. clear.
    induction (contentsOf listed) as [|[k|] l IH]; cbn; lia. }
  split; [| split].
  - unfold deleteBucketAndCleanup, bind at 1, listObjectsV2.
    rewrite (request_run remote client _ w Hw).
    fold (listAllCommand bucketName). rewrite Hl.
    set (w1 := with_log w (log w ++ [Send client (listAllCommand bucketName)])).
    assert (Hw1 : defaultR2Client w1 = Some client) by exact Hw.
    assert (Hmid :
      match rContents listed with
      | Some (o :: contents) =>
          deleteBatches remote fuel bucketName
            (definedKeys (o :: contents)) 0
      | _ => ret tt
      end w1
      = Some (Ok tt,
              with_log w1
                (log w1
                 ++ map (fun batch =>
                           Send client
                             (DeleteObjectsCommand bucketName batch false))
                      (batches keys)))).
    { unfold keys, contentsOf in *.
      destruct (rContents listed) as [[|o contents]|].
      - cbn. rewrite app_nil_r. reflexivity.
      - rewrite (deleteBatches_all _ fuel 0 w1 Hw1 Hacc) by lia.
        unfold batches.
        rewrite (batchesFrom_more (definedKeys (o :: contents))
                   (List.length (definedKeys (o :: contents))) fuel 0);
          [reflexivity | lia | lia].
      - cbn. rewrite app_nil_r. reflexivity. }
    unfold bind at 1. rewrite Hmid. cbn beta iota.
    unfold deleteBucket.
    match goal with
    | |- _ ?w2 = _ =>
        rewrite (request_run remote client
                   (DeleteBucketCommand bucketName) w2 Hw1)
    end.
    unfold w1, with_log; cbn [defaultR2Client constructed log].
    rewrite <- !app_assoc. reflexivity.
  - unfold batches. rewrite batchesFrom_concat by lia. reflexivity.
  - apply batchesFrom_sizes.
Qed.

End Batches.


Lemma X8_witness :
  deleteBucketAndCleanup objectStore 3 "bucket" readyProcess
  = Some (Ok demoResponse,
          with_log readyProcess
            [Send demoClient (listAllCommand "bucket");
             Send demoClient
               (DeleteObjectsCommand "bucket" ["a.txt"; "b.txt"] false);
             Send demoClient (DeleteBucketCommand "bucket")])
  /\ List.concat (batches ["a.txt"; "b.txt"]) = ["a.txt"; "b.txt"]
  /\ Forall (fun batch => (1 <= List.length batch <= 1000)%nat)
       (batches ["a.txt"; "b.txt"]).
Proof.
  apply (X8_deleteBucketAndCleanup_batches objectStore demoClient "bucket"
           threeObjects 3 readyProcess).
  - reflexivity.
  - reflexivity.
  - intros batch. exists demoResponse. reflexivity.
  - cbn. lia.
Defined.

(** ** Outcomes and logs together *)

Lemma yields_ret {A} (P : outcome A -> list event -> Prop) (a : A) :
  P (Ok a) [] -> yields P (ret a).
Proof.
  intros H w o w' E. inversion E; subst. exists []. rewrite app_nil_r. auto.
Qed.

Lemma yields_throw {A} (P : outcome A -> list event -> Prop) e :
  P (Throw e) [] -> yields P (@throw A e).
Proof.
  intros H w o w' E. inversion E; subst. exists []. rewrite app_nil_r. auto.
Qed.

Lemma yields_out_of_fuel {A} (P : outcome A -> list event -> Prop) :
  yields P (@out_of_fuel A).
Proof. intros w o w' E. discriminate E. Qed.

Lemma yields_bind {A B} (P : outcome A -> list event -> Prop)
    (Q : A -> outcome B -> list event -> Prop)
    (R : outcome B -> list event -> Prop) (m : M A) (k : A -> M B) :
  yields P m -> (forall a, yields (Q a) (k a)) ->
  (forall e e1, P (Throw e) e1 -> R (Throw e) e1) ->
  (forall a e1 o e2, P (Ok a) e1 -> Q a o e2 -> R o (e1 ++ e2)) ->
  yields R (bind m k).
Proof.
  intros Hm Hk Hthrow Hboth w o w' E. unfold bind in E.
  destruct (m w) as [[[a|e] w1]|] eqn:Em; try discriminate.
  - destruct (Hm _ _ _ Em) as (e1 & L1 & P1).
    destruct (Hk a _ _ _ E) as (e2 & L2 & Q2).
    exists (e1 ++ e2). rewrite L2, L1, app_assoc. eauto.
  - inversion E; subst. destruct (Hm _ _ _ Em) as (e1 & L1 & P1).
    exists e1. auto.
Qed.

Lemma yields_try_catch {A} (P : outcome A -> list event -> Prop)
    (Q : error -> outcome A -> list event -> Prop)
    (R : outcome A -> list event -> Prop) (body : M A)
    (handler : error -> M A) :
  yields P body -> (forall e, yields (Q e) (handler e)) ->
  (forall a e1, P (Ok a) e1 -> R (Ok a) e1) ->
  (forall e e1 o e2, P (Throw e) e1 -> Q e o e2 -> R o (e1 ++ e2)) ->
  yields R (try_catch body handler).
Proof.
  intros Hm Hk Hok Hboth w o w' E. unfold try_catch in E.
  destruct (body w) as [[[a|e] w1]|] eqn:Em; try discriminate.
  - inversion E; subst. destruct (Hm _ _ _ Em) as (e1 & L1 & P1).
    exists e1. auto.
  - destruct (Hm _ _ _ Em) as (e1 & L1 & P1).
    destruct (Hk e _ _ _ E) as (e2 & L2 & Q2).
    exists (e1 ++ e2). rewrite L2, L1, app_assoc. eauto.
Qed.

Lemma yields_of_logs {A} (P : list event -> Prop) (m : M A) :
  logs P m -> yields (fun _ => P) m.
Proof. intros H w o w' E. exact (H w o w' E). Qed.

Lemma yields_request remote cmd :
  yields (requested remote cmd) (cl <- getR2Client ;; send remote cl cmd).
Proof.
  intros w o w' E. unfold bind, getR2Client in E.
  destruct (defaultR2Client w) as [client|].
  - unfold send, bind, emit, lift in E. cbn in E.
    assert (E' : o = remote cmd
                 /\ w' = with_log w (log w ++ [Send client cmd]))
      by (destruct (remote cmd); inversion E; auto).
    destruct E' as (-> & ->). exists [Send client cmd].
    split; [reflexivity|]. right. eauto.
  - inversion E; subst. exists []. rewrite app_nil_r.
    split; [reflexivity|]. left. eauto.
Qed.

Section Cleaning.

Variable remote : command -> outcome response.
Variable bucketName : string.

Lemma cleaning_request cmd o evs :
  cmd <> DeleteBucketCommand bucketName ->
  requested remote cmd o evs -> cleaning remote bucketName o evs.
Proof.
  intros Hc [(-> & e & ->) | ((client & ->) & ->)].
  - split; [intros [] | constructor].
  - split.
    + cbn. intros [H|[]]. congruence.
    + intros (r & Hr). cbn. constructor; [|constructor].
      exists r. exact Hr.
Qed.

Lemma cleaning_app {A B} (a : A) (o : outcome B) e1 e2 :
  cleaning remote bucketName (Ok a) e1 -> cleaning remote bucketName o e2 ->
  cleaning remote bucketName o (e1 ++ e2).
Proof.
  intros (N1 & A1) (N2 & A2). split.
  - rewrite sent_app. intros H. apply in_app_or in H. tauto.
  - intros Ho. rewrite sent_app. apply Forall_app. split.
    + apply A1. eauto.
    + apply A2, Ho.
Qed.

Lemma cleaning_throw {A B} e evs :
  cleaning remote bucketName (@Throw A e) evs ->
  cleaning remote bucketName (@Throw B e) evs.
Proof.
  intros (N & _). split; [exact N|]. intros (a & Ha). discriminate.
Qed.

Lemma yields_deleteBatches keys fuel : forall i,
  yields (cleaning remote bucketName)
    (deleteBatches remote fuel bucketName keys i).
Proof.
  induction fuel as [|fuel IH]; intros i; cbn [deleteBatches];
    destruct (i <? List.length keys)%nat;
    try apply yields_out_of_fuel;
    try (apply yields_ret; split; [intros [] | constructor]).
  eapply (yields_bind (requested remote _)
            (fun _ => cleaning remote bucketName)).
  - apply yields_request.
  - intros r. apply IH.
  - intros e e1 H. apply (@cleaning_throw response).
    eapply cleaning_request; [|exact H]. discriminate.
  - intros a e1 o e2 H1 H2. eapply cleaning_app; [|exact H2].
    eapply cleaning_request; [|exact H1]. discriminate.
Qed.

Lemma deletesSafely_cleaning {A} (o : outcome A) evs :
  cleaning remote bucketName o evs -> deletesSafely remote bucketName evs.
Proof. intros (N & _) Hin. contradiction. Qed.

Lemma deletesSafely_after {A} (a : A) e1 e2 :
  cleaning remote bucketName (Ok a) e1 -> deletesSafely remote bucketName e2 ->
  deletesSafely remote bucketName (e1 ++ e2).
Proof.
  intros (N & Hacc) H2 Hin cmd Hcmd. rewrite sent_app in *.
  apply in_app_or in Hin. destruct Hin as [Hin|Hin]; [contradiction|].
  apply in_app_or in Hcmd. destruct Hcmd as [Hcmd|Hcmd].
  - right. specialize (Hacc (ex_intro _ a eq_refl)).
    rewrite Forall_forall in Hacc. apply Hacc, Hcmd.
  - apply H2; assumption.
Qed.

Lemma deletesSafely_request o evs :
  requested remote (DeleteBucketCommand bucketName) o evs ->
  deletesSafely remote bucketName evs.
Proof.
  intros [(-> & _) | ((client & ->) & _)] Hin cmd Hcmd.
  - destruct Hin.
  - cbn in Hcmd. destruct Hcmd as [<-|[]]. left. reflexivity.
Qed.

Lemma yields_deleteBucketAndCleanup fuel :
  yields (fun _ => deletesSafely remote bucketName)
    (deleteBucketAndCleanup remote fuel bucketName).
Proof.
  unfold deleteBucketAndCleanup.
  eapply (yields_bind (requested remote _)
            (fun _ _ => deletesSafely remote bucketName)).
  - apply yields_request.
  - intros objects.
    eapply (yields_bind (cleaning remote bucketName)
              (fun _ => requested remote (DeleteBucketCommand bucketName))).
    + destruct (rContents objects) as [[|ob contents]|];
        try (apply yields_ret; split; [intros [] | constructor]).
      apply yields_deleteBatches.
    + intros u. apply yields_request.
    + intros e e1 H. eapply deletesSafely_cleaning, H.
    + intros a e1 o e2 H1 H2. eapply deletesSafely_after; [exact H1|].
      eapply deletesSafely_request, H2.
  - intros e e1 H. eapply deletesSafely_cleaning.
    eapply (cleaning_request _ (Throw e)); [|exact H]. discriminate.
  - intros a e1 o e2 H1 H2. eapply deletesSafely_after; [|exact H2].
    eapply (cleaning_request _ (Ok a)); [|exact H1]. discriminate.
Qed.

(** X9.  deleteBucketAndCleanup deletes the bucket only after everything
    before went through: in every run in which the DeleteBucket request is
    sent, the list request and every DeleteObjects request sent were
    accepted by the store. *)
Theorem X9_bucket_deleted_only_after_cleanup :
  forall fuel w o w',
    deleteBucketAndCleanup remote fuel bucketName w = Some (o, w') ->
    In (DeleteBucketCommand bucketName) (sent (added w w')) ->
    forall cmd,
      In cmd (sent (added w w')) ->
      cmd = DeleteBucketCommand bucketName \/ accepted remote cmd.
Proof.
  intros fuel w o w' Hrun.
  destruct (yields_deleteBucketAndCleanup fuel w o w' Hrun) as (evs & L & S).
  rewrite (added_of_app _ _ _ L). exact S.
Qed.

End Cleaning.

Lemma X9_witness :
  deleteBucketAndCleanup objectStore 3 "bucket" readyProcess
  = Some (Ok demoResponse,
          with_log readyProcess
            [Send demoClient (listAllCommand "bucket");
             Send demoClient
               (DeleteObjectsCommand "bucket" ["a.txt"; "b.txt"] false);
             Send demoClient (DeleteBucketCommand "bucket")])
  /\ Forall (fun cmd =>
               cmd = DeleteBucketCommand "bucket"
               \/ accepted objectStore cmd)
       [listAllCommand "bucket";
        DeleteObjectsCommand "bucket" ["a.txt"; "b.txt"] false;
        DeleteBucketCommand "bucket"].
Proof.
  split; [reflexivity|].
  apply Forall_forall.
  apply (X9_bucket_deleted_only_after_cleanup objectStore "bucket" 3
           readyProcess (Ok demoResponse)
           (with_log readyProcess
              [Send demoClient (listAllCommand "bucket");
               Send demoClient
                 (DeleteObjectsCommand "bucket" ["a.txt"; "b.txt"] false);
               Send demoClient (DeleteBucketCommand "bucket")])).
  - reflexivity.
  - cbn. auto.
Defined.


(** ** The shape of every upload *)

Section LoopShape.

Variable remote : command -> outcome response.
Variables bucket fileName uid : string.
Variables t c : Z.
Variable progress : Z -> M unit.
Hypothesis progress_silent : forall j, logs silent (progress j).

Lemma yields_uploadParts fuel : forall i parts,
  yields (loopShape remote bucket fileName uid t c i parts)
    (uploadParts remote bucket fileName uid t c progress fuel i parts).
Proof.
  induction fuel as [|fuel IH]; intros i parts; cbn [uploadParts];
    destruct (JS.ltb (inject_Z i) (JS.div (inject_Z t) (inject_Z c)));
    try apply yields_out_of_fuel;
    try (apply yields_ret; exists 0%nat; split; [reflexivity|];
         intros parts' E; inversion E; subst;
         cbn; rewrite app_nil_r; auto).
  set (cmd := UploadPartCommand bucket fileName uid (i + 1)
                (slice t (i * c)
                   (if (i + 1) * c >? t then t else (i + 1) * c))).
  assert (Ecmd : cmd = partRequest bucket fileName uid t c (i + 1)).
  { unfold cmd, partRequest, partBody.
    replace (i + 1 - 1) with i by lia. reflexivity. }
  eapply (yields_bind (requested remote cmd)
            (fun r o evs =>
               remote cmd = Ok r ->
               exists k,
                 sent evs
                 = map (partRequest bucket fileName uid t c)
                     (zrange (i + 1 + 1) k)
                 /\ forall parts', o = Ok parts' ->
                      parts' = (parts
                                ++ [pushedRecord remote bucket fileName uid
                                      t c (i + 1)])
                               ++ map (pushedRecord remote bucket fileName
                                         uid t c) (zrange (i + 1 + 1) k)
                      /\ Forall (fun j =>
                                   accepted remote
                                     (partRequest bucket fileName uid t c j))
                           (zrange (i + 1 + 1) k))).
  - apply yields_request.
  - intros r.
    eapply (yields_bind (fun _ => silent)
              (fun _ => loopShape remote bucket fileName uid t c (i + 1)
                          (parts ++ [{| PartNumber := i + 1;
                                        ETag := rETag r |}]))).
    + apply yields_of_logs, progress_silent.
    + intros u. apply IH.
    + intros e e1 Hs Hr. exists 0%nat. split; [exact Hs|].
      intros parts' E. discriminate E.
    + intros u e1 o e2 Hs (k & Hk & Hp) Hr. exists k. split.
      * rewrite sent_app, Hs. exact Hk.
      * intros parts' E. specialize (Hp parts' E).
        unfold pushedRecord at 1. rewrite <- Ecmd, Hr. exact Hp.
  - intros e e1 [(-> & _) | ((client & ->) & Ho)].
    + exists 0%nat. split; [reflexivity|]. intros parts' E. discriminate E.
    + exists 1%nat. split; [cbn; rewrite Z.add_0_r, Ecmd; reflexivity|].
      intros parts' E. discriminate E.
  - intros r e1 o e2 [(_ & e & He) | ((client & ->) & Ho)] H;
      [discriminate He|].
    destruct (H (eq_sym Ho)) as (k & Hk & Hp).
    exists (S k). rewrite zrange_S. split.
    + cbn [app sent flat_map map]. fold (sent e2). rewrite Hk, Ecmd.
      reflexivity.
    + intros parts' E. destruct (Hp parts' E) as (E1 & E2). split.
      * rewrite E1, <- app_assoc. reflexivity.
      * constructor; [|exact E2]. rewrite <- Ecmd. exists r. auto.
Qed.

End LoopShape.


Section UploadShape.

Variable remote : command -> outcome response.
Variables bucket fileName : string.
Variables t c : Z.

Lemma uploadShape_after_create created o e1 e2 :
  requested remote (createCommand bucket fileName) o e1 ->
  o = Ok created ->
  afterCreate remote bucket fileName t c created (sent e2) ->
  uploadShape remote bucket fileName t c (sent (e1 ++ e2)).
Proof.
  intros [(_ & e & He) | ((client & ->) & Ho)] Eo H; [congruence|].
  rewrite sent_app. cbn [sent flat_map app]. fold (sent e2).
  destruct H as [-> | (uid & k & tail & Hu & Hne & Hs & Ht)].
  - right. left. reflexivity.
  - right. right. exists created, uid, k, tail.
    rewrite Hs. repeat split; try assumption. congruence.
Qed.

Lemma uploadShape_create_only o e1 :
  requested remote (createCommand bucket fileName) o e1 ->
  uploadShape remote bucket fileName t c (sent e1).
Proof.
  intros [(-> & _) | ((client & ->) & _)].
  - left. reflexivity.
  - right. left. reflexivity.
Qed.

Lemma logs_silent_pair (m1 m2 : M unit) :
  logs silent m1 -> logs silent m2 -> logs silent (m1 ;;; m2).
Proof.
  intros H1 H2. apply (logs_bind silent silent silent); auto using silent_app.
Qed.

Variable progress : Z -> M unit.
Hypothesis progress_silent : forall j, logs silent (progress j).

(** The part of an upload after an accepted create request with upload id
    [uid]: the loop, the completion request and what [wrapUp] shows. *)
Lemma yields_parts_then_complete uid fuel (wrapUp : M unit) created :
  rUploadId created = Some uid -> uid <> "" ->
  logs silent wrapUp ->
  yields (fun _ evs =>
            afterCreate remote bucket fileName t c created (sent evs))
    (parts <- uploadParts remote bucket fileName uid t c progress fuel 0 [] ;;
     result <- completeMultipartUpload remote bucket fileName uid parts ;;
     wrapUp).
Proof.
  intros Hu Hne Hwrap.
  eapply (yields_bind (loopShape remote bucket fileName uid t c 0 [])
            (fun parts _ evs =>
               sent evs = []
               \/ sent evs = [completeCommand bucket fileName uid parts])).
  - apply yields_uploadParts. exact progress_silent.
  - intros parts.
    eapply (yields_bind
              (requested remote (completeCommand bucket fileName uid parts))
              (fun _ _ => silent)).
    + apply yields_request.
    + intros r. apply yields_of_logs. exact Hwrap.
    + intros e e1 [(-> & _) | ((client & ->) & _)]; auto.
    + intros r e1 o e2 [(-> & _) | ((client & ->) & _)] Hs;
        rewrite sent_app, Hs; auto.
  - intros e e1 (k & Hk & _). right. exists uid, k, [].
    rewrite app_nil_r. auto.
  - intros parts e1 o e2 (k & Hk & Hp) H.
    destruct (Hp parts eq_refl) as (Ep & Hacc). cbn [app] in Ep.
    right. exists uid, k. rewrite sent_app, Hk.
    destruct H as [-> | ->].
    + exists []. auto.
    + eexists. repeat split; try assumption.
      right. split; [rewrite Ep; reflexivity | exact Hacc].
Qed.

End UploadShape.

Lemma yields_Cli_multipartUpload remote fileSize fuel bucket filePath
    option_ :
  yields (fun _ evs =>
            uploadShape remote bucket (uploadName option_ filePath)
              (sizeAt fileSize filePath) (Cli.effectiveChunkSize option_)
              (sent evs))
    (Cli.multipartUpload remote fileSize fuel bucket filePath option_).
Proof.
  unfold Cli.multipartUpload, readFile, sizeAt.
  destruct (fileSize filePath) as [n|].
  2:{ intros w o w' E. inversion E; subst. exists [].
      rewrite app_nil_r. split; [reflexivity | left; reflexivity]. }
  intros w o w' E.
  change (bind (ret (Z.of_N n)) ?k w) with (k (Z.of_N n) w) in E.
  revert w o w' E.
  set (t := Z.of_N n). set (c := Cli.effectiveChunkSize option_).
  fold (uploadName option_ filePath).
  set (name := uploadName option_ filePath).
  eapply (yields_try_catch
            (fun _ evs => uploadShape remote bucket name t c (sent evs))
            (fun _ _ => silent)).
  - eapply (yields_bind (requested remote (createCommand bucket name))
              (fun created _ evs => afterCreate remote bucket name t c
                                      created (sent evs))).
    + apply yields_request.
    + intros created.
      destruct (rUploadId created) as [[|a s]|] eqn:Eu;
        try (apply yields_throw; left; reflexivity).
      eapply (yields_bind (fun _ => silent)
                (fun _ _ evs => afterCreate remote bucket name t c created
                                  (sent evs))).
      * apply yields_of_logs, logs_emit. reflexivity.
      * intros u.
        apply (yields_parts_then_complete remote bucket name t c
                 (Cli.progress t c) (logs_Cli_progress t c) (String a s)
                 fuel _ created Eu).
        -- discriminate.
        -- repeat apply logs_silent_pair; apply logs_emit; reflexivity.
      * intros e e1 Hs. left. exact Hs.
      * intros u e1 o e2 Hs H. rewrite sent_app, Hs. exact H.
    + intros e e1 H. eapply uploadShape_create_only, H.
    + intros created e1 o e2 H1 H2.
      destruct H1 as [(_ & e & He) | ((client & ->) & Ho)]; [discriminate|].
      eapply uploadShape_after_create; [| symmetry; exact Ho | exact H2].
      right. eauto.
  - intros e. apply yields_of_logs.
    apply logs_silent_pair; apply logs_emit; reflexivity.
  - intros a e1 H. exact H.
  - intros e e1 o e2 H Hs. rewrite sent_app, Hs, app_nil_r. exact H.
Qed.

(** X10.  In every run of the command-line tool's multipartUpload,
    whatever the store answers, the requests sent are: none; or the create
    request alone; or the create request, accepted with a non-empty upload
    id, then the requests for parts 1, 2, .., k in that order, all for the
    same bucket, the same key and that upload id, then at most one
    completion request. *)
Theorem X10_upload_requests_in_order :
  forall remote fileSize fuel bucket filePath option_ w o w',
    Cli.multipartUpload remote fileSize fuel bucket filePath option_ w
    = Some (o, w') ->
    uploadShape remote bucket (uploadName option_ filePath)
      (sizeAt fileSize filePath) (Cli.effectiveChunkSize option_)
      (sent (added w w')).
Proof.
  intros remote fileSize fuel bucket filePath option_ w o w' Hrun.
  destruct (yields_Cli_multipartUpload _ _ _ _ _ _ _ _ _ Hrun)
    as (evs & L & S).
  rewrite (added_of_app _ _ _ L). exact S.
Qed.

Lemma X10_witness :
  uploadShape (rejectPart 2) "bucket" "big.bin" 250000000 50000000
    [createCommand "bucket" "big.bin";
     partRequest "bucket" "big.bin" "upload-1" 250000000 50000000 1;
     partRequest "bucket" "big.bin" "upload-1" 250000000 50000000 2].
Proof.
  apply (X10_upload_requests_in_order (rejectPart 2) (oneFile 250000000) 5
           "bucket" "/data/big.bin" (withChunkSize 50000000) readyProcess
           (Ok tt)
           (with_log readyProcess
              (CliLog.opening demoClient "bucket" "big.bin"
               ++ flat_map
                    (partEvents "bucket" "big.bin" "upload-1" 250000000
                       50000000 demoClient
                       (CliLog.shown 250000000 50000000)) [1]
               ++ [Send demoClient
                     (partCommand "bucket" "big.bin" "upload-1" 250000000
                        50000000 2);
                   LoadingFail; Input]))).
  vm_compute. reflexivity.
Defined.


(** X11.  Whenever a run of multipartUpload sends a completion request, it
    sends exactly one, after all part requests; its part list has one
    record per part request sent, in the same order, with part numbers
    1, .., k and, for each part, the ETag of the store's answer to that
    part's request; and the store accepted every one of these parts. *)
Theorem X11_completion_lists_the_uploaded_parts :
  forall remote fileSize fuel bucket filePath option_ w o w',
    Cli.multipartUpload remote fileSize fuel bucket filePath option_ w
    = Some (o, w') ->
    completions (added w w') <> [] ->
    exists uid parts,
      completions (added w w') = [parts]
      /\ map PartNumber parts = map fst (uploadedParts (added w w'))
      /\ map PartNumber parts = zrange 1 (List.length parts)
      /\ Forall (fun record =>
                   exists r,
                     remote (partRequest bucket (uploadName option_ filePath)
                               uid (sizeAt fileSize filePath)
                               (Cli.effectiveChunkSize option_)
                               (PartNumber record))
                     = Ok r
                     /\ ETag record = rETag r) parts.
Proof.
  intros remote fileSize fuel bucket filePath option_ w o w' Hrun Hc.
  destruct (yields_Cli_multipartUpload _ _ _ _ _ _ _ _ _ Hrun)
    as (evs & L & S).
  rewrite (added_of_app _ _ _ L) in *. clear L.
  unfold completions, uploadedParts in *.
  set (name := uploadName option_ filePath) in *.
  set (t := sizeAt fileSize filePath) in *.
  set (c := Cli.effectiveChunkSize option_) in *.
  assert (Hparts : forall uid k,
            flat_map (fun cmd => match cmd with
                                 | UploadPartCommand _ _ _ n b => [(n, b)]
                                 | _ => []
                                 end)
              (map (partRequest bucket name uid t c) (zrange 1 k))
            = map (fun j => (j, partBody t c j)) (zrange 1 k)).
  { intros uid k. induction (zrange 1 k) as [|j l IH]; cbn; [reflexivity|].
    f_equal. exact IH. }
  assert (Hnone : forall uid k,
            flat_map (fun cmd => match cmd with
                                 | CompleteMultipartUploadCommand _ _ _ ps =>
                                     [ps]
                                 | _ => []
                                 end)
              (map (partRequest bucket name uid t c) (zrange 1 k))
            = []).
  { intros uid k. induction (zrange 1 k) as [|j l IH]; cbn; [reflexivity|].
    exact IH. }
  destruct S
    as [S | [S | (created & uid & k & tail & Hcr & Hu & Hne & S & Ht)]];
    try (rewrite S in Hc; cbn in Hc; congruence).
  rewrite S in *. cbn [flat_map app] in *.
  rewrite flat_map_app, Hnone in *. rewrite flat_map_app, Hparts.
  destruct Ht as [-> | (-> & Hacc)]; [cbn in Hc; congruence|].
  exists uid, (map (pushedRecord remote bucket name uid t c) (zrange 1 k)).
  unfold createCommand, completeCommand. cbn [flat_map app].
  rewrite !app_nil_r, !map_map. cbn [PartNumber pushedRecord fst].
  rewrite length_map, zrange_length, map_id.
  split; [reflexivity|]. split; [reflexivity|]. split; [reflexivity|].
  apply Forall_forall. intros record Hin.
  apply in_map_iff in Hin. destruct Hin as (j & <- & Hj).
  rewrite Forall_forall in Hacc. destruct (Hacc j Hj) as (r & Hr).
  exists r. cbn [PartNumber ETag pushedRecord]. rewrite Hr. auto.
Qed.

Lemma X11_witness :
  exists out w',
    Cli.multipartUpload acceptAll (oneFile 250000000) 5 "bucket"
      "/data/big.bin" (withChunkSize 50000000) readyProcess
    = Some (out, w')
    /\ completions (added readyProcess w') <> []
    /\ exists uid parts,
         completions (added readyProcess w') = [parts]
         /\ map PartNumber parts
            = map fst (uploadedParts (added readyProcess w'))
         /\ map PartNumber parts = zrange 1 (List.length parts)
         /\ Forall (fun record =>
                      exists r,
                        acceptAll
                          (partRequest "bucket"
                             (uploadName (withChunkSize 50000000)
                                "/data/big.bin")
                             uid
                             (sizeAt (oneFile 250000000) "/data/big.bin")
                             (Cli.effectiveChunkSize
                                (withChunkSize 50000000))
                             (PartNumber record))
                        = Ok r
                        /\ ETag record = rETag r) parts.
Proof.
  destruct (Cli.multipartUpload acceptAll (oneFile 250000000) 5 "bucket"
              "/data/big.bin" (withChunkSize 50000000) readyProcess)
    as [[out w']|] eqn:E; [| vm_compute in E; discriminate E].
  assert (Hc : completions (added readyProcess w') <> []).
  { pose proof E as E'. vm_compute in E'. injection E' as _ <-.
    vm_compute. discriminate. }
  exists out, w'. split; [reflexivity|]. split; [exact Hc|].
  exact (X11_completion_lists_the_uploaded_parts _ _ _ _ _ _ _ _ _ E Hc).
Defined.


(** ** Verdicts and display of an upload *)

Lemma verdicts_app l1 l2 : verdicts (l1 ++ l2) = verdicts l1 ++ verdicts l2.
Proof. apply filter_app. Qed.

Lemma shownBars_app l1 l2 :
  shownBars (l1 ++ l2) = shownBars l1 ++ shownBars l2.
Proof. apply flat_map_app. Qed.


Ltac listed := cbn; repeat first [left; reflexivity | right].

Section Closed.

Variable P : list event -> Prop.
Hypothesis P_nil : P [].
Hypothesis P_app : forall e1 e2, P e1 -> P e2 -> P (e1 ++ e2).
Hypothesis P_send : forall client cmd, P [Send client cmd].

Lemma closed_sendsOnly cmd evs : sendsOnly cmd evs -> P evs.
Proof. intros [-> | (client & ->)]; auto. Qed.

Lemma logs_uploadParts_closed remote bucket fileName uid t c progress :
  (forall j, logs P (progress j)) ->
  forall fuel i parts,
    logs P (uploadParts remote bucket fileName uid t c progress fuel i parts).
Proof.
  intros Hp. induction fuel as [|fuel IH]; intros i parts; cbn [uploadParts];
    destruct (JS.ltb (inject_Z i) (JS.div (inject_Z t) (inject_Z c)));
    try (apply logs_ret; exact P_nil); try apply logs_out_of_fuel.
  eapply (logs_bind (sendsOnly _) P P).
  - apply logs_wrapper.
  - intros r. apply (logs_bind P P P); auto.
  - apply closed_sendsOnly.
  - intros e1 e2 H1 H2. apply P_app; [eapply closed_sendsOnly, H1 | exact H2].
Qed.

Lemma logs_Cli_multipartUpload_closed remote fileSize fuel bucket filePath
    option_ :
  (forall e,
     In e [LoadingStart {| filled := 0; unfilled := 50 |} 0; ConsoleLog;
           LoadingSucceed; LoadingFail; Input] -> P [e]) ->
  (forall j,
     logs P (Cli.progress (sizeAt fileSize filePath)
               (Cli.effectiveChunkSize option_) j)) ->
  logs P (Cli.multipartUpload remote fileSize fuel bucket filePath option_).
Proof.
  intros He Hp. unfold Cli.multipartUpload, readFile.
  unfold sizeAt in Hp.
  destruct (fileSize filePath) as [n|];
    [| intros w o w' E; inversion E; subst; exists [];
       rewrite app_nil_r; auto ].
  apply logs_bind_ret.
  apply (logs_try_catch P P P); auto.
  2:{ intros e. apply (logs_bind P P P); auto;
        [| intros _]; apply logs_emit, He; listed. }
  eapply (logs_bind (sendsOnly _) P P).
  - apply logs_wrapper.
  - intros created.
    destruct (rUploadId created) as [[|a s]|];
      try (apply logs_throw; exact P_nil).
    apply (logs_bind P P P); auto.
    { apply logs_emit, He; listed. }
    intros _. apply (logs_bind P P P); auto.
    { apply logs_uploadParts_closed. exact Hp. }
    intros parts. eapply (logs_bind (sendsOnly _) P P).
    + apply logs_wrapper.
    + intros _.
      repeat (apply (logs_bind P P P); auto;
              [apply logs_emit, He; listed | intros _]).
      apply logs_emit, He; listed.
    + apply closed_sendsOnly.
    + intros e1 e2 H1 H2. apply P_app; [eapply closed_sendsOnly, H1 | exact H2].
  - apply closed_sendsOnly.
  - intros e1 e2 H1 H2. apply P_app; [eapply closed_sendsOnly, H1 | exact H2].
Qed.

Lemma logs_Example_multipartUpload_closed remote fileSize fuel bucket
    filePath option_ :
  (forall e, In e [ConsoleLog; StdoutClear] -> P [e]) ->
  (forall e, P [ConsoleError e]) ->
  (forall j,
     logs P (Example.progress (sizeAt fileSize filePath)
               (Example.effectiveChunkSize option_) j)) ->
  logs P (Example.multipartUpload remote fileSize fuel bucket filePath
            option_).
Proof.
  intros He Herr Hp. unfold Example.multipartUpload, readFile.
  unfold sizeAt in Hp.
  destruct (fileSize filePath) as [n|];
    [| intros w o w' E; inversion E; subst; exists [];
       rewrite app_nil_r; auto ].
  apply logs_bind_ret.
  apply (logs_bind P P P); auto.
  { apply logs_emit, He; listed. }
  intros _.
  apply (logs_try_catch P P P); auto.
  2:{ intros e. apply logs_emit, Herr. }
  eapply (logs_bind (sendsOnly _) P P).
  - apply logs_wrapper.
  - intros created.
    apply (logs_bind P P P); auto.
    { apply logs_emit, He; listed. }
    intros _.
    destruct (rUploadId created) as [[|a s]|];
      try (apply logs_throw; exact P_nil).
    apply (logs_bind P P P); auto.
    { apply logs_uploadParts_closed. exact Hp. }
    intros parts. eapply (logs_bind (sendsOnly _) P P).
    + apply logs_wrapper.
    + intros _.
      repeat (apply (logs_bind P P P); auto;
              [apply logs_emit, He; listed | intros _]).
      apply logs_emit, He; listed.
    + apply closed_sendsOnly.
    + intros e1 e2 H1 H2. apply P_app; [eapply closed_sendsOnly, H1 | exact H2].
  - apply closed_sendsOnly.
  - intros e1 e2 H1 H2. apply P_app; [eapply closed_sendsOnly, H1 | exact H2].
Qed.

End Closed.

(** What one refresh of the display adds to the log. *)
Lemma logs_Cli_progress_text t c j :
  logs (fun evs =>
          evs = []
          \/ (0 <= barCells j t c <= 50 /\ evs = CliLog.shown t c j))
    (Cli.progress t c j).
Proof.
  intros w o w' E.
  destruct (Z_lt_ge_dec (barCells j t c) 0) as [Hneg|Hpos].
  - exists []. rewrite app_nil_r. split; [|auto].
    unfold Cli.progress, drawBar, bind, lift, JS.repeat in E.
    destruct (Z.ltb_spec (barCells j t c) 0); [|lia].
    inversion E; reflexivity.
  - destruct (Z_le_gt_dec (barCells j t c) 50) as [Hfit|Hover].
    + rewrite Cli_progress_fits in E by lia. inversion E; subst.
      eexists. split; [reflexivity|]. right. split; [lia | reflexivity].
    + rewrite Cli_progress_overflows in E by lia. inversion E; subst.
      exists []. rewrite app_nil_r. auto.
Qed.

Lemma logs_Example_progress_text t c j :
  logs (fun evs =>
          evs = []
          \/ (0 <= barCells j t c <= 50 /\ evs = ExampleLog.shown t c j))
    (Example.progress t c j).
Proof.
  intros w o w' E.
  destruct (Z_lt_ge_dec (barCells j t c) 0) as [Hneg|Hpos].
  - exists []. rewrite app_nil_r. split; [|auto].
    unfold Example.progress, drawBar, bind, lift, JS.repeat in E.
    destruct (Z.ltb_spec (barCells j t c) 0); [|lia].
    inversion E; reflexivity.
  - destruct (Z_le_gt_dec (barCells j t c) 50) as [Hfit|Hover].
    + rewrite Example_progress_fits in E by lia. inversion E; subst.
      eexists. split; [reflexivity|]. right. split; [lia | reflexivity].
    + rewrite Example_progress_overflows in E by lia. inversion E; subst.
      exists []. rewrite app_nil_r. auto.
Qed.

Lemma logs_weaken {A} (P Q : list event -> Prop) (m : M A) :
  (forall evs, P evs -> Q evs) -> logs P m -> logs Q m.
Proof.
  intros H Hm w o w' E. destruct (Hm w o w' E) as (evs & L & HP).
  exists evs. auto.
Qed.

Lemma fullWidth_barOf j t c :
  0 <= barCells j t c <= 50 -> fullWidth (barOf j t c).
Proof. intros H. unfold fullWidth, barOf; cbn [filled unfilled]. lia. Qed.

Lemma fullWidthBars_app e1 e2 :
  fullWidthBars e1 -> fullWidthBars e2 -> fullWidthBars (e1 ++ e2).
Proof.
  unfold fullWidthBars. intros H1 H2. rewrite shownBars_app.
  apply Forall_app. auto.
Qed.

(** X13.  Neither upload ever shows a bar that is not 50 cells wide: in
    every run of multipartUpload, of the command-line tool and of the
    example script, whatever the store answers and whatever the sizes, each
    bar displayed (by loading.start, loading.text or process.stdout.write)
    has filled + unfilled = 50 cells. *)
Theorem X13_bars_are_50_cells_wide :
  forall remote fileSize fuel bucket filePath option_,
    (forall w o w',
       Cli.multipartUpload remote fileSize fuel bucket filePath option_ w
       = Some (o, w') ->
       Forall fullWidth (shownBars (added w w')))
    /\ (forall w o w',
          Example.multipartUpload remote fileSize fuel bucket filePath
            option_ w
          = Some (o, w') ->
          Forall fullWidth (shownBars (added w w'))).
Proof.
  intros remote fileSize fuel bucket filePath option_.
  assert (Hsend : forall client cmd, fullWidthBars [Send client cmd])
    by (intros; constructor).
  split; intros w o w' Hrun.
  - destruct (logs_Cli_multipartUpload_closed fullWidthBars
                ltac:(constructor) fullWidthBars_app Hsend
                remote fileSize fuel bucket filePath option_) with
      (w := w) (o := o) (w' := w') as (evs & L & H); try assumption.
    + intros e He. cbn in He.
      repeat (destruct He as [<- | He]; [repeat constructor|]).
      destruct He.
    + intros j. eapply logs_weaken; [| apply logs_Cli_progress_text].
      intros evs [-> | (Hb & ->)]; [constructor|].
      repeat constructor. apply fullWidth_barOf, Hb.
    + rewrite (added_of_app _ _ _ L). exact H.
  - destruct (logs_Example_multipartUpload_closed fullWidthBars
                ltac:(constructor) fullWidthBars_app Hsend
                remote fileSize fuel bucket filePath option_) with
      (w := w) (o := o) (w' := w') as (evs & L & H); try assumption.
    + intros e He. cbn in He.
      repeat (destruct He as [<- | He]; [repeat constructor|]).
      destruct He.
    + intros e. constructor.
    + intros j. eapply logs_weaken; [| apply logs_Example_progress_text].
      intros evs [-> | (Hb & ->)]; [constructor|].
      repeat constructor. apply fullWidth_barOf, Hb.
    + rewrite (added_of_app _ _ _ L). exact H.
Qed.

Lemma X13_witness :
  exists out w',
    Cli.multipartUpload acceptAll (oneFile 125000000) 3 "bucket"
      "/data/big.bin" (withChunkSize 50000000) readyProcess
    = Some (out, w')
    /\ Forall fullWidth (shownBars (added readyProcess w')).
Proof.
  destruct (Cli.multipartUpload acceptAll (oneFile 125000000) 3 "bucket"
              "/data/big.bin" (withChunkSize 50000000) readyProcess)
    as [[out w']|] eqn:E; [| vm_compute in E; discriminate E].
  exists out, w'. split; [reflexivity|].
  exact (proj1 (X13_bars_are_50_cells_wide _ _ _ _ _ _) _ _ _ E).
Defined.

Lemma yields_Example_multipartUpload remote fileSize fuel bucket filePath
    option_ :
  yields (fun _ evs =>
            uploadShape remote bucket (uploadName option_ filePath)
              (sizeAt fileSize filePath) (Example.effectiveChunkSize option_)
              (sent evs))
    (Example.multipartUpload remote fileSize fuel bucket filePath option_).
Proof.
  unfold Example.multipartUpload, readFile, sizeAt.
  destruct (fileSize filePath) as [n|].
  2:{ intros w o w' E. inversion E; subst. exists [].
      rewrite app_nil_r. split; [reflexivity | left; reflexivity]. }
  intros w o w' E.
  change (bind (ret (Z.of_N n)) ?k w) with (k (Z.of_N n) w) in E.
  revert w o w' E.
  set (t := Z.of_N n). set (c := Example.effectiveChunkSize option_).
  fold (uploadName option_ filePath).
  set (name := uploadName option_ filePath).
  eapply (yields_bind (fun _ => silent)
            (fun _ _ evs => uploadShape remote bucket name t c (sent evs))).
  { apply yields_of_logs, logs_emit. reflexivity. }
  2:{ intros e e1 Hs. left. exact Hs. }
  2:{ intros u e1 o e2 Hs H. rewrite sent_app, Hs. exact H. }
  intros u0.
  eapply (yields_try_catch
            (fun _ evs => uploadShape remote bucket name t c (sent evs))
            (fun _ _ => silent)).
  - eapply (yields_bind (requested remote (createCommand bucket name))
              (fun created _ evs => afterCreate remote bucket name t c
                                      created (sent evs))).
    + apply yields_request.
    + intros created.
      eapply (yields_bind (fun _ => silent)
                (fun _ _ evs => afterCreate remote bucket name t c created
                                  (sent evs))).
      * apply yields_of_logs, logs_emit. reflexivity.
      * intros u.
        destruct (rUploadId created) as [[|a s]|] eqn:Eu;
          try (apply yields_throw; left; reflexivity).
        apply (yields_parts_then_complete remote bucket name t c
                 (Example.progress t c) (logs_Example_progress t c)
                 (String a s) fuel _ created Eu).
        -- discriminate.
        -- apply logs_silent_pair; apply logs_emit; reflexivity.
      * intros e e1 Hs. left. exact Hs.
      * intros u e1 o e2 Hs H. rewrite sent_app, Hs. exact H.
    + intros e e1 H. eapply uploadShape_create_only, H.
    + intros created e1 o e2 H1 H2.
      destruct H1 as [(_ & e & He) | ((client & ->) & Ho)]; [discriminate|].
      eapply uploadShape_after_create; [| symmetry; exact Ho | exact H2].
      right. eauto.
  - intros e. apply yields_of_logs. apply logs_emit. reflexivity.
  - intros a e1 H. exact H.
  - intros e e1 o e2 H Hs. rewrite sent_app, Hs, app_nil_r. exact H.
Qed.

(** X15.  The example script's multipartUpload sends its requests in the
    same order as the command-line tool's: in every run, whatever the store
    answers, nothing; or the create request alone; or the create request,
    accepted with a non-empty upload id, then the requests for parts
    1, 2, .., k in that order under that upload id, then at most one
    completion request, which lists the records of exactly these k parts,
    all accepted. *)
Theorem X15_example_upload_requests_in_order :
  forall remote fileSize fuel bucket filePath option_ w o w',
    Example.multipartUpload remote fileSize fuel bucket filePath option_ w
    = Some (o, w') ->
    uploadShape remote bucket (uploadName option_ filePath)
      (sizeAt fileSize filePath) (Example.effectiveChunkSize option_)
      (sent (added w w')).
Proof.
  intros remote fileSize fuel bucket filePath option_ w o w' Hrun.
  destruct (yields_Example_multipartUpload _ _ _ _ _ _ _ _ _ Hrun)
    as (evs & L & S).
  rewrite (added_of_app _ _ _ L). exact S.
Qed.

Lemma X15_witness :
  exists out w',
    Example.multipartUpload (rejectPart 2) (oneFile 12000000) 3 "bucket"
      "/data/big.bin" None readyProcess
    = Some (out, w')
    /\ uploadShape (rejectPart 2) "bucket"
         (uploadName None "/data/big.bin")
         (sizeAt (oneFile 12000000) "/data/big.bin")
         (Example.effectiveChunkSize None)
         (sent (added readyProcess w')).
Proof.
  destruct (Example.multipartUpload (rejectPart 2) (oneFile 12000000) 3
              "bucket" "/data/big.bin" None readyProcess)
    as [[out w']|] eqn:E; [| vm_compute in E; discriminate E].
  exists out, w'. split; [reflexivity|].
  exact (X15_example_upload_requests_in_order _ _ _ _ _ _ _ _ _ E).
Defined.

Lemma yields_emit_ok (e : event) :
  silent [e] -> yields (fun o evs => o = Ok tt /\ silent evs) (emit e).
Proof.
  intros H w o w' E. inversion E; subst.
  exists [e]. split; [reflexivity | split; [reflexivity | exact H]].
Qed.

Lemma putShape_request remote bucket fileName size o evs :
  requested remote (putCommand bucket fileName size) o evs ->
  putShape bucket fileName size (sent evs).
Proof.
  intros [(-> & _) | ((client & ->) & _)]; [left | right]; reflexivity.
Qed.

Lemma yields_put remote bucket fileName size (before after : M unit) :
  logs silent before -> logs silent after ->
  yields (fun _ evs => putShape bucket fileName size (sent evs))
    (before ;;;
     (result <- putObject remote bucket fileName (wholeFile size) untyped ;;
      after)).
Proof.
  intros Hb Ha.
  eapply (yields_bind (fun _ => silent)
            (fun _ _ evs => putShape bucket fileName size (sent evs))).
  - apply yields_of_logs, Hb.
  - intros u.
    eapply (yields_bind
              (requested remote (putCommand bucket fileName size))
              (fun _ _ => silent)).
    + apply yields_request.
    + intros r. apply yields_of_logs, Ha.
    + intros e e1 H. eapply putShape_request, H.
    + intros r e1 o e2 H Hs. rewrite sent_app, Hs, app_nil_r.
      eapply putShape_request, H.
  - intros e e1 Hs. left. exact Hs.
  - intros u e1 o e2 Hs H. rewrite sent_app, Hs. exact H.
Qed.

Lemma yields_Example_uploadFile remote fileSize bucket filePath option_ :
  yields (fun o evs =>
            o = Ok tt
            /\ exampleUploadSends fileSize bucket filePath option_
                 (sent evs))
    (ExampleFiles.uploadFile remote fileSize bucket filePath option_).
Proof.
  unfold ExampleFiles.uploadFile.
  fold (uploadName option_ filePath).
  eapply (yields_try_catch
            (fun _ evs =>
               exampleUploadSends fileSize bucket filePath option_
                 (sent evs))
            (fun _ o evs => o = Ok tt /\ silent evs)).
  - unfold readFile, exampleUploadSends.
    destruct (fileSize filePath) as [n|] eqn:Ef.
    2:{ intros w o w' E. inversion E; subst. exists [].
        rewrite app_nil_r. split; reflexivity. }
    intros w o w' E.
    change (bind (ret (Z.of_N n)) ?k w) with (k (Z.of_N n) w) in E.
    cbv beta in E.
    destruct (Z.of_N n >? 300 * 1024 * 1024).
    + inversion E; subst. exists [ConsoleLog; ConsoleLog].
      split; [|reflexivity].
      cbn. rewrite <- app_assoc. reflexivity.
    + refine (yields_put remote bucket _ _ _ _ _ _ w o w' E);
        apply logs_emit; reflexivity.
  - intros e. apply yields_emit_ok; reflexivity.
  - intros [] e1 H. split; [reflexivity | exact H].
  - intros e e1 o e2 H (-> & Hs). split; [reflexivity|].
    rewrite sent_app, Hs, app_nil_r. exact H.
Qed.

(** X18.  uploadFile of the example script never throws and never uploads
    by parts: for a file of at most 300 MiB it sends nothing but, at most,
    one PutObject request for the whole file, and for a file above 300 MiB
    or one that cannot be read it sends nothing at all. *)
Theorem X18_example_uploadFile_stops_at_300MiB :
  forall remote fileSize bucket filePath option_ w,
    exists w',
      ExampleFiles.uploadFile remote fileSize bucket filePath option_ w
      = Some (Ok tt, w')
      /\ exampleUploadSends fileSize bucket filePath option_
           (sent (added w w')).
Proof.
  intros remote fileSize bucket filePath option_ w.
  destruct (ExampleFiles.uploadFile remote fileSize bucket filePath option_
              w) as [[o w']|] eqn:E.
  - destruct (yields_Example_uploadFile remote fileSize bucket filePath
                option_ w o w' E) as (evs & L & -> & H).
    exists w'. split; [reflexivity|].
    rewrite (added_of_app _ _ _ L). exact H.
  - exfalso. revert E.
    unfold ExampleFiles.uploadFile, try_catch, bind, readFile, ret, throw,
      emit, putObject, getR2Client, send, bind, emit, lift.
    destruct (fileSize filePath) as [n|]; [|discriminate].
    destruct (Z.of_N n >? 300 * 1024 * 1024); [discriminate|].
    cbn [defaultR2Client with_log].
    destruct (defaultR2Client w); [|discriminate].
    destruct (remote _); discriminate.
Qed.

(** ** Runs that do not end, and runs without a client *)

(** X20.  listAllObjects has no bound of its own on the number of pages:
    against a store that answers every page request with a page that
    carries a token for a next one, the loop never exits, whatever fuel it
    is given. *)
Theorem X20_listAllObjects_needs_a_last_page :
  forall remote client bucketName prefix delimiter,
    (forall token,
       exists r,
         remote (pageCommand bucketName prefix delimiter token) = Ok r
         /\ ~ lastPage r) ->
    forall fuel w,
      defaultR2Client w = Some client ->
      listAllObjects remote fuel bucketName prefix delimiter w = None.
Proof.
  intros remote client bucketName prefix delimiter Hstore fuel.
  unfold listAllObjects. generalize (@nil (option string)).
  generalize (@None string).
  induction fuel as [|fuel IH]; intros token allObjects w Hw;
    destruct (Hstore token) as (r & Hr & Hlast);
    cbn [listAllObjects_from]; unfold bind at 1, listObjectsV2;
    rewrite (request_run remote client _ w Hw);
    fold (pageCommand bucketName prefix delimiter token); rewrite Hr;
    unfold lastPage in Hlast;
    destruct (rNextContinuationToken r) as [[|a s]|];
    try (exfalso; apply Hlast; auto; fail).
  - reflexivity.
  - apply IH. exact Hw.
Qed.

Lemma X20_witness :
  listAllObjects endlessStore 5 "bucket" None None readyProcess = None.
Proof.
  apply (X20_listAllObjects_needs_a_last_page endlessStore demoClient
           "bucket" None None).
  - intros token. exists endlessPage. split; [reflexivity|].
    intros [H|H]; discriminate H.
  - reflexivity.
Defined.

(** ** Numbers of the size of a file *)

Lemma overflow_large : (inject_Z (2 ^ 120) < Number.overflow)%Q.
Proof.
  unfold Number.overflow. rewrite <- Zlt_Qlt. vm_compute. reflexivity.
Qed.

(** A result of a magnitude up to 2^120 is no infinity. *)
Lemma round_small q :
  (- inject_Z (2 ^ 120) <= q)%Q -> (q <= inject_Z (2 ^ 120))%Q ->
  Number.round q = Number.Finite q.
Proof.
  intros Hlo Hhi. unfold Number.round.
  pose proof overflow_large as B.
  destruct (Qle_bool Number.overflow q) eqn:E1.
  - apply Qle_bool_iff in E1. exfalso.
    apply (Qlt_irrefl Number.overflow).
    eapply Qle_lt_trans; [exact E1|].
    eapply Qle_lt_trans; [exact Hhi | exact B].
  - destruct (Qle_bool q (- Number.overflow)) eqn:E2; [|reflexivity].
    apply Qle_bool_iff in E2. exfalso.
    apply (Qlt_irrefl (- Number.overflow)%Q).
    eapply Qlt_le_trans; [| eapply Qle_trans; [exact Hlo | exact E2] ].
    apply Qopp_lt_compat. exact B.
Qed.

Lemma round_integer z :
  - 2 ^ 120 <= z <= 2 ^ 120 ->
  Number.round (inject_Z z) = Number.Finite (inject_Z z).
Proof.
  intros [Hlo Hhi]. apply round_small.
  - change (- inject_Z (2 ^ 120))%Q with (inject_Z (- 2 ^ 120)).
    rewrite <- Zle_Qle. exact Hlo.
  - rewrite <- Zle_Qle. exact Hhi.
Qed.

Lemma truncate_integer z : Number.truncate (inject_Z z) = z.
Proof.
  unfold Number.truncate.
  destruct (Qle_bool 0 (inject_Z z)); [apply Qfloor_Z | apply Qceiling_Z].
Qed.

Lemma inject_Z_mult_eq a b : (inject_Z a * inject_Z b)%Q = inject_Z (a * b).
Proof. reflexivity. Qed.

Lemma inject_Z_minus_eq a b : (inject_Z a - inject_Z b)%Q = inject_Z (a - b).
Proof.
  unfold Qminus, Qplus, Qopp, inject_Z. cbn [Qnum Qden Pos.mul].
  f_equal. lia.
Qed.

Lemma ltb_integers a b : JS.ltb (inject_Z a) (inject_Z b) = (a <? b).
Proof.
  unfold JS.ltb, Qcompare, inject_Z, Z.ltb. cbn [Qnum Qden].
  rewrite !Z.mul_1_r. reflexivity.
Qed.

Lemma mul_integers a b :
  - 2 ^ 120 <= a * b <= 2 ^ 120 ->
  Number.mul (Number.ofZ a) (Number.ofZ b) = Number.ofZ (a * b).
Proof.
  intros H. unfold Number.mul, Number.ofZ.
  rewrite inject_Z_mult_eq. apply round_integer, H.
Qed.

Lemma succ_below i : i < 2 ^ 53 -> Number.succ i = i + 1.
Proof.
  intros H. unfold Number.succ.
  destruct (Z.ltb_spec i (2 ^ 53)); [reflexivity | lia].
Qed.

(** The quotient of a size and a chunk size of at least one byte. *)
Lemma quotient_bounds t c :
  0 <= t -> c <> 0 ->
  (- inject_Z t <= JS.div (inject_Z t) (inject_Z c))%Q
  /\ (JS.div (inject_Z t) (inject_Z c) <= inject_Z t)%Q.
Proof.
  intros Ht Hc. unfold JS.div, Qdiv, Qinv, Qmult, Qle, inject_Z.
  destruct c as [|p|p]; [contradiction | |];
    cbn [Qnum Qden Qopp Z.opp]; split; nia.
Qed.

Lemma bound_integer t c :
  0 <= t <= 2 ^ 53 -> c <> 0 ->
  Tool.bound t (Number.ofZ c)
  = Number.Finite (JS.div (inject_Z t) (inject_Z c)).
Proof.
  intros Ht Hc. unfold Tool.bound, Number.div, Number.ofZ.
  assert (E : (inject_Z c ?= 0)%Q = (c ?= 0)).
  { unfold Qcompare, inject_Z. cbn [Qnum Qden]. rewrite Z.mul_1_r.
    reflexivity. }
  rewrite E.
  destruct (quotient_bounds t c) as (Hlo & Hhi); [lia | exact Hc |].
  assert (R : Number.round (JS.div (inject_Z t) (inject_Z c))
              = Number.Finite (JS.div (inject_Z t) (inject_Z c))).
  { apply round_small.
    - eapply Qle_trans; [|exact Hlo]. apply Qopp_le_compat.
      rewrite <- Zle_Qle. lia.
    - eapply Qle_trans; [exact Hhi|]. rewrite <- Zle_Qle. lia. }
  destruct (Z.compare_spec c 0); [contradiction | exact R | exact R].
Qed.

Lemma entered_integer t c i :
  0 <= t <= 2 ^ 53 -> c <> 0 ->
  entered t (Number.ofZ c) i
  = JS.ltb (inject_Z i) (JS.div (inject_Z t) (inject_Z c)).
Proof.
  intros Ht Hc. unfold entered. rewrite bound_integer by assumption.
  reflexivity.
Qed.

(** ** The upload of an integer chunk size *)

Lemma fraction_times_bounds k pn t c :
  0 < t -> 0 < c -> 0 <= pn -> 0 <= k ->
  (0 <= fraction pn t c * inject_Z k)%Q
  /\ (fraction pn t c * inject_Z k <= inject_Z (pn * c * k))%Q.
Proof.
  intros Ht Hc Hpn Hk. rewrite (fraction_scaled k pn t c Ht Hc).
  destruct t as [|tp|tp]; try lia.
  unfold Qle, inject_Z. cbn [Qnum Qden Z.to_pos]. split; nia.
Qed.

Section IntegerChunk.

Variables t c : Z.
Hypothesis t_safe : 0 <= t <= 2 ^ 53.
Hypothesis c_safe : 0 < c <= 2 ^ 53.

Lemma product_safe pn k :
  0 <= pn <= 2 ^ 53 -> 0 <= k <= 100 ->
  - 2 ^ 120 <= pn * c * k <= 2 ^ 120.
Proof.
  intros Hpn Hk.
  assert (0 <= pn * c <= 2 ^ 53 * 2 ^ 53)
    by (split; [nia | apply Z.mul_le_mono_nonneg; lia]).
  assert (0 <= pn * c * k <= 2 ^ 53 * 2 ^ 53 * 100)
    by (split; [nia | apply Z.mul_le_mono_nonneg; lia]).
  change (2 ^ 53 * 2 ^ 53 * 100) with 8112963841460668169578900514406400 in *.
  change (2 ^ 120) with 1329227995784915872903807060280344576.
  lia.
Qed.

Lemma scaled_fraction_integer pn k :
  0 < t -> 0 < pn <= 2 ^ 53 -> 0 < k <= 100 ->
  Number.mul (Tool.fraction pn t (Number.ofZ c)) (Number.ofZ k)
  = Number.Finite (fraction pn t c * inject_Z k).
Proof.
  intros Ht Hpn Hk. unfold Tool.fraction.
  change (Number.div (Number.ofZ t) (Number.ofZ c))
    with (Tool.bound t (Number.ofZ c)).
  rewrite bound_integer by lia.
  unfold Number.div, Number.ofZ.
  assert (E : (JS.div (inject_Z t) (inject_Z c) ?= 0)%Q = Gt).
  { destruct t as [|tp|tp]; try lia. destruct c as [|cp|cp]; try lia.
    reflexivity. }
  rewrite E. fold (fraction pn t c).
  destruct (fraction_times_bounds 1 pn t c) as (L1 & H1); try lia.
  rewrite Qmult_1_r in L1, H1.
  rewrite round_small.
  - unfold Number.mul.
    destruct (fraction_times_bounds k pn t c) as (Lk & Hk'); try lia.
    apply round_small.
    + eapply Qle_trans; [|exact Lk].
      change 0%Q with (inject_Z 0).
      change (- inject_Z (2 ^ 120))%Q with (inject_Z (- 2 ^ 120)).
      rewrite <- Zle_Qle. lia.
    + eapply Qle_trans; [exact Hk'|]. rewrite <- Zle_Qle.
      apply product_safe; lia.
  - eapply Qle_trans; [|exact L1].
    change 0%Q with (inject_Z 0).
    change (- inject_Z (2 ^ 120))%Q with (inject_Z (- 2 ^ 120)).
    rewrite <- Zle_Qle. lia.
  - eapply Qle_trans; [exact H1|]. rewrite <- Zle_Qle.
    apply (product_safe pn 1); lia.
Qed.

Lemma barCells_integer pn :
  0 < t -> 0 < pn <= 2 ^ 53 ->
  Tool.barCells pn t (Number.ofZ c)
  = Number.ofZ (barCells pn t c).
Proof.
  intros Ht Hpn. unfold Tool.barCells.
  rewrite scaled_fraction_integer by lia. reflexivity.
Qed.

Lemma percentComplete_integer pn :
  0 < t -> 0 < pn <= 2 ^ 53 ->
  Tool.percentComplete pn t (Number.ofZ c) = percentComplete pn t c.
Proof.
  intros Ht Hpn. unfold Tool.percentComplete.
  rewrite scaled_fraction_integer by lia. unfold Number.toFixed0.
  destruct (fraction_times_bounds 100 pn t c) as (L & _); try lia.
  apply Qle_bool_iff in L. rewrite L. reflexivity.
Qed.

Lemma barCells_safe pn :
  0 < t -> 0 < pn <= 2 ^ 53 ->
  - 2 ^ 120 <= 50 - barCells pn t c <= 2 ^ 120.
Proof.
  intros Ht Hpn. rewrite barCells_eq by lia.
  pose proof (product_safe pn 50 ltac:(lia) ltac:(lia)) as P.
  assert (0 <= pn * c * 50 / t) by (apply Z.div_pos; nia).
  assert (pn * c * 50 / t <= pn * c * 50)
    by (apply Z.div_le_upper_bound; nia).
  change (2 ^ 120) with 1329227995784915872903807060280344576 in *.
  lia.
Qed.

Lemma drawBar_integer pn w :
  0 < t -> 0 < pn <= 2 ^ 53 ->
  Tool.drawBar pn t (Number.ofZ c) w = drawBar pn t c w.
Proof.
  intros Ht Hpn. unfold Tool.drawBar, drawBar.
  rewrite barCells_integer by lia.
  unfold Number.sub, Number.ofZ. rewrite inject_Z_minus_eq.
  rewrite round_integer by (apply barCells_safe; lia).
  unfold Number.repeat. rewrite !truncate_integer. reflexivity.
Qed.

Lemma progress_integer pn w :
  0 < t -> 0 < pn <= 2 ^ 53 ->
  Tool.progress t (Number.ofZ c) pn w = Cli.progress t c pn w.
Proof.
  intros Ht Hpn. unfold Tool.progress, Cli.progress, bind.
  rewrite drawBar_integer by lia.
  rewrite percentComplete_integer by lia. reflexivity.
Qed.

Lemma partBody_integer i :
  0 <= i -> i * c < t ->
  Tool.partBody t (Number.ofZ c) i
  = slice t (i * c) (if (i + 1) * c >? t then t else (i + 1) * c).
Proof.
  intros Hi Hlt.
  assert (Hi' : i < 2 ^ 53) by nia.
  unfold Tool.partBody. rewrite succ_below by exact Hi'.
  assert (S1 : - 2 ^ 120 <= i * c <= 2 ^ 120).
  { pose proof (product_safe i 1 ltac:(lia) ltac:(lia)). lia. }
  assert (S2 : - 2 ^ 120 <= (i + 1) * c <= 2 ^ 120).
  { pose proof (product_safe (i + 1) 1 ltac:(lia) ltac:(lia)). lia. }
  rewrite !mul_integers by assumption.
  unfold Number.gtb, Number.ltb, Number.ofZ. rewrite ltb_integers.
  rewrite Z.gtb_ltb.
  unfold Number.slice, slice.
  destruct (t <? (i + 1) * c);
    unfold Number.relativeIndex; rewrite !truncate_integer; reflexivity.
Qed.

End IntegerChunk.

Lemma bind_ext {A B} (m : M A) (k k' : A -> M B) w :
  (forall a w', k a w' = k' a w') -> bind m k w = bind m k' w.
Proof.
  intros H. unfold bind. destruct (m w) as [[[a|e] w1]|]; auto.
Qed.

Lemma try_catch_ext {A} (body body' : M A) (handler : error -> M A) w :
  body w = body' w -> try_catch body handler w = try_catch body' handler w.
Proof. intros H. unfold try_catch. rewrite H. reflexivity. Qed.

(** For an integer chunk size and a file of at most 2^53 bytes the loop
    is the loop of [Cli.multipartUpload]. *)
Lemma partLoop_integer remote bucket fileName uid t c :
  0 <= t <= 2 ^ 53 -> c <> 0 -> - 2 ^ 53 <= c <= 2 ^ 53 ->
  forall fuel i parts w,
    0 <= i ->
    Tool.partLoop remote bucket fileName uid t (Number.ofZ c) fuel i parts w
    = uploadParts remote bucket fileName uid t c (Cli.progress t c) fuel i
        parts w.
Proof.
  intros Ht Hc Hc'.
  induction fuel as [|fuel IH]; intros i parts w Hi;
    cbn [Tool.partLoop uploadParts];
    change (Number.ltb (Number.ofZ i)
              (Number.div (Number.ofZ t) (Number.ofZ c)))
      with (entered t (Number.ofZ c) i);
    rewrite entered_integer by assumption;
    destruct (JS.ltb (inject_Z i) (JS.div (inject_Z t) (inject_Z c))) eqn:G;
    try reflexivity.
  assert (Hpos : 0 < c /\ i * c < t).
  { destruct (Z_lt_ge_dec 0 c) as [Hc1|Hc1].
    - rewrite ltb_div_pos in G by assumption. apply Z.ltb_lt in G. auto.
    - rewrite ltb_div_neg in G by lia. discriminate. }
  destruct Hpos as (Hc1 & Hlt).
  assert (Hi' : i < 2 ^ 53) by nia.
  rewrite succ_below by exact Hi'.
  rewrite (partBody_integer t c) by lia.
  apply bind_ext. intros r w1. unfold bind.
  rewrite (progress_integer t c) by lia.
  destruct (Cli.progress t c (i + 1) w1) as [[[u|e] w2]|]; try reflexivity.
  apply IH. lia.
Qed.

Lemma effectiveChunkSize_integer option_ :
  Tool.effectiveChunkSize (Tool.ofIntegers option_)
  = Number.ofZ (Cli.effectiveChunkSize option_).
Proof.
  unfold Tool.effectiveChunkSize, Cli.effectiveChunkSize, Tool.ofIntegers,
    Tool.opt_chunkSize, opt_chunkSize, integerChunkSize.
  destruct option_ as [[[n|] name]|]; cbn [Tool.chunkSize chunkSize];
    try reflexivity.
  unfold Number.or_number, JS.or_number, Number.truthy, Number.ofZ.
  destruct (Z.eqb_spec n 0) as [->|Hn]; [reflexivity|].
  destruct (Qeq_bool (inject_Z n) 0) eqn:E; [|reflexivity].
  apply Qeq_bool_eq in E. unfold Qeq, inject_Z in E. cbn [Qnum Qden] in E.
  lia.
Qed.

Lemma customFileName_integer option_ :
  Tool.opt_customFileName (Tool.ofIntegers option_)
  = opt_customFileName option_.
Proof. destruct option_ as [[n name]|]; reflexivity. Qed.

(** ** Prompts *)

Lemma prompts_app l1 l2 : prompts (l1 ++ l2) = (prompts l1 + prompts l2)%nat.
Proof. unfold prompts. rewrite filter_app, length_app. reflexivity. Qed.

Section Finished.

Variable ask : nat -> outcome unit.
(** What the handler shows: no prompt and no request. *)
Variable shown : error -> event.
Hypothesis shown_no_prompt : forall e, prompts [shown e] = 0%nat.
Hypothesis shown_no_request : forall e, sent [shown e] = [].
Variable m : M unit.

Abbreviation finished :=
  (try_catch (m ;;; input ask)
     (fun error => emit (shown error) ;;; input ask)).

(** A try block that ends with a prompt, and a handler that shows
    [shown error] and prompts: the three ways out. *)
Lemma finished_cases w o w' :
  finished w = Some (o, w') ->
  (exists w1,
     m w = Some (Ok tt, w1)
     /\ ask (prompts (log w1)) = Ok tt
     /\ o = Ok tt
     /\ w' = with_log w1 (log w1 ++ [Input]))
  \/ (exists w1 e,
        m w = Some (Ok tt, w1)
        /\ ask (prompts (log w1)) = Throw e
        /\ o = ask (S (prompts (log w1)))
        /\ w' = with_log w1 (log w1 ++ [Input; shown e; Input]))
  \/ (exists w1 e,
        m w = Some (Throw e, w1)
        /\ o = ask (prompts (log w1))
        /\ w' = with_log w1 (log w1 ++ [shown e; Input])).
Proof.
  unfold try_catch, bind, input, emit.
  destruct (m w) as [[[[]|e] w1]|]; [| |discriminate].
  - cbn [log with_log].
    destruct (ask (prompts (log w1))) as [[]|e] eqn:Ea; intros E.
    + left. exists w1. inversion E; subst. auto.
    + right. left. exists w1, e. inversion E; subst.
      rewrite !prompts_app, shown_no_prompt, Nat.add_0_r, Nat.add_comm.
      unfold with_log; cbn [log defaultR2Client constructed].
      rewrite <- !app_assoc. auto.
  - cbn [log with_log]. intros E. right. right. exists w1, e.
    inversion E; subst.
    rewrite prompts_app, shown_no_prompt, Nat.add_0_r.
    unfold with_log; cbn [log defaultR2Client constructed].
    rewrite <- !app_assoc. auto.
Qed.

Lemma finished_catches w w1 e :
  m w = Some (Throw e, w1) ->
  finished w
  = Some (ask (prompts (log w1)),
          with_log w1 (log w1 ++ [shown e; Input])).
Proof.
  intros Hm. unfold try_catch, bind, input, emit. rewrite Hm.
  cbn [log with_log]. rewrite prompts_app, shown_no_prompt, Nat.add_0_r.
  unfold with_log; cbn [log defaultR2Client constructed].
  rewrite <- !app_assoc. reflexivity.
Qed.

(** Whatever the answers to the prompts, the block ends when its
    statements before the prompt do, and adds no request of its own. *)
Lemma finished_ends w o1 w1 :
  m w = Some (o1, w1) ->
  exists o tail,
    finished w = Some (o, with_log w1 (log w1 ++ tail))
    /\ sent tail = [].
Proof.
  intros Hm. unfold try_catch, bind, input, emit. rewrite Hm.
  destruct o1 as [[]|e].
  - destruct (ask (prompts (log w1))) as [[]|e].
    + exists (Ok tt), [Input]. split; reflexivity.
    + eexists. exists [Input; shown e; Input]. split.
      * cbn [log with_log]. unfold with_log;
          cbn [log defaultR2Client constructed].
        rewrite <- !app_assoc. reflexivity.
      * change [Input; shown e; Input]
          with ([Input] ++ [shown e] ++ [Input]).
        rewrite !sent_app, shown_no_request. reflexivity.
  - eexists. exists [shown e; Input]. split.
    + cbn [log with_log]. unfold with_log;
        cbn [log defaultR2Client constructed].
      rewrite <- !app_assoc. reflexivity.
    + change [shown e; Input] with ([shown e] ++ [Input]).
      rewrite sent_app, shown_no_request. reflexivity.
Qed.

End Finished.

(** ** The try block and its prompt *)

(** [multipartUpload] is its try block up to the prompt, then the prompt,
    under the handler. *)
Lemma multipartUpload_split remote ask fileSize fuel bucket filePath option_
    size w :
  fileSize filePath = Some size ->
  Tool.multipartUpload remote ask fileSize fuel bucket filePath option_ w
  = try_catch
      (Tool.attempt remote fuel bucket
         (JS.or_string (Tool.opt_customFileName option_)
            (getFileName filePath))
         (Z.of_N size) (Tool.effectiveChunkSize option_) ;;;
       input ask)
      (fun error => emit LoadingFail ;;; input ask) w.
Proof.
  intros Hf. unfold Tool.multipartUpload, readFile. rewrite Hf.
  unfold bind at 1, ret. apply try_catch_ext.
  unfold Tool.attempt, bind.
  destruct (createMultipartUpload remote bucket _ octetStream w)
    as [[[created|e] w1]|]; try reflexivity.
  destruct (rUploadId created) as [[|a s]|]; try reflexivity.
  destruct (emit _ w1) as [[[u|e] w2]|]; try reflexivity.
  destruct (Tool.partLoop remote bucket _ _ _ _ fuel 0 [] w2)
    as [[[parts|e] w3]|]; try reflexivity.
  destruct (completeMultipartUpload remote bucket _ _ parts w3)
    as [[[r|e] w4]|]; try reflexivity.
Qed.

(** With a user who answers every prompt, an integer chunk size and a file
    of at most 2^53 bytes, the upload is [Cli.multipartUpload]. *)
Lemma Tool_is_Cli remote fileSize fuel bucket filePath option_ w :
  sizeAt fileSize filePath <= 2 ^ 53 ->
  - 2 ^ 53 <= Cli.effectiveChunkSize option_ <= 2 ^ 53 ->
  Tool.multipartUpload remote pressEnter fileSize fuel bucket filePath
    (Tool.ofIntegers option_) w
  = Cli.multipartUpload remote fileSize fuel bucket filePath option_ w.
Proof.
  intros Hs Hc. unfold Tool.multipartUpload, Cli.multipartUpload, readFile.
  unfold sizeAt in Hs.
  destruct (fileSize filePath) as [n|]; [|reflexivity].
  unfold bind at 1. unfold bind at 5. unfold ret.
  rewrite customFileName_integer, effectiveChunkSize_integer.
  apply try_catch_ext. apply bind_ext. intros created w1.
  destruct (rUploadId created) as [[|a s]|]; try reflexivity.
  apply bind_ext. intros u w2. unfold bind at 1.
  rewrite partLoop_integer;
    [reflexivity | lia | apply effectiveChunkSize_nonzero | exact Hc | lia].
Qed.

(** ** What every run of the loop logs *)

Lemma Tool_progress_log t c pn w o w' :
  Tool.progress t c pn w = Some (o, w') ->
  (exists e, o = Throw e /\ w' = w)
  \/ (exists b p,
        o = Ok tt /\ w' = with_log w (log w ++ [LoadingText b p])).
Proof.
  unfold Tool.progress, Tool.drawBar, bind, lift, ret, emit.
  destruct (Number.repeat (Tool.barCells pn t c)) as [n1|e1];
    [destruct (Number.repeat
                 (Number.sub (Number.ofZ 50) (Tool.barCells pn t c)))
       as [n2|e2]|];
    intros E; inversion E; subst; eauto.
Qed.

Lemma partLoop_passes remote bucket fileName uid t c :
  forall fuel i parts w o w',
    Tool.partLoop remote bucket fileName uid t c fuel i parts w
    = Some (o, w') ->
    exists evs,
      log w' = log w ++ evs
      /\ passes remote bucket fileName uid t c i (thrown o) evs.
Proof.
  induction fuel as [|fuel IH]; intros i parts w o w' E;
    cbn [Tool.partLoop] in E;
    change (Number.ltb (Number.ofZ i) (Number.div (Number.ofZ t) c))
      with (entered t c i) in E;
    destruct (entered t c i) eqn:G; try discriminate E;
    try (inversion E; subst; exists []; rewrite app_nil_r;
         split; [reflexivity | apply passes_exit, G]).
  unfold bind at 1 in E.
  change (UploadPartCommand bucket fileName uid (Number.succ i)
            (Tool.partBody t c i))
    with (passRequest bucket fileName uid t c i) in *.
  destruct (uploadPart remote bucket fileName uid (Number.succ i)
              (Tool.partBody t c i) w) as [[[r|e] w1]|] eqn:Eu;
    [| |discriminate E];
    destruct (yields_request remote _ w _ _ Eu) as (evs1 & L1 & R1).
  - destruct R1 as [(_ & e & He) | ((client & ->) & Hr)]; [discriminate|].
    assert (Hacc : accepted remote (passRequest bucket fileName uid t c i))
      by (exists r; auto).
    unfold bind at 1 in E.
    destruct (Tool.progress t c (Number.succ i) w1) as [[[u|e] w2]|] eqn:Ep;
      [| |discriminate E];
      destruct (Tool_progress_log _ _ _ _ _ _ Ep)
        as [(e' & He & ->) | (b & p & He & ->)]; try discriminate He.
    + destruct (IH _ _ _ _ _ E) as (evs & L & P).
      exists (Send client (passRequest bucket fileName uid t c i)
              :: LoadingText b p :: evs).
      split.
      * rewrite L. cbn [log with_log]. rewrite L1, <- !app_assoc.
        reflexivity.
      * apply passes_next; assumption.
    + inversion E; subst. eexists. split; [exact L1|].
      apply passes_stopped, G.
  - inversion E; subst. exists evs1. split; [exact L1|].
    destruct R1 as [(-> & _) | ((client & ->) & _)];
      [apply passes_unsent | apply passes_stopped]; exact G.
Qed.

Lemma attempt_log remote fuel bucket fileName t c w o w' :
  Tool.attempt remote fuel bucket fileName t c w = Some (o, w') ->
  exists evs,
    log w' = log w ++ evs
    /\ attemptLog remote bucket fileName t c (thrown o) evs.
Proof.
  unfold Tool.attempt. intros E. unfold bind at 1 in E.
  destruct (createMultipartUpload remote bucket fileName octetStream w)
    as [[[created|e] w1]|] eqn:Ec; [| |discriminate E];
    destruct (yields_request remote _ w _ _ Ec) as (evs1 & L1 & R1).
  2:{ inversion E; subst. exists evs1. split; [exact L1|].
      destruct R1 as [(-> & _) | ((client & ->) & _)].
      - left. auto.
      - right. left. split; [reflexivity|]. exists client. reflexivity. }
  destruct R1 as [(_ & e & He) | ((client & ->) & Hr)]; [discriminate|].
  change (CreateMultipartUploadCommand bucket fileName
            (opt_contentType octetStream) (opt_metadata octetStream))
    with (createCommand bucket fileName) in *.
  destruct (rUploadId created) as [[|a s]|] eqn:Eid;
    try (inversion E; subst; eexists; split; [exact L1|];
         right; left; split; [reflexivity|]; exists client; reflexivity).
  unfold bind at 1, emit in E. unfold bind at 1 in E.
  destruct (Tool.partLoop remote bucket fileName (String a s) t c fuel 0 []
              (with_log w1
                 (log w1
                  ++ [LoadingStart {| filled := 0; unfilled := 50 |} 0])))
    as [[[parts|e] w2]|] eqn:El; [| |discriminate E];
    destruct (partLoop_passes _ _ _ _ _ _ _ _ _ _ _ _ El) as (evs2 & L2 & P2);
    cbn [log with_log thrown] in L2, P2.
  2:{ inversion E; subst. eexists. split.
      - rewrite L2, L1, <- !app_assoc. reflexivity.
      - right. right.
        exists client, created, (String a s), true, evs2, [].
        rewrite app_nil_r.
        split; [congruence|]. split; [exact Eid|]. split; [discriminate|].
        split; [exact P2|]. split; [reflexivity|]. left. auto. }
  unfold bind at 1 in E.
  destruct (completeMultipartUpload remote bucket fileName (String a s)
              parts w2) as [[[r|e] w3]|] eqn:Ef; [| |discriminate E];
    destruct (yields_request remote _ w2 _ _ Ef) as (evs3 & L3 & R3);
    change (CompleteMultipartUploadCommand bucket fileName (String a s)
              parts)
      with (completeCommand bucket fileName (String a s) parts) in *.
  - destruct R3 as [(_ & e & He) | ((client' & ->) & Hr3)]; [discriminate|].
    unfold bind, emit in E. inversion E; subst.
    cbn [log with_log thrown].
    exists (Send client (createCommand bucket fileName)
            :: LoadingStart {| filled := 0; unfilled := 50 |} 0
            :: evs2
            ++ [Send client'
                  (completeCommand bucket fileName (String a s) parts);
                ConsoleLog; LoadingSucceed]).
    split.
    + rewrite L3, L2, L1, <- !app_assoc. reflexivity.
    + right. right.
      exists client, created, (String a s), false, evs2.
      eexists.
      split; [congruence|]. split; [exact Eid|]. split; [discriminate|].
      split; [exact P2|]. split; [reflexivity|].
      right. right. split; [reflexivity|]. exists client', parts.
      split; [reflexivity|]. split; [reflexivity|]. exists r. auto.
  - inversion E; subst. cbn [thrown].
    exists (Send client (createCommand bucket fileName)
            :: LoadingStart {| filled := 0; unfilled := 50 |} 0
            :: evs2 ++ evs3).
    split.
    + rewrite L3, L2, L1, <- !app_assoc. reflexivity.
    + right. right.
      exists client, created, (String a s), false, evs2, evs3.
      split; [congruence|]. split; [exact Eid|]. split; [discriminate|].
      split; [exact P2|]. split; [reflexivity|].
      destruct R3 as [(-> & _) | ((client' & ->) & Hr3)]; [left; auto|].
      right. left. split; [reflexivity|]. exists client', parts.
      split; [reflexivity|]. split; [reflexivity|].
      intros (r & Hr'). congruence.
Qed.

Lemma loopEvents_quiet evs :
  Forall loopEvent evs ->
  prompts evs = 0%nat
  /\ verdicts evs = []
  /\ aborts evs = []
  /\ completions evs = []
  /\ Forall (fun cmd => isCompletion cmd = false) (sent evs).
Proof.
  intros H. induction H as [|e evs He _ IH].
  - repeat split; constructor.
  - destruct IH as (I1 & I2 & I3 & I4 & I5).
    destruct e as [cl cmd| | | | | | | | |]; try contradiction;
      [destruct cmd; try contradiction|].
    + repeat split; try assumption. constructor; [reflexivity | exact I5].
    + repeat split; assumption.
Qed.

Section PassFacts.

Variable remote : command -> outcome response.
Variables bucket fileName uid : string.
Variable t : Z.
Variable c : Number.number.

Abbreviation passesOf := (passes remote bucket fileName uid t c).
Abbreviation request := (passRequest bucket fileName uid t c).

Lemma passes_loopEvents i threw evs :
  passesOf i threw evs -> Forall loopEvent evs.
Proof.
  induction 1; repeat constructor; assumption.
Qed.

(** Every request of the loop but a last one, after which the loop threw,
    was accepted. *)
Lemma passes_stop i threw evs :
  passesOf i threw evs ->
  exists good stop,
    evs = good ++ stop
    /\ unrejected remote good
    /\ (stop = []
        \/ threw = true /\ exists client cmd, stop = [Send client cmd]).
Proof.
  induction 1 as [i G|i G|i client G|i client b p threw evs G Hacc _ IH].
  - exists [], []. repeat split; [constructor | auto].
  - exists [], []. repeat split; [constructor | auto].
  - exists [], [Send client (request i)].
    repeat split; [constructor | right; eauto].
  - destruct IH as (good & stop & -> & Hgood & Hstop).
    exists (Send client (request i) :: LoadingText b p :: good), stop.
    repeat split; [|exact Hstop].
    constructor; [exact Hacc|]. constructor; [exact I | exact Hgood].
Qed.


Lemma entered_countable i :
  entered t c i = true ->
  Number.countable (Tool.bound t c) = true ->
  i < 2 ^ 53.
Proof.
  unfold entered, Number.ltb, Number.countable, Number.ofZ.
  destruct (Tool.bound t c) as [q| | |]; try discriminate.
  intros G Hq. unfold JS.ltb in G.
  destruct (inject_Z i ?= q)%Q eqn:E; try discriminate.
  apply Qlt_alt in E. apply Qle_bool_iff in Hq.
  rewrite Zlt_Qlt. eapply Qlt_le_trans; eassumption.
Qed.

(** With a bound of at most 2^53 the parts sent are numbered from
    [i + 1] on, without a gap. *)
Lemma passes_numbers i threw evs :
  Number.countable (Tool.bound t c) = true ->
  passesOf i threw evs ->
  map fst (uploadedParts evs)
  = zrange (i + 1) (List.length (uploadedParts evs)).
Proof.
  intros Hb.
  induction 1 as [i G|i G|i client G|i client b p threw evs G Hacc _ IH].
  - reflexivity.
  - reflexivity.
  - cbn. rewrite (succ_below i (entered_countable i G Hb)).
    unfold zrange. cbn. rewrite Z.add_0_r. reflexivity.
  - change (uploadedParts
              (Send client (request i) :: LoadingText b p :: evs))
      with ((Number.succ i, Tool.partBody t c i) :: uploadedParts evs).
    cbn [map fst List.length]. rewrite zrange_S, IH.
    rewrite (succ_below i (entered_countable i G Hb)). reflexivity.
Qed.

End PassFacts.

Lemma zrange_NoDup k : forall a, NoDup (zrange a k).
Proof.
  induction k as [|k IH]; intros a; [constructor|].
  rewrite zrange_S. constructor; [|apply IH].
  unfold zrange. intros Hin. apply in_map_iff in Hin.
  destruct Hin as (n & Hn & _). lia.
Qed.

(** ** What every run of the try block logs *)

Section AttemptFacts.

Variable remote : command -> outcome response.
Variables bucket fileName : string.
Variable t : Z.
Variable c : Number.number.
Variable threw : bool.
Variable evs : list event.
Hypothesis shape : attemptLog remote bucket fileName t c threw evs.

Lemma attempt_quiet : prompts evs = 0%nat /\ aborts evs = [].
Proof.
  destruct shape as [(_ & ->) | [(_ & client & ->) |
    (client & created & uid & lt & le & tail & Hc & Hid & Hne & P & ->
     & Htail)]]; try (split; reflexivity).
  destruct (loopEvents_quiet le (passes_loopEvents _ _ _ _ _ _ _ _ _ P))
    as (Q1 & _ & Q3 & _).
  change (Send client (createCommand bucket fileName)
          :: LoadingStart {| filled := 0; unfilled := 50 |} 0 :: le ++ tail)
    with ([Send client (createCommand bucket fileName);
           LoadingStart {| filled := 0; unfilled := 50 |} 0] ++ le ++ tail).
  rewrite !prompts_app, !aborts_app, Q1, Q3.
  destruct Htail as [(_ & ->) | [(_ & cl & parts & -> & _)
                                | (_ & cl & parts & -> & _)]];
    split; reflexivity.
Qed.

(** The try block shows a success only on its way out, after an accepted
    completion request; when it throws no completion request was
    accepted. *)
Lemma attempt_tried :
  (threw = false -> succeeded remote evs)
  /\ (threw = true -> unsettled remote evs).
Proof.
  destruct shape as [(-> & ->) | [(-> & client & ->) |
    (client & created & uid & lt & le & tail & Hc & Hid & Hne & P & ->
     & Htail)]].
  - split; [discriminate|]. intros _. split; [reflexivity | constructor].
  - split; [discriminate|]. intros _. split; [reflexivity|].
    cbn. constructor; [discriminate | constructor].
  - destruct (loopEvents_quiet le (passes_loopEvents _ _ _ _ _ _ _ _ _ P))
      as (_ & Q2 & _ & _ & Q5).
    assert (Hloop : Forall (fun cmd => isCompletion cmd = true ->
                               ~ accepted remote cmd) (sent le)).
    { eapply Forall_impl; [|exact Q5]. cbn. intros cmd H1 H2. congruence. }
    change (Send client (createCommand bucket fileName)
            :: LoadingStart {| filled := 0; unfilled := 50 |} 0
            :: le ++ tail)
      with ([Send client (createCommand bucket fileName);
             LoadingStart {| filled := 0; unfilled := 50 |} 0]
            ++ le ++ tail).
    unfold succeeded, unsettled.
    rewrite !verdicts_app, !sent_app, Q2.
    destruct Htail as [(-> & ->) | [(_ & cl & parts & -> & -> & Hrej)
                                   | (_ & cl & parts & -> & -> & Hacc)]].
    + split; [discriminate|]. intros _. split; [reflexivity|].
      rewrite app_nil_r. cbn [sent flat_map app].
      constructor; [discriminate | exact Hloop].
    + split; [discriminate|]. intros _. split; [reflexivity|].
      cbn [sent flat_map app]. constructor; [discriminate|].
      apply Forall_app. split; [exact Hloop|].
      constructor; [intros _; exact Hrej | constructor].
    + split; [|discriminate]. intros _. split; [reflexivity|].
      cbn [sent flat_map app]. apply Exists_cons_tl, Exists_app. right.
      apply Exists_cons_hd. split; [reflexivity | exact Hacc].
Qed.

(** Every request of the try block but a last one, after which it threw,
    was accepted. *)
Lemma attempt_stop :
  exists good stop,
    evs = good ++ stop
    /\ unrejected remote good
    /\ (stop = []
        \/ threw = true /\ exists client cmd, stop = [Send client cmd]).
Proof.
  destruct shape as [(-> & ->) | [(-> & client & ->) |
    (client & created & uid & lt & le & tail & Hc & Hid & Hne & P & ->
     & Htail)]].
  - exists [], []. repeat split; [constructor | auto].
  - exists [], [Send client (createCommand bucket fileName)].
    repeat split; [constructor | right; eauto].
  - destruct (passes_stop _ _ _ _ _ _ _ _ _ P)
      as (good & stop & -> & Hgood & Hstop).
    assert (Hhead : unrejected remote
                      (Send client (createCommand bucket fileName)
                       :: LoadingStart {| filled := 0; unfilled := 50 |} 0
                       :: good)).
    { constructor; [exists created; exact Hc|].
      constructor; [exact I | exact Hgood]. }
    destruct Htail as [(-> & ->) | [(-> & cl & parts & -> & -> & Hrej)
                                   | (-> & cl & parts & -> & -> & Hacc)]].
    + exists (Send client (createCommand bucket fileName)
              :: LoadingStart {| filled := 0; unfilled := 50 |} 0 :: good),
        stop.
      rewrite app_nil_r. repeat split; [exact Hhead|].
      destruct Hstop as [-> | (_ & H)]; [left | right]; auto.
    + destruct Hstop as [-> | (H & _)]; [|discriminate H].
      exists (Send client (createCommand bucket fileName)
              :: LoadingStart {| filled := 0; unfilled := 50 |} 0 :: good),
        [Send cl (completeCommand bucket fileName uid parts)].
      rewrite app_nil_r. repeat split; [exact Hhead | right; eauto].
    + destruct Hstop as [-> | (H & _)]; [|discriminate H].
      exists ((Send client (createCommand bucket fileName)
               :: LoadingStart {| filled := 0; unfilled := 50 |} 0 :: good)
              ++ [Send cl (completeCommand bucket fileName uid parts);
                  ConsoleLog; LoadingSucceed]), [].
      rewrite !app_nil_r. repeat split; [|left; reflexivity].
      apply Forall_app. split; [exact Hhead|].
      constructor; [exact Hacc|]. repeat constructor.
Qed.


(** With a bound of at most 2^53 the parts sent are numbered from 1 on,
    without a gap. *)
Lemma attempt_numbers :
  Number.countable (Tool.bound t c) = true ->
  map fst (uploadedParts evs)
  = zrange 1 (List.length (uploadedParts evs)).
Proof.
  intros Hb.
  destruct shape as [(_ & ->) | [(_ & client & ->) |
    (client & created & uid & lt & le & tail & Hc & Hid & Hne & P & ->
     & Htail)]]; try reflexivity.
  pose proof (passes_numbers _ _ _ _ _ _ _ _ _ Hb P) as N.
  change (Send client (createCommand bucket fileName)
          :: LoadingStart {| filled := 0; unfilled := 50 |} 0 :: le ++ tail)
    with ([Send client (createCommand bucket fileName);
           LoadingStart {| filled := 0; unfilled := 50 |} 0] ++ le ++ tail).
  rewrite !uploadedParts_app.
  destruct Htail as [(_ & ->) | [(_ & cl & parts & -> & _)
                                | (_ & cl & parts & -> & _)]];
    cbn [uploadedParts sent flat_map app]; rewrite ?app_nil_r; exact N.
Qed.

End AttemptFacts.

(** ** Every run of the upload of the command-line tool *)

(** A run that read its file: what its try block logged, and how the
    prompts ended it. *)
Lemma multipartUpload_cases remote ask fileSize fuel bucket filePath option_
    size w o w' :
  fileSize filePath = Some size ->
  Tool.multipartUpload remote ask fileSize fuel bucket filePath option_ w
  = Some (o, w') ->
  exists threw evs tail,
    attemptLog remote bucket
      (JS.or_string (Tool.opt_customFileName option_) (getFileName filePath))
      (Z.of_N size) (Tool.effectiveChunkSize option_) threw evs
    /\ log w' = log w ++ evs ++ tail
    /\ ((threw = false
         /\ ask (prompts (log w)) = Ok tt
         /\ o = Ok tt
         /\ tail = [Input])
        \/ (threw = false
            /\ (exists e, ask (prompts (log w)) = Throw e)
            /\ o = ask (S (prompts (log w)))
            /\ tail = [Input; LoadingFail; Input])
        \/ (threw = true
            /\ o = ask (prompts (log w))
            /\ tail = [LoadingFail; Input])).
Proof.
  intros Hf E. rewrite (multipartUpload_split _ _ _ _ _ _ _ _ _ Hf) in E.
  apply (finished_cases ask (fun _ => LoadingFail) (fun _ => eq_refl)) in E.
  destruct E as [(w1 & Hm & Ha & -> & ->)
                | [(w1 & e & Hm & Ha & -> & ->) | (w1 & e & Hm & -> & ->)]];
    destruct (attempt_log _ _ _ _ _ _ _ _ _ Hm) as (evs & L & S);
    cbn [thrown] in S;
    destruct (attempt_quiet _ _ _ _ _ _ _ S) as (Q & _);
    assert (Hp : prompts (log w1) = prompts (log w))
      by (rewrite L, prompts_app, Q; lia);
    rewrite Hp in *.
  - exists false, evs, [Input]. split; [exact S|]. split.
    + cbn [log with_log]. rewrite L, <- app_assoc. reflexivity.
    + left. auto.
  - exists false, evs, [Input; LoadingFail; Input]. split; [exact S|]. split.
    + cbn [log with_log]. rewrite L, <- app_assoc. reflexivity.
    + right. left. eauto.
  - exists true, evs, [LoadingFail; Input]. split; [exact S|]. split.
    + cbn [log with_log]. rewrite L, <- app_assoc. reflexivity.
    + right. right. auto.
Qed.

(** A file that cannot be read: the upload throws before its try block. *)
Lemma multipartUpload_unread remote ask fileSize fuel bucket filePath option_
    w :
  fileSize filePath = None ->
  Tool.multipartUpload remote ask fileSize fuel bucket filePath option_ w
  = Some (Throw (Error "ENOENT"), w).
Proof.
  intros Hf. unfold Tool.multipartUpload, readFile. rewrite Hf. reflexivity.
Qed.

Lemma added_same w : added w w = [].
Proof. apply added_of_app. rewrite app_nil_r. reflexivity. Qed.

(** A rejected request of a log that starts with accepted ones lies after
    them. *)
Lemma rejected_after_unrejected remote good : forall rest before client cmd
    after e,
  unrejected remote good ->
  good ++ rest = before ++ Send client cmd :: after ->
  remote cmd = Throw e ->
  exists before', rest = before' ++ Send client cmd :: after.
Proof.
  induction good as [|g good IH]; intros rest before client cmd after e
    Hgood Heq Hrej.
  - exists before. exact Heq.
  - inversion Hgood as [|? ? Hg Hgood']; subst.
    destruct before as [|b before].
    + cbn in Heq. inversion Heq; subst.
      destruct Hg as (r & Hr). congruence.
    + cbn in Heq. inversion Heq; subst.
      eapply IH; eassumption.
Qed.

Lemma uploadedParts_silent l : sent l = [] -> uploadedParts l = [].
Proof. unfold uploadedParts. intros ->. reflexivity. Qed.

Lemma completions_silent l : sent l = [] -> completions l = [].
Proof. unfold completions. intros ->. reflexivity. Qed.

(** C7.  In every attempt of the command-line tool's multipartUpload,
    whatever the store answers, whatever the chunk size option and however
    the user answers the prompts, the upload sends no AbortMultipartUpload
    command, so the parts already uploaded stay at the store; it ends at
    the first failure: a request the store rejects is the last one sent,
    and after it the tool only shows its failure text (loading.fail) and
    its prompt; and, the loop bound being at most 2^53, no part number is
    sent twice. *)
Theorem C7_no_abort_no_retry :
  forall remote ask fileSize fuel bucket filePath option_ w out w',
    Tool.multipartUpload remote ask fileSize fuel bucket filePath option_ w
    = Some (out, w') ->
    aborts (added w w') = []
    /\ (forall before client cmd after e,
          added w w' = before ++ Send client cmd :: after ->
          remote cmd = Throw e ->
          after = [LoadingFail; Input])
    /\ (Number.countable
          (Tool.bound (sizeAt fileSize filePath)
             (Tool.effectiveChunkSize option_)) = true ->
        NoDup (map fst (uploadedParts (added w w')))).
Proof.
  intros remote ask fileSize fuel bucket filePath option_ w out w' Hrun.
  unfold sizeAt. destruct (fileSize filePath) as [size|] eqn:Hf.
  2:{ rewrite multipartUpload_unread in Hrun by exact Hf.
      inversion Hrun; subst. rewrite added_same.
      split; [reflexivity|]. split; [|constructor].
      intros [|b before] client cmd after e H; discriminate H. }
  destruct (multipartUpload_cases _ _ _ _ _ _ _ _ _ _ _ Hf Hrun)
    as (threw & evs & tail & S & L & Hend).
  rewrite (added_of_app _ _ _ L).
  assert (Htail : sent tail = [])
    by (destruct Hend as [(_ & _ & _ & ->) | [(_ & _ & _ & ->)
                                             | (_ & _ & ->)]]; reflexivity).
  split; [| split].
  - rewrite aborts_app.
    destruct (attempt_quiet _ _ _ _ _ _ _ S) as (_ & ->).
    unfold aborts. rewrite Htail. reflexivity.
  - intros before client cmd after e Heq Hrej.
    destruct (attempt_stop _ _ _ _ _ _ _ S)
      as (good & stop & -> & Hgood & Hstop).
    rewrite <- app_assoc in Heq.
    destruct (rejected_after_unrejected _ _ _ _ _ _ _ _ Hgood Heq Hrej)
      as (before' & Hrest).
    destruct Hstop as [-> | (-> & client0 & cmd0 & ->)].
    + destruct Hend as [(_ & _ & _ & ->) | [(_ & _ & _ & ->)
                                           | (_ & _ & ->)]];
        destruct before' as [|x1 [|x2 [|x3 [|x4 before']]]];
        discriminate Hrest.
    + destruct Hend as [(H & _) | [(H & _) | (_ & _ & ->)]];
        try discriminate H.
      destruct before' as [|x1 [|x2 [|x3 [|x4 before']]]];
        try discriminate Hrest.
      inversion Hrest; subst. reflexivity.
  - intros Hb. rewrite uploadedParts_app, (uploadedParts_silent tail Htail).
    rewrite app_nil_r, (attempt_numbers _ _ _ _ _ _ _ S Hb).
    apply zrange_NoDup.
Qed.

Lemma C7_witness :
  exists out w',
    Tool.multipartUpload (rejectPart 2) pressCtrlC (oneFile 250000000) 5
      "bucket" "/data/big.bin" (Tool.withChunkSize (Number.ofZ 50000000))
      readyProcess
    = Some (out, w')
    /\ aborts (added readyProcess w') = []
    /\ (forall before client cmd after e,
          added readyProcess w' = before ++ Send client cmd :: after ->
          rejectPart 2 cmd = Throw e ->
          after = [LoadingFail; Input])
    /\ (Number.countable
          (Tool.bound (sizeAt (oneFile 250000000) "/data/big.bin")
             (Tool.effectiveChunkSize
                (Tool.withChunkSize (Number.ofZ 50000000)))) = true ->
        NoDup (map fst (uploadedParts (added readyProcess w')))).
Proof.
  destruct (Tool.multipartUpload (rejectPart 2) pressCtrlC
              (oneFile 250000000) 5 "bucket" "/data/big.bin"
              (Tool.withChunkSize (Number.ofZ 50000000)) readyProcess)
    as [[out w']|] eqn:E; [| vm_compute in E; discriminate E].
  exists out, w'. split; [reflexivity|].
  exact (C7_no_abort_no_retry _ _ _ _ _ _ _ _ _ _ E).
Defined.

(** X12.  multipartUpload of the command-line tool, for every chunk size
    option and every answer to its prompts.  A file that cannot be read
    makes it throw before anything is sent or shown.  Once the file is
    read, every failure of the upload is caught, and the function ends in
    one of three ways: a completion request was accepted, the success is
    shown, the prompt is answered, and it returns; or a completion request
    was accepted, the success is shown, the prompt is left with Ctrl+C, and
    then the failure is shown as well and the outcome is that of a second
    prompt; or no completion request was accepted, only the failure is
    shown, and the outcome is that of the one prompt. *)
Theorem X12_verdict_follows_completion :
  forall remote ask fileSize fuel bucket filePath option_ w o w',
    Tool.multipartUpload remote ask fileSize fuel bucket filePath option_ w
    = Some (o, w') ->
    (fileSize filePath = None ->
     (exists e, o = Throw e) /\ added w w' = [])
    /\ (fileSize filePath <> None ->
        (succeeded remote (added w w')
         /\ ask (prompts (log w)) = Ok tt
         /\ o = Ok tt)
        \/ (verdicts (added w w') = [LoadingSucceed; LoadingFail]
            /\ Exists (fun cmd =>
                         isCompletion cmd = true /\ accepted remote cmd)
                 (sent (added w w'))
            /\ (exists e, ask (prompts (log w)) = Throw e)
            /\ o = ask (S (prompts (log w))))
        \/ (failed remote (added w w')
            /\ o = ask (prompts (log w)))).
Proof.
  intros remote ask fileSize fuel bucket filePath option_ w o w' Hrun.
  split.
  - intros Hf. rewrite multipartUpload_unread in Hrun by exact Hf.
    inversion Hrun; subst. split; [eauto | apply added_same].
  - intros Hf. destruct (fileSize filePath) as [size|] eqn:Ef; [|congruence].
    destruct (multipartUpload_cases _ _ _ _ _ _ _ _ _ _ _ Ef Hrun)
      as (threw & evs & tail & S & L & Hend).
    rewrite (added_of_app _ _ _ L).
    destruct (attempt_tried _ _ _ _ _ _ _ S) as (Hok & Hthrew).
    destruct Hend as [(-> & Ha & -> & ->)
                     | [(-> & Ha & -> & ->) | (-> & -> & ->)]].
    + left. destruct (Hok eq_refl) as (V & X). repeat split; try assumption.
      * rewrite verdicts_app, V. reflexivity.
      * rewrite sent_app. apply Exists_app. left. exact X.
    + right. left. destruct (Hok eq_refl) as (V & X).
      repeat split; try assumption.
      * rewrite verdicts_app, V. reflexivity.
      * rewrite sent_app. apply Exists_app. left. exact X.
    + right. right. destruct (Hthrew eq_refl) as (V & F).
      repeat split.
      * rewrite verdicts_app, V. reflexivity.
      * rewrite sent_app. cbn [sent flat_map app]. rewrite app_nil_r.
        exact F.
Qed.

Lemma X12_witness :
  exists out w',
    Tool.multipartUpload (rejectPart 2) pressCtrlC (oneFile 250000000) 5
      "bucket" "/data/big.bin" (Tool.withChunkSize (Number.ofZ 50000000))
      readyProcess
    = Some (out, w')
    /\ (oneFile 250000000 "/data/big.bin" = None ->
        (exists e, out = Throw e) /\ added readyProcess w' = [])
    /\ (oneFile 250000000 "/data/big.bin" <> None ->
        (succeeded (rejectPart 2) (added readyProcess w')
         /\ pressCtrlC (prompts (log readyProcess)) = Ok tt
         /\ out = Ok tt)
        \/ (verdicts (added readyProcess w') = [LoadingSucceed; LoadingFail]
            /\ Exists (fun cmd =>
                         isCompletion cmd = true
                         /\ accepted (rejectPart 2) cmd)
                 (sent (added readyProcess w'))
            /\ (exists e, pressCtrlC (prompts (log readyProcess)) = Throw e)
            /\ out = pressCtrlC (S (prompts (log readyProcess))))
        \/ (failed (rejectPart 2) (added readyProcess w')
            /\ out = pressCtrlC (prompts (log readyProcess)))).
Proof.
  destruct (Tool.multipartUpload (rejectPart 2) pressCtrlC
              (oneFile 250000000) 5 "bucket" "/data/big.bin"
              (Tool.withChunkSize (Number.ofZ 50000000)) readyProcess)
    as [[out w']|] eqn:E; [| vm_compute in E; discriminate E].
  exists out, w'. split; [reflexivity|].
  exact (X12_verdict_follows_completion _ _ _ _ _ _ _ _ _ _ E).
Defined.



(** ** The chunk size and the end of the loop *)



















(** ** Runs of the upload with an integer chunk size *)

Lemma bind_at {A B} (m m' : M A) (k : A -> M B) w :
  m w = m' w -> bind m k w = bind m' k w.
Proof. intros H. unfold bind. rewrite H. reflexivity. Qed.

Lemma prompts_partEvents bucket fileName uid t c client l :
  prompts (flat_map (partEvents bucket fileName uid t c client
                       (CliLog.shown t c)) l) = 0%nat.
Proof.
  induction l as [|j l IH]; [reflexivity|].
  cbn [flat_map]. rewrite prompts_app, IH. reflexivity.
Qed.

Module ToolFacts.
Section Runs.

Variable remote : command -> outcome response.
Variable ask : nat -> outcome unit.
Variable fileSize : string -> option N.
Variables bucket filePath : string.
Variable option_ : option uploadOptions.
Variable client : S3Client.
Variable size : N.
Variable created : response.
Variable uid : string.

Abbreviation fileName := (uploadName option_ filePath).
Abbreviation createCmd := (createCommand bucket fileName).
Abbreviation completeCmd := (completeCommand bucket fileName uid).
Abbreviation t := (Z.of_N size).
Abbreviation c := (Cli.effectiveChunkSize option_).
Abbreviation shown := (CliLog.shown t c).
Abbreviation opening := (CliLog.opening client bucket fileName).

Abbreviation loop :=
  (uploadParts remote bucket fileName uid t c (Cli.progress t c)).
Abbreviation events := (partEvents bucket fileName uid t c client shown).
Abbreviation record := (partRecord remote bucket fileName uid t c).
Abbreviation cmd := (partCommand bucket fileName uid t c).

Hypothesis file_present : fileSize filePath = Some size.
Hypothesis create_accepted : remote createCmd = Ok created.
Hypothesis upload_id : rUploadId created = Some uid.
Hypothesis upload_id_truthy : uid <> "".
Hypothesis size_safe : t <= 2 ^ 53.
Hypothesis chunk_safe : - 2 ^ 53 <= c <= 2 ^ 53.

Abbreviation run fuel :=
  (Tool.multipartUpload remote ask fileSize fuel bucket filePath
     (Tool.ofIntegers option_)).
Abbreviation tryBlock fuel :=
  (Tool.attempt remote fuel bucket fileName t (Number.ofZ c)).

Lemma run_finished fuel w :
  run fuel w
  = try_catch (tryBlock fuel ;;; input ask)
      (fun error => emit LoadingFail ;;; input ask) w.
Proof.
  rewrite (multipartUpload_split _ _ _ _ _ _ _ _ _ file_present).
  rewrite customFileName_integer, effectiveChunkSize_integer. reflexivity.
Qed.

(** The try block up to the loop. *)
Lemma try_enters fuel w :
  defaultR2Client w = Some client ->
  tryBlock fuel w
  = (parts <- loop fuel 0 [] ;;
     result <- completeMultipartUpload remote bucket fileName uid parts ;;
     emit ConsoleLog ;;; emit LoadingSucceed)
      (with_log w (log w ++ opening)).
Proof.
  intros Hw. unfold Tool.attempt.
  unfold bind at 1, createMultipartUpload, bind at 1, getR2Client.
  rewrite Hw. unfold send, bind at 1, emit, lift.
  cbn [octetStream opt_contentType opt_metadata contentType metadata].
  fold (createCommand bucket fileName). rewrite create_accepted, upload_id.
  destruct uid as [|a s]; [contradiction|].
  unfold bind at 1. cbn [with_log log defaultR2Client constructed].
  unfold CliLog.opening, with_log;
    cbn [with_log log defaultR2Client constructed].
  rewrite <- app_assoc. apply bind_at. apply partLoop_integer; try lia.
  apply effectiveChunkSize_nonzero.
Qed.

(** The try block after a loop that threw. *)
Lemma try_throws fuel w w1 e :
  defaultR2Client w = Some client ->
  loop fuel 0 [] (with_log w (log w ++ opening)) = Some (Throw e, w1) ->
  tryBlock fuel w = Some (Throw e, w1).
Proof.
  intros Hw Hloop. rewrite try_enters by assumption.
  unfold bind at 1. rewrite Hloop. reflexivity.
Qed.

(** The try block after a loop that returned its part list. *)
Lemma try_completes fuel w w1 parts :
  defaultR2Client w = Some client ->
  defaultR2Client w1 = Some client ->
  loop fuel 0 [] (with_log w (log w ++ opening)) = Some (Ok parts, w1) ->
  exists o tail,
    tryBlock fuel w
    = Some (o, with_log w1
                 (log w1 ++ Send client (completeCmd parts) :: tail))
    /\ sent tail = [].
Proof.
  intros Hw Hw1 Hloop. rewrite try_enters by assumption.
  unfold bind at 1. rewrite Hloop.
  unfold bind at 1, completeMultipartUpload, bind at 1, getR2Client.
  rewrite Hw1. unfold send, bind at 1, emit, lift.
  fold (completeCommand bucket fileName uid parts).
  destruct (remote (completeCmd parts)) as [r|e].
  - exists (Ok tt), [ConsoleLog; LoadingSucceed]. split; [|reflexivity].
    unfold bind, with_log; cbn [with_log log defaultR2Client constructed].
    rewrite <- !app_assoc. reflexivity.
  - exists (Throw e), []. split; reflexivity.
Qed.

(** Part [k] is rejected after the parts before it were accepted: the
    handler shows the failure and the outcome is that of its prompt. *)
Lemma upload_part_rejected fuel w k e :
  defaultR2Client w = Some client ->
  0 < c ->
  1 <= k <= partCount t c ->
  (forall j, 1 <= j < k -> exists r, remote (cmd j) = Ok r) ->
  remote (cmd k) = Throw e ->
  (Z.to_nat k <= fuel)%nat ->
  run fuel w
  = Some (ask (prompts (log w)),
          with_log w
            (log w ++ opening
               ++ flat_map events (zrange 1 (Z.to_nat (k - 1)))
               ++ [Send client (cmd k); LoadingFail; Input])).
Proof.
  intros Hw Hc Hk Hacc Hrej Hfuel. rewrite run_finished.
  erewrite (finished_catches ask (fun _ => LoadingFail) (fun _ => eq_refl));
    [| apply try_throws; [exact Hw|] ].
  2:{ apply (uploadParts_rejected remote bucket fileName uid t c
               (Cli.progress t c) client shown Hc) with (k := k);
        try (cbn [defaultR2Client with_log]; assumption).
      - intros j w' Hj Hlt. apply Cli_progress_fits.
        pose proof (barCells_inner j t c Hc Hj Hlt). lia.
      - eassumption. }
  cbn [log with_log].
  rewrite !prompts_app, prompts_partEvents. cbn [prompts filter List.length].
  rewrite !Nat.add_0_r.
  unfold with_log; cbn [with_log log defaultR2Client constructed].
  rewrite <- !app_assoc. reflexivity.
Qed.

(** The store accepts every part: all of them are sent, and the
    completion request is sent exactly when the bar of the last part
    fits. *)
Lemma upload_all_accepted fuel w :
  defaultR2Client w = Some client ->
  0 < c -> 0 < t ->
  acceptsParts remote ->
  (Z.to_nat (partCount t c) <= fuel)%nat ->
  exists o w',
    run fuel w = Some (o, w')
    /\ (exists evs, log w' = log w ++ evs)
    /\ uploadedParts (added w w')
       = map (fun j => (j, partRange t c j))
           (zrange 1 (Z.to_nat (partCount t c)))
    /\ (barCells (partCount t c) t c <= 50 ->
        completions (added w w')
        = [map record (zrange 1 (Z.to_nat (partCount t c)))])
    /\ (50 < barCells (partCount t c) t c -> completions (added w w') = []).
Proof.
  intros Hw Hc Ht Hacc Hfuel.
  assert (B := partCount_bounds t c Hc).
  assert (Hn : 1 <= partCount t c) by nia.
  assert (Hparts : forall j, 1 <= j <= partCount t c ->
            exists r, remote (cmd j) = Ok r) by (intros j _; apply Hacc).
  assert (Hinner : forall j w0, 0 < j -> j * c < t ->
            Cli.progress t c j w0
            = Some (Ok tt, with_log w0 (log w0 ++ shown j))).
  { intros j w0 Hj Hlt. apply Cli_progress_fits.
    pose proof (barCells_inner j t c Hc Hj Hlt). lia. }
  assert (L := barCells_last (partCount t c) t c Hc Ht ltac:(lia)).
  destruct (Z_le_gt_dec (barCells (partCount t c) t c) 50) as [Hfit|Hover].
  - destruct (try_completes fuel w
                (with_log w
                   (log w ++ opening
                      ++ flat_map events
                           (zrange 1 (Z.to_nat (partCount t c)))))
                (map record (zrange 1 (Z.to_nat (partCount t c)))) Hw Hw)
      as (o1 & tail1 & Htry & Hsilent1).
    { rewrite (uploadParts_complete remote bucket fileName uid t c
                 (Cli.progress t c) client shown Hc Hinner fuel
                 (with_log w (log w ++ opening)) Ht Hw Hparts);
        [| intros w'; apply Cli_progress_fits; lia | exact Hfuel].
      unfold with_log; cbn [with_log log defaultR2Client constructed].
      rewrite <- !app_assoc. reflexivity. }
    destruct (finished_ends ask (fun _ => LoadingFail) (fun _ => eq_refl)
                (tryBlock fuel) w o1 _ Htry) as (o & tail & Hrun & Hsilent).
    exists o. eexists. split; [rewrite run_finished; exact Hrun|].
    cbn [log with_log]. split.
    { eexists. rewrite <- !app_assoc. reflexivity. }
    rewrite (added_of_app w _
               (opening
                ++ flat_map events (zrange 1 (Z.to_nat (partCount t c)))
                ++ (Send client
                      (completeCmd
                         (map record (zrange 1 (Z.to_nat (partCount t c)))))
                    :: tail1) ++ tail))
      by (cbn [log with_log]; rewrite <- !app_assoc; reflexivity).
    rewrite !uploadedParts_app, !completions_app.
    rewrite uploadedParts_partEvents, completions_partEvents by reflexivity.
    rewrite (uploadedParts_silent tail Hsilent),
      (completions_silent tail Hsilent).
    change (Send client
              (completeCmd
                 (map record (zrange 1 (Z.to_nat (partCount t c)))))
            :: tail1)
      with ([Send client
               (completeCmd
                  (map record (zrange 1 (Z.to_nat (partCount t c)))))]
            ++ tail1).
    rewrite uploadedParts_app, completions_app.
    rewrite (uploadedParts_silent tail1 Hsilent1),
      (completions_silent tail1 Hsilent1).
    split; [| split].
    + cbn. rewrite !app_nil_r. reflexivity.
    + intros _. reflexivity.
    + intros H. lia.
  - destruct (finished_ends ask (fun _ => LoadingFail) (fun _ => eq_refl)
                (tryBlock fuel) w (Throw RangeError)
                (with_log w
                   (log w ++ opening
                      ++ flat_map events
                           (zrange 1 (Z.to_nat (partCount t c - 1)))
                      ++ [Send client (cmd (partCount t c))])))
      as (o & tail & Hrun & Hsilent).
    { apply try_throws; [exact Hw|].
      rewrite (uploadParts_display_throws remote bucket fileName uid t c
                 (Cli.progress t c) client shown Hc Hinner fuel
                 (with_log w (log w ++ opening)) RangeError Ht Hw Hparts);
        [| intros w'; apply Cli_progress_overflows; lia | exact Hfuel].
      unfold with_log; cbn [with_log log defaultR2Client constructed].
      rewrite <- !app_assoc. reflexivity. }
    exists o. eexists. split; [rewrite run_finished; exact Hrun|].
    cbn [log with_log]. split.
    { eexists. rewrite <- !app_assoc. reflexivity. }
    rewrite (added_of_app w _
               (opening
                ++ flat_map events
                     (zrange 1 (Z.to_nat (partCount t c - 1)))
                ++ [Send client (cmd (partCount t c))] ++ tail))
      by (cbn [log with_log]; rewrite <- !app_assoc; reflexivity).
    rewrite !uploadedParts_app, !completions_app.
    rewrite uploadedParts_partEvents, completions_partEvents by reflexivity.
    rewrite (uploadedParts_silent tail Hsilent),
      (completions_silent tail Hsilent).
    split; [| split].
    + cbn [app]. rewrite app_nil_r.
      replace (Z.to_nat (partCount t c))
        with (S (Z.to_nat (partCount t c - 1))) by lia.
      rewrite zrange_snoc, map_app. cbn [map].
      replace (1 + Z.of_nat (Z.to_nat (partCount t c - 1)))
        with (partCount t c) by lia.
      reflexivity.
    + intros H. lia.
    + intros _. reflexivity.
Qed.

End Runs.
End ToolFacts.

(** ** A rejected part *)

Section ToolSession.

Variable remote : command -> outcome response.
Variable ask : nat -> outcome unit.
Variable fileSize : string -> option N.
Variables bucket filePath : string.
Variable option_ : option uploadOptions.
Variable client : S3Client.
Variable size : N.
Variable created : response.
Variable uid : string.
Variable w : world.

Abbreviation fileName := (uploadName option_ filePath).
Abbreviation t := (Z.of_N size).
Abbreviation c := (Cli.effectiveChunkSize option_).
Abbreviation cmd := (partCommand bucket fileName uid t c).
Abbreviation run fuel :=
  (Tool.multipartUpload remote ask fileSize fuel bucket filePath
     (Tool.ofIntegers option_)).

Hypothesis initialized : defaultR2Client w = Some client.
Hypothesis file_present : fileSize filePath = Some size.
Hypothesis create_accepted :
  remote (createCommand bucket fileName) = Ok created.
Hypothesis upload_id : rUploadId created = Some uid.
Hypothesis upload_id_truthy : uid <> "".
Hypothesis size_safe : t <= 2 ^ 53.
Hypothesis chunk_safe : c <= 2 ^ 53.

(** C4, as the code has it.  When the store rejects part k (1 <= k <= n)
    after accepting the parts before it, the upload of the command-line
    tool sends parts 1..k and no part after k, and sends no completion
    command; it catches the rejection itself: after the rejected request it
    only shows its failure text (loading.fail) and its prompt, and its
    outcome is the outcome of that prompt, whatever the error of the part.
    It returns when the user answers the prompt and throws the prompt's
    own error when the user leaves it; the error of the part reaches no
    caller. *)
Theorem C4_rejected_part_stops_the_upload :
  forall fuel k e,
    0 < c ->
    1 <= k <= partCount t c ->
    (forall j, 1 <= j < k -> exists r, remote (cmd j) = Ok r) ->
    remote (cmd k) = Throw e ->
    (Z.to_nat k <= fuel)%nat ->
    exists w' before,
      run fuel w = Some (ask (prompts (log w)), w')
      /\ added w w' = before ++ [Send client (cmd k); LoadingFail; Input]
      /\ map fst (uploadedParts (added w w')) = zrange 1 (Z.to_nat k)
      /\ completions (added w w') = [].
Proof.
  intros fuel k e Hc Hk Hacc Hrej Hfuel.
  eexists. eexists. split.
  { apply (ToolFacts.upload_part_rejected remote ask fileSize bucket filePath
             option_ client size created uid) with (k := k) (e := e);
      try assumption. lia. }
  rewrite added_app. split; [| split].
  - rewrite app_assoc. reflexivity.
  - rewrite !uploadedParts_app.
    rewrite uploadedParts_partEvents by reflexivity.
    change (uploadedParts (CliLog.opening client bucket fileName))
      with (@nil (Z * chunk)).
    cbn [app]. rewrite map_app, map_map. cbn [fst map uploadedParts].
    rewrite map_id.
    replace (Z.to_nat k) with (S (Z.to_nat (k - 1))) by lia.
    rewrite zrange_snoc.
    replace (1 + Z.of_nat (Z.to_nat (k - 1))) with k by lia.
    reflexivity.
  - rewrite !completions_app.
    rewrite completions_partEvents by reflexivity. reflexivity.
Qed.

End ToolSession.

Lemma C4_witness :
  exists w' before,
    Tool.multipartUpload (rejectPart 2) pressCtrlC (oneFile 250000000) 5
      "bucket" "/data/big.bin" (Tool.ofIntegers (withChunkSize 50000000))
      readyProcess
    = Some (pressCtrlC (prompts (log readyProcess)), w')
    /\ added readyProcess w'
       = before
         ++ [Send demoClient
               (partCommand "bucket" "big.bin" "upload-1" 250000000
                  50000000 2);
             LoadingFail; Input]
    /\ map fst (uploadedParts (added readyProcess w')) = [1; 2]
    /\ completions (added readyProcess w') = [].
Proof.
  apply (C4_rejected_part_stops_the_upload (rejectPart 2) pressCtrlC
           (oneFile 250000000) "bucket" "/data/big.bin"
           (withChunkSize 50000000) demoClient 250000000%N demoResponse
           "upload-1" readyProcess)
    with (fuel := 5%nat) (k := 2)
         (e := ServiceError "InternalError" (Some 500)).
  - reflexivity.
  - reflexivity.
  - reflexivity.
  - reflexivity.
  - discriminate.
  - vm_compute. discriminate.
  - vm_compute. discriminate.
  - reflexivity.
  - vm_compute. split; discriminate.
  - intros j Hj. exists demoResponse.
    assert (j = 1) as -> by lia. reflexivity.
  - reflexivity.
  - vm_compute. lia.
Defined.

(** C4 fails as stated: part 2 of 5 is rejected with an InternalError and
    no caller sees that error.  The upload returns when the user answers
    the prompt, and throws the ExitPromptError of the prompt when the user
    leaves it with Ctrl+C; its outcome is the outcome of the prompt for
    every user. *)
Lemma C4_counterexample :
  partCount 250000000 50000000 = 5
  /\ rejectPart 2
       (partCommand "bucket" "big.bin" "upload-1" 250000000 50000000 2)
     = Throw (ServiceError "InternalError" (Some 500))
  /\ (exists w',
        Tool.multipartUpload (rejectPart 2) pressEnter (oneFile 250000000)
          5 "bucket" "/data/big.bin"
          (Tool.withChunkSize (Number.ofZ 50000000)) readyProcess
        = Some (Ok tt, w'))
  /\ (exists w',
        Tool.multipartUpload (rejectPart 2) pressCtrlC (oneFile 250000000)
          5 "bucket" "/data/big.bin"
          (Tool.withChunkSize (Number.ofZ 50000000)) readyProcess
        = Some (Throw exitPrompt, w'))
  /\ exitPrompt <> ServiceError "InternalError" (Some 500)
  /\ forall ask,
       exists w',
         Tool.multipartUpload (rejectPart 2) ask (oneFile 250000000) 5
           "bucket" "/data/big.bin"
           (Tool.withChunkSize (Number.ofZ 50000000)) readyProcess
         = Some (ask 0%nat, w').
Proof.
  split; [reflexivity|]. split; [reflexivity|].
  split; [eexists; vm_compute; reflexivity|].
  split; [eexists; vm_compute; reflexivity|].
  split; [discriminate|].
  intros ask. eexists. vm_compute. reflexivity.
Qed.

(** ** The requests of the upload, whatever the answers to the prompts *)

(** The answers to the prompts change neither whether the upload ends nor
    what it sends. *)
Lemma multipartUpload_any_answer remote ask ask' fileSize fuel bucket
    filePath option_ w o w' :
  Tool.multipartUpload remote ask fileSize fuel bucket filePath option_ w
  = Some (o, w') ->
  exists o2 w2 evs evs2,
    Tool.multipartUpload remote ask' fileSize fuel bucket filePath option_ w
    = Some (o2, w2)
    /\ log w' = log w ++ evs
    /\ log w2 = log w ++ evs2
    /\ sent evs = sent evs2.
Proof.
  intros Hrun. destruct (fileSize filePath) as [size|] eqn:Hf.
  2:{ rewrite multipartUpload_unread in Hrun by exact Hf.
      inversion Hrun; subst.
      exists (Throw (Error "ENOENT")), w', [], [].
      rewrite multipartUpload_unread by exact Hf.
      rewrite app_nil_r. auto. }
  rewrite (multipartUpload_split _ _ _ _ _ _ _ _ _ Hf) in Hrun.
  rewrite (multipartUpload_split _ ask' _ _ _ _ _ _ _ Hf).
  apply (finished_cases ask (fun _ => LoadingFail) (fun _ => eq_refl))
    in Hrun.
  assert (H : exists o1 w1 tail,
            Tool.attempt remote fuel bucket
              (JS.or_string (Tool.opt_customFileName option_)
                 (getFileName filePath))
              (Z.of_N size) (Tool.effectiveChunkSize option_) w
            = Some (o1, w1)
            /\ log w' = log w1 ++ tail
            /\ sent tail = []).
  { destruct Hrun as [(w1 & Hm & _ & _ & ->)
                     | [(w1 & e & Hm & _ & _ & ->) | (w1 & e & Hm & _ & ->)]];
      eexists; exists w1; eexists; (split; [exact Hm|]);
      split; reflexivity. }
  destruct H as (o1 & w1 & tail & Hm & L & Hs).
  destruct (attempt_log _ _ _ _ _ _ _ _ _ Hm) as (e1 & L1 & _).
  destruct (finished_ends ask' (fun _ => LoadingFail) (fun _ => eq_refl) _
              w o1 w1 Hm) as (o2 & tail2 & Hrun2 & Hs2).
  exists o2. eexists. exists (e1 ++ tail), (e1 ++ tail2).
  split; [exact Hrun2|]. cbn [log with_log].
  rewrite L, L1, <- !app_assoc, !sent_app, Hs, Hs2. auto.
Qed.

(** For an integer chunk size and a file of at most 2^53 bytes, the
    requests of the upload are those of [Cli.multipartUpload]. *)
Lemma yields_Tool_multipartUpload remote ask fileSize fuel bucket filePath
    option_ :
  sizeAt fileSize filePath <= 2 ^ 53 ->
  - 2 ^ 53 <= Cli.effectiveChunkSize option_ <= 2 ^ 53 ->
  yields (fun _ evs =>
            uploadShape remote bucket (uploadName option_ filePath)
              (sizeAt fileSize filePath) (Cli.effectiveChunkSize option_)
              (sent evs))
    (Tool.multipartUpload remote ask fileSize fuel bucket filePath
       (Tool.ofIntegers option_)).
Proof.
  intros Hs Hc w o w' E.
  destruct (multipartUpload_any_answer _ _ pressEnter _ _ _ _ _ _ _ _ E)
    as (o2 & w2 & evs & evs2 & E2 & L & L2 & Hsent).
  rewrite Tool_is_Cli in E2 by assumption.
  destruct (yields_Cli_multipartUpload _ _ _ _ _ _ _ _ _ E2)
    as (evs3 & L3 & S3).
  rewrite L2 in L3. apply app_inv_head in L3. subst evs3.
  exists evs. split; [exact L|]. rewrite Hsent. exact S3.
Qed.

Lemma logs_input ask : logs silent (input ask).
Proof.
  intros w o w' E. inversion E; subst. exists [Input]. split; reflexivity.
Qed.

(** The handler of the command-line tool: a failure text, then the
    prompt, whose outcome is the outcome of the handler. *)
Lemma yields_handler ask e :
  silent [e] ->
  yields (fun o evs => (exists n, o = ask n) /\ silent evs)
    (emit e ;;; input ask).
Proof.
  intros He w o w' E. inversion E; subst. exists [e; Input]. split; [|split].
  - cbn [log with_log]. rewrite <- app_assoc. reflexivity.
  - eauto.
  - change [e; Input] with ([e] ++ [Input]). apply silent_app;
      [exact He | reflexivity].
Qed.

Lemma uploadName_delegated option_ filePath :
  uploadName (CliFiles.delegated (uploadName option_ filePath)) filePath
  = uploadName option_ filePath.
Proof.
  unfold uploadName, CliFiles.delegated, opt_customFileName, JS.or_string.
  cbn [customFileName].
  destruct option_ as [[cs [[|a s]|]]|]; cbn [customFileName];
    destruct (getFileName filePath); reflexivity.
Qed.

Lemma yields_delegated remote ask fileSize fuel bucket filePath option_ n :
  fileSize filePath = Some n ->
  Z.of_N n <= 2 ^ 53 ->
  yields (fun _ evs =>
            uploadShape remote bucket (uploadName option_ filePath)
              (Z.of_N n) (50 * 1024 * 1024) (sent evs))
    (emit ConsoleLog ;;;
     Tool.multipartUpload remote ask fileSize fuel bucket filePath
       (Tool.ofIntegers
          (CliFiles.delegated (uploadName option_ filePath)))).
Proof.
  intros Ef Hn.
  eapply (yields_bind (fun _ => silent)
            (fun _ _ evs =>
               uploadShape remote bucket (uploadName option_ filePath)
                 (Z.of_N n) (50 * 1024 * 1024) (sent evs))).
  - apply yields_of_logs, logs_emit. reflexivity.
  - intros u w o w' E.
    destruct (yields_Tool_multipartUpload remote ask fileSize fuel bucket
                filePath (CliFiles.delegated (uploadName option_ filePath)))
      with (w := w) (o := o) (w' := w') as (evs & L & S).
    + unfold sizeAt. rewrite Ef. exact Hn.
    + vm_compute. split; discriminate.
    + exact E.
    + exists evs. split; [exact L|].
      rewrite uploadName_delegated in S.
      unfold sizeAt in S. rewrite Ef in S. exact S.
  - intros e e1 Hs. left. exact Hs.
  - intros u e1 o e2 Hs H. rewrite sent_app, Hs. exact H.
Qed.

Lemma yields_Cli_uploadFile remote ask fileSize spinnerStart fuel bucket
    filePath option_ :
  logs silent spinnerStart ->
  sizeAt fileSize filePath <= 2 ^ 53 ->
  yields (fun o evs =>
            (o = Ok tt \/ exists n, o = ask n)
            /\ cliUploadSends remote fileSize bucket filePath option_
                 (sent evs))
    (CliFiles.uploadFile remote ask fileSize spinnerStart fuel bucket
       filePath option_).
Proof.
  intros Hspin Hsize. unfold CliFiles.uploadFile.
  fold (uploadName option_ filePath).
  eapply (yields_try_catch
            (fun _ evs =>
               cliUploadSends remote fileSize bucket filePath option_
                 (sent evs))
            (fun _ o evs => (exists n, o = ask n) /\ silent evs)).
  - unfold readFile, cliUploadSends. unfold sizeAt in Hsize.
    destruct (fileSize filePath) as [n|] eqn:Ef.
    2:{ intros w o w' E. inversion E; subst. exists [].
        rewrite app_nil_r. split; reflexivity. }
    intros w o w' E.
    change (bind (ret (Z.of_N n)) ?k w) with (k (Z.of_N n) w) in E.
    cbv beta in E.
    destruct (Z.of_N n >? 300 * 1024 * 1024).
    + exact (yields_delegated remote ask fileSize fuel bucket filePath
               option_ n Ef Hsize w o w' E).
    + refine (yields_put remote bucket _ _ _ _ Hspin _ w o w' E).
      apply logs_silent_pair; [apply logs_emit; reflexivity|].
      apply logs_input.
  - intros e. apply yields_handler. reflexivity.
  - intros [] e1 H. split; [left; reflexivity | exact H].
  - intros e e1 o e2 H (Ho & Hs). split; [right; exact Ho|].
    rewrite sent_app, Hs, app_nil_r. exact H.
Qed.

Section LargeFile.

Variable remote : command -> outcome response.
Variable ask : nat -> outcome unit.
Variable fileSize : string -> option N.
Variable spinnerStart : M unit.
Variables bucket filePath : string.
Variable option_ : option uploadOptions.
Variable size : N.
Variable w : world.

Hypothesis file_present : fileSize filePath = Some size.
Hypothesis large : 300 * 1024 * 1024 < Z.of_N size.

(** The run of [uploadFile] on a large file is the run of
    [multipartUpload] after the console line, and then the handler when
    [multipartUpload] threw. *)
Lemma uploadFile_delegates fuel o1 w1 :
  Tool.multipartUpload remote ask fileSize fuel bucket filePath
    (Tool.ofIntegers (CliFiles.delegated (uploadName option_ filePath)))
    (with_log w (log w ++ [ConsoleLog]))
  = Some (o1, w1) ->
  exists o tail,
    CliFiles.uploadFile remote ask fileSize spinnerStart fuel bucket
      filePath option_ w
    = Some (o, with_log w1 (log w1 ++ tail))
    /\ sent tail = [].
Proof.
  intros Hrun.
  unfold CliFiles.uploadFile, try_catch, readFile.
  rewrite file_present. unfold bind at 1, ret.
  destruct (Z.gtb_spec (Z.of_N size) (300 * 1024 * 1024)) as [_|H];
    [|lia].
  unfold bind at 1, emit. fold (uploadName option_ filePath).
  rewrite Hrun. destruct o1 as [[]|e].
  - exists (Ok tt), []. rewrite app_nil_r, with_log_same. auto.
  - eexists. exists [LoadingFail; Input]. split; [|reflexivity].
    unfold bind, input. cbn [log with_log].
    unfold with_log; cbn [log defaultR2Client constructed].
    rewrite <- !app_assoc. reflexivity.
Qed.

End LargeFile.

(** X16.  uploadFile of the command-line tool throws nothing but what one
    of its prompts throws: it returns normally, or its outcome is the
    outcome of a prompt.  And, the spinner sending nothing of its own, what
    it sends is decided by the size of the file alone: for a file of at
    most 300 MiB nothing but, at most, one PutObject request for the whole
    file with an empty content type; for a file above 300 MiB only the
    requests of a multipart upload with a chunk size of 50 MiB, under the
    same key; for a file that cannot be read, nothing. *)
Theorem X16_uploadFile_switches_at_300MiB :
  forall remote ask fileSize spinnerStart fuel bucket filePath option_ w o
         w',
    logs silent spinnerStart ->
    sizeAt fileSize filePath <= 2 ^ 53 ->
    CliFiles.uploadFile remote ask fileSize spinnerStart fuel bucket
      filePath option_ w
    = Some (o, w') ->
    (o = Ok tt \/ exists n, o = ask n)
    /\ cliUploadSends remote fileSize bucket filePath option_
         (sent (added w w')).
Proof.
  intros remote ask fileSize spinnerStart fuel bucket filePath option_ w o
    w' Hspin Hsize Hrun.
  destruct (yields_Cli_uploadFile remote ask fileSize spinnerStart fuel
              bucket filePath option_ Hspin Hsize w o w' Hrun)
    as (evs & L & H).
  rewrite (added_of_app _ _ _ L). exact H.
Qed.

Lemma X16_witness :
  exists out w',
    CliFiles.uploadFile acceptAll pressCtrlC (oneFile 1000) (ret tt) 0
      "bucket" "/data/small.txt" None readyProcess
    = Some (out, w')
    /\ (out = Ok tt \/ exists n, out = pressCtrlC n)
    /\ cliUploadSends acceptAll (oneFile 1000) "bucket" "/data/small.txt"
         None (sent (added readyProcess w')).
Proof.
  destruct (CliFiles.uploadFile acceptAll pressCtrlC (oneFile 1000) (ret tt)
              0 "bucket" "/data/small.txt" None readyProcess)
    as [[out w']|] eqn:E; [| vm_compute in E; discriminate E].
  exists out, w'. split; [reflexivity|].
  assert (Hsize : sizeAt (oneFile 1000) "/data/small.txt" <= 2 ^ 53)
    by (vm_compute; discriminate).
  exact (X16_uploadFile_switches_at_300MiB acceptAll pressCtrlC
           (oneFile 1000) (ret tt) 0%nat "bucket" "/data/small.txt" None
           readyProcess out w' (logs_ret silent tt eq_refl) Hsize E).
Defined.

(** X17.  A file above 300 MiB (and of at most 2^53 bytes) handed to
    uploadFile goes up in parts of 50 MiB.  When the store accepts
    everything, the function ends, however the prompts are answered, all
    the parts are sent, and the completion request is sent exactly when the
    bar of the last part fits, that is unless
    51 * size <= 50 * parts * 50 MiB.  In particular no file of more than
    300 MiB and at most 359805490 bytes (about 343 MiB) is ever completed,
    and every file above that size and up to 350 MiB is. *)
Theorem X17_large_upload_completes_iff_bar_fits :
  forall remote ask fileSize spinnerStart fuel bucket filePath option_
         client size created uid w,
    defaultR2Client w = Some client ->
    fileSize filePath = Some size ->
    300 * 1024 * 1024 < Z.of_N size ->
    Z.of_N size <= 2 ^ 53 ->
    remote (createCommand bucket (uploadName option_ filePath))
    = Ok created ->
    rUploadId created = Some uid ->
    uid <> "" ->
    acceptsParts remote ->
    (Z.to_nat (partCount (Z.of_N size) (50 * 1024 * 1024)) <= fuel)%nat ->
    exists out w',
      CliFiles.uploadFile remote ask fileSize spinnerStart fuel bucket
        filePath option_ w
      = Some (out, w')
      /\ map fst (uploadedParts (added w w'))
         = zrange 1 (Z.to_nat (partCount (Z.of_N size) (50 * 1024 * 1024)))
      /\ (completions (added w w') = []
          <-> 51 * Z.of_N size
              <= 50 * (partCount (Z.of_N size) (50 * 1024 * 1024)
                       * (50 * 1024 * 1024)))
      /\ (Z.of_N size <= lastStalledSize -> completions (added w w') = [])
      /\ (lastStalledSize < Z.of_N size <= 350 * 1024 * 1024 ->
          completions (added w w') <> []).
Proof.
  intros remote ask fileSize spinnerStart fuel bucket filePath option_
    client size created uid w Hw Hf Hlarge Hsafe Hcreate Hid Huid Hacc
    Hfuel.
  set (t := Z.of_N size) in *. set (c := 50 * 1024 * 1024) in *.
  set (name := uploadName option_ filePath) in *.
  set (w1 := with_log w (log w ++ [ConsoleLog])).
  assert (Hw1 : defaultR2Client w1 = Some client) by exact Hw.
  assert (Hcreate' :
            remote (createCommand bucket
                      (uploadName (CliFiles.delegated name) filePath))
            = Ok created)
    by (unfold name; rewrite uploadName_delegated; exact Hcreate).
  assert (Hc : 0 < c) by reflexivity.
  assert (Ht : 0 < t) by lia.
  assert (B := partCount_bounds t c Hc).
  destruct (ToolFacts.upload_all_accepted remote ask fileSize bucket filePath
              (CliFiles.delegated name) client size created uid
              Hf Hcreate' Hid Huid Hsafe
              ltac:(vm_compute; split; discriminate)
              fuel w1 Hw1 Hc Ht Hacc Hfuel)
    as (o1 & w2 & Hrun & (evs & L) & Hparts & Hfits & Hover).
  destruct (uploadFile_delegates remote ask fileSize spinnerStart bucket
              filePath option_ size w Hf Hlarge fuel o1 w2 Hrun)
    as (out & tail & Hup & Hsilent).
  exists out. eexists. split; [exact Hup|].
  rewrite (added_of_app w _ ([ConsoleLog] ++ evs ++ tail))
    by (cbn [log with_log]; rewrite L; unfold w1; cbn [log with_log];
        rewrite <- !app_assoc; reflexivity).
  rewrite (added_of_app w1 w2 evs L) in Hparts, Hfits, Hover.
  rewrite !uploadedParts_app, !completions_app,
    (uploadedParts_silent tail Hsilent), (completions_silent tail Hsilent).
  change (uploadedParts [ConsoleLog]) with (@nil (Z * chunk)).
  change (completions [ConsoleLog]) with (@nil (list PartRecord)).
  cbn [app]. rewrite !app_nil_r.
  split.
  { rewrite Hparts, map_map. cbn [fst]. apply map_id. }
  assert (Hiff : completions evs = []
                 <-> 51 * t <= 50 * (partCount t c * c)).
  { destruct (Z_le_gt_dec (barCells (partCount t c) t c) 50) as [Hfit|Hov].
    - rewrite (Hfits Hfit). split; [discriminate|].
      intros Hle.
      apply (barCells_overflow_iff (partCount t c) t c) in Hle;
        [| reflexivity | exact Ht].
      exfalso. exact (Z.lt_irrefl _ (Z.lt_le_trans _ _ _ Hle Hfit)).
    - rewrite (Hover (Z.gt_lt _ _ Hov)). split; [|reflexivity].
      intros _.
      apply (barCells_overflow_iff (partCount t c) t c);
        [reflexivity | exact Ht | apply Z.gt_lt, Hov]. }
  split; [exact Hiff|]. split.
  - intros Hsmall. apply Hiff. unfold lastStalledSize in Hsmall.
    unfold c in *. lia.
  - intros Hmid Hnone. apply Hiff in Hnone.
    unfold lastStalledSize in Hmid. unfold c in *. lia.
Qed.

Lemma X17_witness :
  exists out w',
    CliFiles.uploadFile acceptAll pressCtrlC (oneFile 314572801) (ret tt) 7
      "bucket" "/data/big.bin" None readyProcess
    = Some (out, w')
    /\ map fst (uploadedParts (added readyProcess w'))
       = zrange 1 (Z.to_nat (partCount (Z.of_N 314572801)
                               (50 * 1024 * 1024)))
    /\ (completions (added readyProcess w') = []
        <-> 51 * Z.of_N 314572801
            <= 50 * (partCount (Z.of_N 314572801) (50 * 1024 * 1024)
                     * (50 * 1024 * 1024)))
    /\ (Z.of_N 314572801 <= lastStalledSize ->
        completions (added readyProcess w') = [])
    /\ (lastStalledSize < Z.of_N 314572801 <= 350 * 1024 * 1024 ->
        completions (added readyProcess w') <> []).
Proof.
  apply (X17_large_upload_completes_iff_bar_fits acceptAll pressCtrlC
           (oneFile 314572801) (ret tt) 7 "bucket" "/data/big.bin" None
           demoClient 314572801%N demoResponse "upload-1" readyProcess).
  - reflexivity.
  - reflexivity.
  - reflexivity.
  - vm_compute. discriminate.
  - reflexivity.
  - reflexivity.
  - discriminate.
  - intros b k u n body. exists demoResponse. reflexivity.
  - vm_compute. lia.
Defined.

(** X19.  deleteFile of the command-line tool, for every answer to its
    prompts.  When the delete fails (no client, or the store rejects the
    request) it prints the very error that made it fail, prompts, and its
    outcome is that prompt's.  When the delete succeeds it prints its
    line and prompts: it returns when the prompt is answered; when the
    prompt is left with Ctrl+C, that rejection is caught as well: it is
    printed by console.error, a second prompt is shown, and the outcome is
    the second prompt's.  In every case exactly one DeleteObject request
    is sent with an initialised client and none without one.  deleteFile
    of the example script has no prompt and always returns normally,
    printing an error exactly when the delete failed. *)
Theorem X19_deleteFile_prints_what_it_catches :
  forall remote ask bucket fileName w,
    (forall e,
       deleteFailure remote bucket fileName w = Some e ->
       CliFiles.deleteFile remote ask bucket fileName w
       = Some (ask (prompts (log w)),
               with_log w
                 (log w
                  ++ match defaultR2Client w with
                     | Some client =>
                         [Send client (DeleteObjectCommand bucket fileName)]
                     | None => []
                     end
                  ++ [ConsoleError e; Input])))
    /\ (deleteFailure remote bucket fileName w = None ->
        exists client,
          defaultR2Client w = Some client
          /\ CliFiles.deleteFile remote ask bucket fileName w
             = match ask (prompts (log w)) with
               | Ok _ =>
                   Some (Ok tt,
                         with_log w
                           (log w
                            ++ [Send client
                                  (DeleteObjectCommand bucket fileName);
                                ConsoleLog; Input]))
               | Throw e =>
                   Some (ask (S (prompts (log w))),
                         with_log w
                           (log w
                            ++ [Send client
                                  (DeleteObjectCommand bucket fileName);
                                ConsoleLog; Input; ConsoleError e; Input]))
               end)
    /\ (exists evs,
          ExampleFiles.deleteFile remote bucket fileName w
          = Some (Ok tt, with_log w (log w ++ evs))
          /\ sent evs
             = match defaultR2Client w with
               | Some _ => [DeleteObjectCommand bucket fileName]
               | None => []
               end
          /\ printedErrors evs
             = match deleteFailure remote bucket fileName w with
               | Some e => [e]
               | None => []
               end).
Proof.
  intros remote ask bucket fileName w. split; [| split].
  - intros e He.
    unfold CliFiles.deleteFile, deleteFailure, try_catch, deleteObject,
      bind, getR2Client, send, bind, emit, lift, input in *.
    cbn [defaultR2Client with_log log constructed].
    destruct (defaultR2Client w) as [client|];
      [destruct (remote (DeleteObjectCommand bucket fileName)) as [r|e'];
       [discriminate He|]|];
      inversion He; subst; cbn [log with_log];
      rewrite !prompts_app; cbn [prompts filter List.length app];
      rewrite !Nat.add_0_r;
      unfold with_log; cbn [defaultR2Client log constructed];
      repeat rewrite <- app_assoc; reflexivity.
  - intros Hnone.
    unfold CliFiles.deleteFile, deleteFailure, try_catch, deleteObject,
      bind, getR2Client, send, bind, emit, lift, input in *.
    cbn [defaultR2Client with_log log constructed].
    destruct (defaultR2Client w) as [client|]; [|discriminate Hnone].
    destruct (remote (DeleteObjectCommand bucket fileName)) as [r|e'];
      [|discriminate Hnone].
    exists client. split; [reflexivity|]. cbn [log with_log].
    rewrite !prompts_app. cbn [prompts filter List.length app].
    rewrite !Nat.add_0_r.
    destruct (ask (prompts (log w))) as [[]|e].
    + unfold with_log; cbn [defaultR2Client log constructed].
      repeat rewrite <- app_assoc. reflexivity.
    + cbn [log with_log].
      rewrite !prompts_app. cbn [prompts filter List.length app].
      rewrite !Nat.add_0_r, Nat.add_1_r.
      unfold with_log; cbn [defaultR2Client log constructed].
      repeat rewrite <- app_assoc. reflexivity.
  - unfold ExampleFiles.deleteFile, deleteFailure,
      try_catch, deleteObject, bind, getR2Client, send, bind, emit, lift.
    cbn [defaultR2Client with_log log constructed].
    destruct (defaultR2Client w) as [client|];
      [destruct (remote (DeleteObjectCommand bucket fileName)) as [r|e]|];
      (eexists;
       (split;
        [unfold with_log; cbn [defaultR2Client log constructed];
         rewrite <- ?app_assoc; reflexivity
        | repeat split; reflexivity])).
Qed.

Lemma X19_witness :
  deleteFailure acceptAll "bucket" "a.txt" readyProcess = None
  /\ exists client,
       defaultR2Client readyProcess = Some client
       /\ CliFiles.deleteFile acceptAll pressCtrlC "bucket" "a.txt"
            readyProcess
          = match pressCtrlC (prompts (log readyProcess)) with
            | Ok _ =>
                Some (Ok tt,
                      with_log readyProcess
                        (log readyProcess
                         ++ [Send client
                               (DeleteObjectCommand "bucket" "a.txt");
                             ConsoleLog; Input]))
            | Throw e =>
                Some (pressCtrlC (S (prompts (log readyProcess))),
                      with_log readyProcess
                        (log readyProcess
                         ++ [Send client
                               (DeleteObjectCommand "bucket" "a.txt");
                             ConsoleLog; Input; ConsoleError e; Input]))
            end.
Proof.
  split; [reflexivity|].
  apply (X19_deleteFile_prints_what_it_catches acceptAll pressCtrlC "bucket"
           "a.txt" readyProcess).
  reflexivity.
Defined.

(** X21.  Called before initR2Client on a file that can be read, both
    uploads catch the error of getR2Client and send nothing.  The
    command-line tool, for every chunk size option, only shows its fixed
    failure text and its prompt, and its outcome is that prompt's; the
    example script prints the error itself and returns. *)
Theorem X21_upload_without_client_reports_failure :
  forall remote ask fileSize fuel bucket filePath option_ integerOption size
         w,
    defaultR2Client w = None ->
    fileSize filePath = Some size ->
    Tool.multipartUpload remote ask fileSize fuel bucket filePath option_ w
    = Some (ask (prompts (log w)),
            with_log w (log w ++ [LoadingFail; Input]))
    /\ Example.multipartUpload remote fileSize fuel bucket filePath
         integerOption w
       = Some (Ok tt,
               with_log w
                 (log w
                  ++ [ConsoleLog; ConsoleError (Error not_initialized)])).
Proof.
  intros remote ask fileSize fuel bucket filePath option_ integerOption size
    w Hw Hf. split.
  - unfold Tool.multipartUpload, readFile. rewrite Hf.
    cbv [bind ret try_catch createMultipartUpload getR2Client].
    rewrite Hw. cbv [emit input].
    cbn [with_log log defaultR2Client constructed].
    rewrite prompts_app. cbn [prompts filter List.length].
    rewrite Nat.add_0_r.
    cbv [with_log defaultR2Client constructed log].
    rewrite <- app_assoc. reflexivity.
  - unfold Example.multipartUpload, readFile. rewrite Hf.
    cbv [bind ret try_catch createMultipartUpload getR2Client emit].
    cbn [defaultR2Client with_log]. rewrite Hw.
    cbv [with_log defaultR2Client constructed log].
    rewrite <- app_assoc. reflexivity.
Qed.

Lemma X21_witness :
  Tool.multipartUpload acceptAll pressCtrlC (oneFile 1000) 1 "bucket"
    "/data/a.bin" None freshProcess
  = Some (pressCtrlC (prompts (log freshProcess)),
          with_log freshProcess
            (log freshProcess ++ [LoadingFail; Input]))
  /\ Example.multipartUpload acceptAll (oneFile 1000) 1 "bucket"
       "/data/a.bin" None freshProcess
     = Some (Ok tt,
             with_log freshProcess
               (log freshProcess
                ++ [ConsoleLog; ConsoleError (Error not_initialized)])).
Proof.
  apply (X21_upload_without_client_reports_failure acceptAll pressCtrlC
           (oneFile 1000) 1 "bucket" "/data/a.bin" None None 1000%N
           freshProcess);
    reflexivity.
Defined.

